(** * Galactic Defense: the simulation step, the input mapper and the renderer

    A shallow embedding of [src/App.tsx].  JavaScript numbers are read as
    real numbers (rounding, NaN and infinities are outside the model), arrays
    as lists addressed by index ([!!], [<[i:=x]>], [delete i] for
    [splice(i, 1)], [++ [x]] for [push]), and the React state and refs of the
    component as one record that every operation takes and returns.  The
    [update] that the frame loop calls is the one of the render in which the
    loop's effect last ran: the [score] it holds is a field of the record of
    its own, [loopScore], renewed when the effect runs again.
    [Math.random()] is a source [rnd : nat -> R] read at a cursor that is part
    of the state, so that the order of the draws is the order of the calls in
    the source.  Comparisons of reals are decided by [Rlt_dec] and its kin:
    on given numbers the functions are evaluated by rewriting ([rminmax],
    [rdecide] and the lemmas on the loops), not by computation. *)

From Stdlib Require Import Reals Lra Lia String.
From stdpp Require Import base decidable option list.

Open Scope R_scope.

(** ** Numbers: decidable comparisons of the source's [<], [>], [>=], [<=], [===] *)

#[global] Instance Rlt_decision (a b : R) : Decision (a < b) := Rlt_dec a b.
#[global] Instance Rle_decision (a b : R) : Decision (a <= b) := Rle_dec a b.
#[global] Instance Rgt_decision (a b : R) : Decision (a > b) := Rgt_dec a b.
#[global] Instance Rge_decision (a b : R) : Decision (a >= b) := Rge_dec a b.
#[global] Instance R_eq_decision : EqDecision R := Req_dec_T.

(** [Math.floor], as an array index. *)
Definition Math_floor (x : R) : Z := Int_part x.

(** [Math.atan2(y, x)] on the reals (signed zeros are outside the model). *)
Definition Math_atan2 (y x : R) : R :=
  if decide (0 < x) then atan (y / x)
  else if decide (x < 0) then
    (if decide (0 <= y) then atan (y / x) + PI else atan (y / x) - PI)
  else if decide (0 < y) then PI / 2
  else if decide (y < 0) then - (PI / 2)
  else 0.

(** ** Constants and types *)

Definition TARGET_SCORE : R := 1000.
Definition INITIAL_AMMO : list R := [40; 40; 80; 40; 40].

Inductive GameState := START | PLAYING | WON | LOST.

#[global] Instance GameState_eq_dec : EqDecision GameState.
Proof. solve_decision. Defined.

Record Point := mkPoint { px : R; py : R }.

(** Entity ids are strings built from an index or from a random draw; the
    embedding keeps what they are built from. *)
Inductive Id :=
| id_tower (i : nat)      (* `tower-${i}` *)
| id_city (i : nat)       (* `city-${i}` *)
| id_base36 (r : R)       (* r.toString(36).substr(2, 9) *)
| id_impact (r : R)       (* `impact-${r}` *)
| id_exp (r : R)          (* `exp-${r}` *)
| id_chain (r : R).       (* `chain-${r}` *)

Record Rocket := mkRocket {
  rocket_id : Id;
  rocket_x : R;
  rocket_y : R;
  rocket_targetX : R;
  rocket_targetY : R;
  rocket_speed : R;
  rocket_progress : R
}.

Record Interceptor := mkInterceptor {
  inter_id : Id;
  inter_x : R;
  inter_y : R;
  inter_startX : R;
  inter_startY : R;
  inter_targetX : R;
  inter_targetY : R;
  inter_progress : R;
  inter_speed : R
}.

Record Explosion := mkExplosion {
  exp_id : Id;
  exp_x : R;
  exp_y : R;
  exp_radius : R;
  exp_maxRadius : R;
  exp_expanding : bool;
  exp_life : R
}.

Record City := mkCity {
  city_id : Id;
  city_x : R;
  city_y : R;
  city_alive : bool
}.

Record Tower := mkTower {
  tower_id : Id;
  tower_x : R;
  tower_y : R;
  tower_alive : bool;
  tower_ammo : option R;      (* INITIAL_AMMO[i]; undefined past its end *)
  tower_maxAmmo : option R
}.

Record Dimensions := mkDimensions { width : R; height : R }.

(** The component's state ([useState]) and refs ([useRef]). *)
Record State := mkState {
  gameState : GameState;
  score : R;
  rocketsRef : list Rocket;
  interceptorsRef : list Interceptor;
  explosionsRef : list Explosion;
  citiesRef : list City;
  towersRef : list Tower;
  lastTimeRef : R;
  spawnTimerRef : R;
  dimensionsRef : Dimensions;
  randomCalls : nat;          (* how many times Math.random() has been called *)
  loopScore : R               (* [score] in the [update] the frame loop calls *)
}.

(** *** Field assignment *)

Definition with_progress (p : R) (r : Rocket) : Rocket :=
  mkRocket (rocket_id r) (rocket_x r) (rocket_y r) (rocket_targetX r)
           (rocket_targetY r) (rocket_speed r) p.

Definition with_inter_progress (p : R) (i : Interceptor) : Interceptor :=
  mkInterceptor (inter_id i) (inter_x i) (inter_y i) (inter_startX i)
                (inter_startY i) (inter_targetX i) (inter_targetY i) p
                (inter_speed i).

Definition with_radius (r : R) (e : Explosion) : Explosion :=
  mkExplosion (exp_id e) (exp_x e) (exp_y e) r (exp_maxRadius e)
              (exp_expanding e) (exp_life e).

Definition with_expanding (b : bool) (e : Explosion) : Explosion :=
  mkExplosion (exp_id e) (exp_x e) (exp_y e) (exp_radius e) (exp_maxRadius e)
              b (exp_life e).

Definition with_city_alive (b : bool) (c : City) : City :=
  mkCity (city_id c) (city_x c) (city_y c) b.

Definition with_tower_alive (b : bool) (t : Tower) : Tower :=
  mkTower (tower_id t) (tower_x t) (tower_y t) b (tower_ammo t)
          (tower_maxAmmo t).

Definition set_gameState (g : GameState) (st : State) : State :=
  mkState g (score st) (rocketsRef st) (interceptorsRef st) (explosionsRef st)
          (citiesRef st) (towersRef st) (lastTimeRef st) (spawnTimerRef st)
          (dimensionsRef st) (randomCalls st) (loopScore st).

Definition set_score (s : R) (st : State) : State :=
  mkState (gameState st) s (rocketsRef st) (interceptorsRef st)
          (explosionsRef st) (citiesRef st) (towersRef st) (lastTimeRef st)
          (spawnTimerRef st) (dimensionsRef st) (randomCalls st) (loopScore st).

Definition set_rockets (l : list Rocket) (st : State) : State :=
  mkState (gameState st) (score st) l (interceptorsRef st) (explosionsRef st)
          (citiesRef st) (towersRef st) (lastTimeRef st) (spawnTimerRef st)
          (dimensionsRef st) (randomCalls st) (loopScore st).

Definition set_interceptors (l : list Interceptor) (st : State) : State :=
  mkState (gameState st) (score st) (rocketsRef st) l (explosionsRef st)
          (citiesRef st) (towersRef st) (lastTimeRef st) (spawnTimerRef st)
          (dimensionsRef st) (randomCalls st) (loopScore st).

Definition set_explosions (l : list Explosion) (st : State) : State :=
  mkState (gameState st) (score st) (rocketsRef st) (interceptorsRef st) l
          (citiesRef st) (towersRef st) (lastTimeRef st) (spawnTimerRef st)
          (dimensionsRef st) (randomCalls st) (loopScore st).

Definition set_cities (l : list City) (st : State) : State :=
  mkState (gameState st) (score st) (rocketsRef st) (interceptorsRef st)
          (explosionsRef st) l (towersRef st) (lastTimeRef st)
          (spawnTimerRef st) (dimensionsRef st) (randomCalls st) (loopScore st).

Definition set_towers (l : list Tower) (st : State) : State :=
  mkState (gameState st) (score st) (rocketsRef st) (interceptorsRef st)
          (explosionsRef st) (citiesRef st) l (lastTimeRef st)
          (spawnTimerRef st) (dimensionsRef st) (randomCalls st) (loopScore st).

Definition set_lastTime (t : R) (st : State) : State :=
  mkState (gameState st) (score st) (rocketsRef st) (interceptorsRef st)
          (explosionsRef st) (citiesRef st) (towersRef st) t
          (spawnTimerRef st) (dimensionsRef st) (randomCalls st) (loopScore st).

Definition set_spawnTimer (t : R) (st : State) : State :=
  mkState (gameState st) (score st) (rocketsRef st) (interceptorsRef st)
          (explosionsRef st) (citiesRef st) (towersRef st) (lastTimeRef st) t
          (dimensionsRef st) (randomCalls st) (loopScore st).

Definition set_dimensions (d : Dimensions) (st : State) : State :=
  mkState (gameState st) (score st) (rocketsRef st) (interceptorsRef st)
          (explosionsRef st) (citiesRef st) (towersRef st) (lastTimeRef st)
          (spawnTimerRef st) d (randomCalls st) (loopScore st).

Definition set_randomCalls (n : nat) (st : State) : State :=
  mkState (gameState st) (score st) (rocketsRef st) (interceptorsRef st)
          (explosionsRef st) (citiesRef st) (towersRef st) (lastTimeRef st)
          (spawnTimerRef st) (dimensionsRef st) n
          (loopScore st).

(** The [score] that the [update] called by the frame loop holds. *)
Definition set_loopScore (sc : R) (st : State) : State :=
  mkState (gameState st) (score st) (rocketsRef st) (interceptorsRef st)
          (explosionsRef st) (citiesRef st) (towersRef st) (lastTimeRef st)
          (spawnTimerRef st) (dimensionsRef st) (randomCalls st) sc.

(** ** Utils *)

Definition distance (p1 p2 : Point) : R :=
  sqrt ((px p1 - px p2) ^ 2 + (py p1 - py p2) ^ 2).

Definition exp_point (e : Explosion) : Point := mkPoint (exp_x e) (exp_y e).
Definition city_point (c : City) : Point := mkPoint (city_x c) (city_y c).
Definition tower_point (t : Tower) : Point := mkPoint (tower_x t) (tower_y t).

(** The explosions pushed by [update]. *)
Definition impactExplosion (r x y : R) : Explosion :=
  mkExplosion (id_impact r) x y 0 40 true 1.
Definition interceptorExplosion (r x y : R) : Explosion :=
  mkExplosion (id_exp r) x y 0 50 true 1.
Definition chainExplosion (r x y : R) : Explosion :=
  mkExplosion (id_chain r) x y 0 40 true 1.

(** ** The drawing surface

    [draw] is embedded as the sequence of drawing calls and property
    assignments it makes on the 2D context; a gradient is the value the
    context creates, with the colour stops added to it. *)

Inductive Style :=
| Color (c : string)
| LinearGradient (x0 y0 x1 y1 : R) (stops : list (R * string))
| RadialGradient (x0 y0 r0 x1 y1 r1 : R) (stops : list (R * string)).

Definition addColorStop (offset : R) (c : string) (g : Style) : Style :=
  match g with
  | Color c0 => Color c0
  | LinearGradient x0 y0 x1 y1 stops =>
      LinearGradient x0 y0 x1 y1 (stops ++ [(offset, c)])
  | RadialGradient x0 y0 r0 x1 y1 r1 stops =>
      RadialGradient x0 y0 r0 x1 y1 r1 (stops ++ [(offset, c)])
  end.

Module ctx.
Inductive Op :=
| clearRect (x y w h : R)
| fillRect (x y w h : R)
| fillStyle (s : Style)
| strokeStyle (s : Style)
| lineWidth (w : R)
| lineCap (s : string)
| shadowBlur (b : R)
| shadowColor (c : string)
| save
| restore
| translate (x y : R)
| rotate (a : R)
| beginPath
| closePath
| moveTo (x y : R)
| lineTo (x y : R)
| arc (x y r a0 a1 : R)
| roundRect (x y w h r : R)
| fill
| stroke
| setLineDash (l : list R).

Definition createLinearGradient (x0 y0 x1 y1 : R) : Style :=
  LinearGradient x0 y0 x1 y1 [].
Definition createRadialGradient (x0 y0 r0 x1 y1 r1 : R) : Style :=
  RadialGradient x0 y0 r0 x1 y1 r1 [].
End ctx.

Record DOMRect := mkDOMRect { rect_left : R; rect_top : R }.

(** [canvasRef.current], when it is not null: its bounding rectangle and
    whether [getContext('2d')] gives a context. *)
Record Canvas := mkCanvas { boundingClientRect : DOMRect; context2d : bool }.

Inductive PointerEvent :=
| MouseEvent (clientX clientY : R)
| TouchEvent (touches : list Point).     (* clientX, clientY of each touch *)

(** [Array.prototype.sort] with a comparator: a stable sort. *)
Fixpoint sort_insert {A} (cmp : A -> A -> R) (a : A) (l : list A) : list A :=
  match l with
  | [] => [a]
  | b :: l' => if decide (cmp a b <= 0) then a :: b :: l'
               else b :: sort_insert cmp a l'
  end.

Definition Array_sort {A} (cmp : A -> A -> R) (l : list A) : list A :=
  foldr (sort_insert cmp) [] l.

(** The state of the component when it is mounted. *)
Definition initialState : State :=
  {| gameState := START; score := 0;
     rocketsRef := []; interceptorsRef := []; explosionsRef := [];
     citiesRef := []; towersRef := [];
     lastTimeRef := 0; spawnTimerRef := 0;
     dimensionsRef := mkDimensions 0 0; randomCalls := 0;
     loopScore := 0 |}.

Section Game.

(** The values [Math.random()] returns, in call order. *)
Variable rnd : nat -> R.

Definition Math_random (st : State) : R * State :=
  (rnd (randomCalls st), set_randomCalls (S (randomCalls st)) st).

(** ** Initialization *)

Definition initGame (now : R) (st : State) : State :=
  let w := width (dimensionsRef st) in
  let h := height (dimensionsRef st) in
  let towerPositions := [0.1; 0.3; 0.5; 0.7; 0.9] in
  let st := set_towers
    (imap (fun i pos => mkTower (id_tower i) (w * pos) (h - 50) true
                                (INITIAL_AMMO !! i) (INITIAL_AMMO !! i))
          towerPositions) st in
  let cityPositions := [0.2; 0.4; 0.45; 0.55; 0.6; 0.8] in
  let st := set_cities
    (imap (fun i pos => mkCity (id_city i) (w * pos) (h - 40) true)
          cityPositions) st in
  let st := set_rockets [] st in
  let st := set_interceptors [] st in
  let st := set_explosions [] st in
  let st := set_score 0 st in
  let st := set_gameState PLAYING st in
  let st := set_lastTime now st in
  set_spawnTimer 0 st.

(** ** Game loop logic *)

(** 1. Spawn rockets.  [score] is the variable of the render whose [update]
    the frame loop calls, [loopScore]: the updaters of [setScore] do not
    reach it. *)
Definition spawnRockets (delta : R) (st : State) : State :=
  let st := set_spawnTimer (spawnTimerRef st + delta) st in
  let spawnRate := Rmax 266 (1000 - (loopScore st / 100) * 66) in
  if decide (spawnTimerRef st > spawnRate) then
    let st := set_spawnTimer 0 st in
    let w := width (dimensionsRef st) in
    let targets :=
      (city_point <$> filter (fun c => city_alive c = true) (citiesRef st)) ++
      (tower_point <$> filter (fun t => tower_alive t = true) (towersRef st)) in
    if decide (0 < length targets)%nat then   (* targets.length > 0 *)
      let '(r0, st) := Math_random st in
      match targets !! Z.to_nat (Math_floor (r0 * INR (length targets))) with
      | Some target =>
          let '(r1, st) := Math_random st in
          let '(r2, st) := Math_random st in
          let '(r3, st) := Math_random st in
          set_rockets
            (rocketsRef st ++
               [mkRocket (id_base36 r1) (r2 * w) (-20) (px target) (py target)
                         (0.0015 + r3 * 0.0015 + loopScore st / 100000) 0]) st
      | None => st    (* no such index for a draw in [0, 1) *)
      end
    else st
  else st.

(** 2. Update rockets: the body of the reverse loop at index [i]. *)
Definition rocketBody (delta : R) (i : nat) (st : State) : State :=
  match rocketsRef st !! i with
  | None => st
  | Some rocket0 =>
      let rocket :=
        with_progress
          (rocket_progress rocket0 + rocket_speed rocket0 * (delta / 16.67))
          rocket0 in
      let st := set_rockets (<[i := rocket]> (rocketsRef st)) st in
      if decide (rocket_progress rocket >= 1) then
        let st :=
          match list_find (fun c => city_x c = rocket_targetX rocket /\
                                    city_y c = rocket_targetY rocket)
                          (citiesRef st) with
          | Some (k, _) =>
              set_cities (alter (with_city_alive false) k (citiesRef st)) st
          | None => st
          end in
        let st :=
          match list_find (fun t => tower_x t = rocket_targetX rocket /\
                                    tower_y t = rocket_targetY rocket)
                          (towersRef st) with
          | Some (k, _) =>
              set_towers (alter (with_tower_alive false) k (towersRef st)) st
          | None => st
          end in
        let '(r, st) := Math_random st in
        let st :=
          set_explosions
            (explosionsRef st ++
               [impactExplosion r (rocket_targetX rocket)
                                (rocket_targetY rocket)]) st in
        let st := set_rockets (delete i (rocketsRef st)) st in
        if forallb (fun t => negb (tower_alive t)) (towersRef st)
        then set_gameState LOST st
        else st
      else st
  end.

(** [for (let i = n - 1; i >= 0; i--) body(i)] *)
Fixpoint downFrom (body : nat -> State -> State) (n : nat) (st : State)
  : State :=
  match n with
  | O => st
  | S i => downFrom body i (body i st)
  end.

Definition updateRockets (delta : R) (st : State) : State :=
  downFrom (rocketBody delta) (length (rocketsRef st)) st.

(** 3. Update interceptors. *)
Definition interceptorBody (delta : R) (i : nat) (st : State) : State :=
  match interceptorsRef st !! i with
  | None => st
  | Some inter0 =>
      let inter :=
        with_inter_progress
          (inter_progress inter0 + inter_speed inter0 * (delta / 16.67))
          inter0 in
      let st := set_interceptors (<[i := inter]> (interceptorsRef st)) st in
      if decide (inter_progress inter >= 1) then
        let '(r, st) := Math_random st in
        let st :=
          set_explosions
            (explosionsRef st ++
               [interceptorExplosion r (inter_targetX inter)
                                     (inter_targetY inter)]) st in
        set_interceptors (delete i (interceptorsRef st)) st
      else st
  end.

Definition updateInterceptors (delta : R) (st : State) : State :=
  downFrom (interceptorBody delta) (length (interceptorsRef st)) st.

(** 4. Update explosions.  The collision test of explosion [exp] against
    the rocket at index [j]; [setScore]'s updater runs in place. *)
Definition rocketPos (rocket : Rocket) : Point :=
  mkPoint
    (rocket_x rocket + (rocket_targetX rocket - rocket_x rocket)
                       * rocket_progress rocket)
    (rocket_y rocket + (rocket_targetY rocket - rocket_y rocket)
                       * rocket_progress rocket).

Definition collideBody (exp : Explosion) (j : nat) (st : State) : State :=
  match rocketsRef st !! j with
  | None => st
  | Some rocket =>
      let rx := px (rocketPos rocket) in
      let ry := py (rocketPos rocket) in
      if decide (distance (mkPoint rx ry) (exp_point exp) < exp_radius exp)
      then
        let st := set_rockets (delete j (rocketsRef st)) st in
        let newScore := score st + 20 in
        let st := if decide (newScore >= TARGET_SCORE)
                  then set_gameState WON st else st in
        let st := set_score newScore st in
        let '(r, st) := Math_random st in
        set_explosions (explosionsRef st ++ [chainExplosion r rx ry]) st
      else st
  end.

Definition explosionBody (delta : R) (i : nat) (st : State) : State :=
  match explosionsRef st !! i with
  | None => st
  | Some exp0 =>
      if exp_expanding exp0 then
        let exp := with_radius (exp_radius exp0 + 1.5 * (delta / 16.67)) exp0 in
        let exp := if decide (exp_radius exp >= exp_maxRadius exp)
                   then with_expanding false exp else exp in
        let st := set_explosions (<[i := exp]> (explosionsRef st)) st in
        downFrom (collideBody exp) (length (rocketsRef st)) st
      else
        let exp := with_radius (exp_radius exp0 - 0.8 * (delta / 16.67)) exp0 in
        let st := set_explosions (<[i := exp]> (explosionsRef st)) st in
        if decide (exp_radius exp <= 0) then
          set_explosions (delete i (explosionsRef st)) st    (* continue *)
        else
          downFrom (collideBody exp) (length (rocketsRef st)) st
  end.

Definition updateExplosions (delta : R) (st : State) : State :=
  downFrom (explosionBody delta) (length (explosionsRef st)) st.

(** One frame.  [gameState] is the value the closure of [update] holds: the
    loop is started again with a new [update] whenever [gameState] has
    changed ([runLoopEffect] below), so that it is the [gameState] of the
    state the step starts in.  The setters [setGameState] and [setScore] take
    effect in the order of the calls. *)
Definition update (dt : R) (st : State) : State :=
  match gameState st with
  | PLAYING =>
      let delta := Rmin dt 100 in
      let st := spawnRockets delta st in
      let st := updateRockets delta st in
      let st := updateInterceptors delta st in
      updateExplosions delta st
  | _ => st
  end.

(** ** Rendering *)

Definition drawCity (city : City) : list ctx.Op :=
  if negb (city_alive city) then []
  else
    [ ctx.save;
      ctx.translate (city_x city) (city_y city);
      (* Bunker main body *)
      ctx.fillStyle (Color "#4b5563");
      ctx.beginPath;
      ctx.moveTo (-20) 0;
      ctx.lineTo (-15) (-12);
      ctx.lineTo 15 (-12);
      ctx.lineTo 20 0;
      ctx.closePath;
      ctx.fill;
      (* Glowing core *)
      ctx.fillStyle (Color "#60a5fa");
      ctx.shadowBlur 10;
      ctx.shadowColor "#3b82f6";
      ctx.beginPath;
      ctx.arc 0 (-6) 3 0 (PI * 2);
      ctx.fill;
      ctx.shadowBlur 0;
      (* Slit *)
      ctx.fillStyle (Color "#111827");
      ctx.fillRect (-10) (-8) 20 2;
      (* Antenna *)
      ctx.strokeStyle (Color "#9ca3af");
      ctx.lineWidth 1;
      ctx.beginPath;
      ctx.moveTo 10 (-12);
      ctx.lineTo 10 (-20);
      ctx.stroke;
      ctx.restore ].

Definition drawTower (tower : Tower) : list ctx.Op :=
  if negb (tower_alive tower) then []
  else
    [ ctx.save;
      ctx.translate (tower_x tower) (tower_y tower);
      (* Base of the cannon *)
      ctx.fillStyle (Color "#4b5563");
      ctx.beginPath;
      ctx.roundRect (-40) 0 80 30 8;
      ctx.fill;
      (* Turret body *)
      ctx.fillStyle (Color "#374151");
      ctx.beginPath;
      ctx.arc 0 0 24 PI 0;
      ctx.fill;
      (* Barrel *)
      ctx.strokeStyle (Color "#1f2937");
      ctx.lineWidth 12;
      ctx.lineCap "round";
      ctx.beginPath;
      ctx.moveTo 0 (-10);
      ctx.lineTo 0 (-50);
      ctx.stroke;
      (* Barrel detail *)
      ctx.strokeStyle (Color "#4b5563");
      ctx.lineWidth 4;
      ctx.beginPath;
      ctx.moveTo (-4) (-20);
      ctx.lineTo (-4) (-44);
      ctx.stroke;
      ctx.restore;
      (* Shield over cannon *)
      ctx.save;
      ctx.translate (tower_x tower) (tower_y tower);
      ctx.strokeStyle (Color "rgba(59, 130, 246, 0.5)");
      ctx.lineWidth 4;
      ctx.beginPath;
      ctx.arc 0 0 60 (PI * 1.1) (PI * 1.9);
      ctx.stroke;
      (* Shield glow *)
      ctx.strokeStyle (Color "rgba(59, 130, 246, 0.2)");
      ctx.lineWidth 8;
      ctx.beginPath;
      ctx.arc 0 0 62 (PI * 1.1) (PI * 1.9);
      ctx.stroke;
      ctx.restore;
      (* Soldier next to cannon *)
      ctx.save;
      ctx.translate (tower_x tower + 35) (tower_y tower + 20);
      ctx.strokeStyle (Color "#374151");
      ctx.lineWidth 2;
      (* Helmet *)
      ctx.fillStyle (Color "#1f2937");
      ctx.beginPath;
      ctx.arc 0 (-16) 4 PI 0;
      ctx.fill;
      (* Head *)
      ctx.beginPath;
      ctx.arc 0 (-15) 3 0 (PI * 2);
      ctx.stroke;
      (* Body *)
      ctx.strokeStyle (Color "#4b5563");
      ctx.beginPath;
      ctx.moveTo 0 (-12);
      ctx.lineTo 0 (-4);
      ctx.stroke;
      (* Arms *)
      ctx.beginPath;
      ctx.moveTo (-4) (-10);
      ctx.lineTo 4 (-10);
      ctx.stroke;
      (* Rifle *)
      ctx.strokeStyle (Color "#000000");
      ctx.lineWidth 1.5;
      ctx.beginPath;
      ctx.moveTo 2 (-10);
      ctx.lineTo 8 (-15);
      ctx.stroke;
      (* Legs *)
      ctx.strokeStyle (Color "#4b5563");
      ctx.lineWidth 2;
      ctx.beginPath;
      ctx.moveTo 0 (-4);
      ctx.lineTo (-3) 4;
      ctx.moveTo 0 (-4);
      ctx.lineTo 3 4;
      ctx.stroke;
      ctx.restore ].

(** The flame of a rocket is sized by a call of [Math.random()], [r]. *)
Definition drawRocket (r : R) (rocket : Rocket) : list ctx.Op :=
  let curX := rocket_x rocket
              + (rocket_targetX rocket - rocket_x rocket)
                * rocket_progress rocket in
  let curY := rocket_y rocket
              + (rocket_targetY rocket - rocket_y rocket)
                * rocket_progress rocket in
  let angle := Math_atan2 (rocket_targetY rocket - rocket_y rocket)
                          (rocket_targetX rocket - rocket_x rocket) in
  let flameSize := (5 + r * 5) * 2 in
  let flameGrad :=
    addColorStop 1 "transparent"
      (addColorStop 0 "#ff4500"
         (ctx.createLinearGradient 0 0 0 flameSize)) in
  [ (* Trail *)
    ctx.strokeStyle (Color "rgba(255, 69, 0, 0.2)");
    ctx.setLineDash [5; 5];
    ctx.beginPath;
    ctx.moveTo (rocket_x rocket) (rocket_y rocket);
    ctx.lineTo curX curY;
    ctx.stroke;
    ctx.setLineDash [];
    ctx.save;
    ctx.translate curX curY;
    ctx.rotate (angle + PI / 2);
    (* Flame *)
    ctx.fillStyle flameGrad;
    ctx.beginPath;
    ctx.moveTo (-4) 10;
    ctx.lineTo 0 (10 + flameSize);
    ctx.lineTo 4 10;
    ctx.fill;
    (* Rocket body *)
    ctx.fillStyle (Color "#1f2937");
    ctx.beginPath;
    ctx.arc 0 0 6 0 (PI * 2);
    ctx.fill;
    ctx.fillRect (-12) (-10) 2 20;
    ctx.fillRect 10 (-10) 2 20;
    ctx.fillRect (-10) (-1) 4 2;
    ctx.fillRect 6 (-1) 4 2;
    (* Red eye *)
    ctx.fillStyle (Color "#ef4444");
    ctx.beginPath;
    ctx.arc 0 0 2 0 (PI * 2);
    ctx.fill;
    ctx.restore ].

Definition drawInterceptor (inter : Interceptor) : list ctx.Op :=
  let curX := inter_startX inter
              + (inter_targetX inter - inter_startX inter)
                * inter_progress inter in
  let curY := inter_startY inter
              + (inter_targetY inter - inter_startY inter)
                * inter_progress inter in
  let angle := Math_atan2 (inter_targetY inter - inter_startY inter)
                          (inter_targetX inter - inter_startX inter) in
  let boltGrad :=
    addColorStop 1 "#3b82f6"
      (addColorStop 0 "#00ffff"
         (ctx.createLinearGradient 0 (-10) 0 10)) in
  [ (* Trail *)
    ctx.strokeStyle (Color "rgba(0, 255, 255, 0.4)");
    ctx.lineWidth 2;
    ctx.beginPath;
    ctx.moveTo (inter_startX inter) (inter_startY inter);
    ctx.lineTo curX curY;
    ctx.stroke;
    ctx.save;
    ctx.translate curX curY;
    ctx.rotate (angle + PI / 2);
    (* Plasma bolt *)
    ctx.fillStyle boltGrad;
    ctx.beginPath;
    ctx.roundRect (-2) (-15) 4 30 2;
    ctx.fill;
    (* Glow *)
    ctx.shadowBlur 15;
    ctx.shadowColor "#3b82f6";
    ctx.stroke;
    ctx.restore;
    (* Target X *)
    ctx.strokeStyle (Color "#ffffff");
    ctx.lineWidth 1;
    ctx.beginPath;
    ctx.moveTo (inter_targetX inter - 5) (inter_targetY inter - 5);
    ctx.lineTo (inter_targetX inter + 5) (inter_targetY inter + 5);
    ctx.moveTo (inter_targetX inter + 5) (inter_targetY inter - 5);
    ctx.lineTo (inter_targetX inter - 5) (inter_targetY inter + 5);
    ctx.stroke ].

Definition drawExplosion (exp : Explosion) : list ctx.Op :=
  let gradient :=
    addColorStop 1 "rgba(239, 68, 68, 0)"
      (addColorStop 0.4 "#fbbf24"
         (addColorStop 0 "#ffffff"
            (ctx.createRadialGradient (exp_x exp) (exp_y exp) 0
                                      (exp_x exp) (exp_y exp)
                                      (exp_radius exp)))) in
  [ ctx.fillStyle gradient;
    ctx.beginPath;
    ctx.arc (exp_x exp) (exp_y exp) (exp_radius exp) 0 (PI * 2);
    ctx.fill ].

(** [rocketsRef.current.forEach]: one [Math.random()] per rocket. *)
Fixpoint drawRockets (l : list Rocket) (st : State) : list ctx.Op * State :=
  match l with
  | [] => ([], st)
  | rocket :: l' =>
      let '(r, st) := Math_random st in
      let '(ops, st) := drawRockets l' st in
      (drawRocket r rocket ++ ops, st)
  end.

Definition draw (canvas : option Canvas) (st : State) : list ctx.Op * State :=
  match canvas with
  | None => ([], st)
  | Some cv =>
      if negb (context2d cv) then ([], st)
      else
        let w := width (dimensionsRef st) in
        let h := height (dimensionsRef st) in
        let groundGrad :=
          addColorStop 1 "#000000"
            (addColorStop 0 "#1a1a1a"
               (ctx.createLinearGradient 0 (h - 30) 0 h)) in
        let '(rocketOps, st') := drawRockets (rocketsRef st) st in
        ([ ctx.clearRect 0 0 w h;
           ctx.fillStyle groundGrad;
           ctx.fillRect 0 (h - 30) w 30 ]
           ++ concat (drawCity <$> citiesRef st)
           ++ concat (drawTower <$> towersRef st)
           ++ rocketOps
           ++ concat (drawInterceptor <$> interceptorsRef st)
           ++ concat (drawExplosion <$> explosionsRef st),
         st')
  end.

(** ** Input handling *)

(** One turn of the burst loop. *)
Definition burstBody (tower : Tower) (x y : R) (st : State) : State :=
  let '(r0, st) := Math_random st in
  let offsetX := (r0 - 0.5) * 30 in
  let '(r1, st) := Math_random st in
  let offsetY := (r1 - 0.5) * 30 in
  let '(r2, st) := Math_random st in
  let '(r3, st) := Math_random st in
  set_interceptors
    (interceptorsRef st ++
       [ {| inter_id := id_base36 r2;
            inter_startX := tower_x tower;
            inter_startY := tower_y tower;
            inter_x := tower_x tower;
            inter_y := tower_y tower;
            inter_targetX := x + offsetX;
            inter_targetY := y + offsetY;
            inter_progress := 0;
            inter_speed := 0.12 + r3 * 0.05 |} ]) st.

Definition handleCanvasClick (canvas : option Canvas) (e : PointerEvent)
    (st : State) : State :=
  match gameState st with
  | PLAYING =>
      match canvas with
      | None => st
      | Some cv =>
          let rect := boundingClientRect cv in
          let client :=
            match e with
            | TouchEvent touches => touches !! 0%nat
            | MouseEvent clientX clientY => Some (mkPoint clientX clientY)
            end in
          match client with
          | None => st      (* e.touches[0] is undefined: the handler throws *)
          | Some c =>
              let x := px c - rect_left rect in
              let y := py c - rect_top rect in
              let availableTowers :=
                Array_sort
                  (fun a b => distance (mkPoint x y) (tower_point a)
                              - distance (mkPoint x y) (tower_point b))
                  (filter (fun t => tower_alive t = true) (towersRef st)) in
              match availableTowers with
              | tower :: _ =>      (* availableTowers.length > 0 *)
                  let burstSize := 5%nat in
                  Nat.iter burstSize (burstBody tower x y) st
              | [] => st
              end
          end
      end
  | _ => st
  end.

(** ** The frame loop and resizing *)

(** One turn of [loop], called with the time of the frame. *)
Definition loop (canvas : option Canvas) (time : R) (st : State)
  : list ctx.Op * State :=
  let dt := time - lastTimeRef st in
  let st := set_lastTime time st in
  let st := update dt st in
  draw canvas st.

(** [useEffect(() => { ... requestAnimationFrame(loop) ... },
    [gameState, draw])], where [draw] is memoized on [gameState]: after a
    render in which [gameState] is not what it was in the render before,
    [before], the frame loop is started again and calls the [update] of the
    new render, which holds the [score] of that render; after any other
    render the loop goes on with the [update] it has. *)
Definition runLoopEffect (before : GameState) (st : State) : State :=
  if decide (gameState st = before) then st
  else set_loopScore (score st) st.

(** [container] is the bounding rectangle of the container, when it is
    mounted. *)
Definition handleResize (container : option Dimensions)
    (canvas : option Canvas) (st : State) : State :=
  match container, canvas with
  | Some d, Some _ => set_dimensions d st
  | _, _ => st
  end.

End Game.

(** * The vocabulary of the properties

    What the loops of [update] do to one entity, the predicates the
    statements use, and the states and random sources they are tried on. *)

(** What the simulation step leaves alone once the rockets have moved. *)
Definition sameGround (s s' : State) : Prop :=
  citiesRef s' = citiesRef s /\ towersRef s' = towersRef s /\
  interceptorsRef s' = interceptorsRef s /\
  lastTimeRef s' = lastTimeRef s /\ spawnTimerRef s' = spawnTimerRef s /\
  dimensionsRef s' = dimensionsRef s.

(** Rocket [r] is strictly inside explosion [e]. *)
Definition inside (e : Explosion) (r : Rocket) : Prop :=
  distance (rocketPos r) (exp_point e) < exp_radius e.

#[global] Instance inside_dec e r : Decision (inside e r).
Proof. unfold inside. apply _. Defined.

(** [c] is a chain explosion at the place where [r] was. *)
Definition chainAt (c : Explosion) (r : Rocket) : Prop :=
  exists rho, c = chainExplosion rho (px (rocketPos r)) (py (rocketPos r)).

(** The phase after [kills] credited kills ending at score [final]. *)
Definition phaseAfterKills (kills : nat) (final : R) (g : GameState)
  : GameState :=
  if decide ((0 < kills)%nat /\ final >= TARGET_SCORE) then WON else g.

(** What one turn of the loop does to the explosion it visits: [None] when
    the explosion is spliced out. *)
Definition stepExplosion (delta : R) (e : Explosion) : option Explosion :=
  if exp_expanding e then
    let e1 := with_radius (exp_radius e + 1.5 * (delta / 16.67)) e in
    Some (if decide (exp_radius e1 >= exp_maxRadius e1)
          then with_expanding false e1 else e1)
  else
    let e1 := with_radius (exp_radius e - 0.8 * (delta / 16.67)) e in
    if decide (exp_radius e1 <= 0) then None else Some e1.

(** Explosion [e], once advanced, is still there and has [r] inside. *)
Definition hits (delta : R) (e : Explosion) (r : Rocket) : Prop :=
  match stepExplosion delta e with
  | Some e' => inside e' r
  | None => False
  end.

#[global] Instance hits_dec delta e r : Decision (hits delta e r).
Proof. unfold hits. destruct (stepExplosion delta e); apply _. Defined.

(** Some explosion of [E] hits [r]. *)
Definition hitByAny (delta : R) (E : list Explosion) (r : Rocket) : Prop :=
  Exists (fun e => hits delta e r) E.

#[global] Instance hitByAny_dec delta E r : Decision (hitByAny delta E r).
Proof. unfold hitByAny. apply _. Defined.

(** [rocket.progress += rocket.speed * (delta / 16.67)] *)
Definition advanceRocket (delta : R) (r : Rocket) : Rocket :=
  with_progress (rocket_progress r + rocket_speed r * (delta / 16.67)) r.

(** The rocket has reached its target. *)
Definition impacted (r : Rocket) : Prop := rocket_progress r >= 1.

#[global] Instance impacted_dec r : Decision (impacted r).
Proof. unfold impacted. apply _. Defined.

(** [find] the installation at [(x, y)] and clear its [alive] flag. *)
Definition killCity (x y : R) (cs : list City) : list City :=
  match list_find (fun c => city_x c = x /\ city_y c = y) cs with
  | Some (k, _) => alter (with_city_alive false) k cs
  | None => cs
  end.

(** The same for the towers. *)
Definition killTower (x y : R) (ts : list Tower) : list Tower :=
  match list_find (fun t => tower_x t = x /\ tower_y t = y) ts with
  | Some (k, _) => alter (with_tower_alive false) k ts
  | None => ts
  end.

(** [towers.every(t => !t.alive)] *)
Definition allTowersDead (ts : list Tower) : bool :=
  forallb (fun t => negb (tower_alive t)) ts.

(** [e] is the explosion pushed at the target of [r]. *)
Definition impactAt (e : Explosion) (r : Rocket) : Prop :=
  exists rho, e = impactExplosion rho (rocket_targetX r) (rocket_targetY r).

(** The rockets that reach their target during the loop over [Rs], in the
    order in which the loop resolves them (last index first). *)
Definition impacting (delta : R) (Rs : list Rocket) : list Rocket :=
  reverse (filter impacted (advanceRocket delta <$> Rs)).

(** [inter.progress += inter.speed * (delta / 16.67)] *)
Definition advanceInterceptor (delta : R) (i : Interceptor) : Interceptor :=
  with_inter_progress (inter_progress i + inter_speed i * (delta / 16.67)) i.

(** The interceptor has reached its target. *)
Definition arrived (i : Interceptor) : Prop := inter_progress i >= 1.

#[global] Instance arrived_dec i : Decision (arrived i).
Proof. unfold arrived. apply _. Defined.

(** [e] is the explosion pushed at the target of [i]. *)
Definition burstAt (e : Explosion) (i : Interceptor) : Prop :=
  exists rho, e = interceptorExplosion rho (inter_targetX i) (inter_targetY i).

(** A rocket as [spawnRockets] makes it: at progress 0, with a speed drawn
    for the score [sc]. *)
Definition freshRocket (rnd : nat -> R) (sc : R) (r : Rocket) : Prop :=
  rocket_progress r = 0 /\
  exists k, rocket_speed r = 0.0015 + rnd k * 0.0015 + sc / 100000.

(** [r'] is the rocket [r] further along its path (or where it was). *)
Definition rocketMoved (r r' : Rocket) : Prop :=
  exists p, r' = with_progress p r /\ rocket_progress r <= p.

(** The same for an interceptor. *)
Definition interceptorMoved (i i' : Interceptor) : Prop :=
  exists p, i' = with_inter_progress p i /\ inter_progress i <= p.

(** The invariant of the states the game reaches: the score, also as the
    frame loop holds it, and the speeds are not negative. *)
Definition wf (st : State) : Prop :=
  (0 <= score st /\ 0 <= loopScore st) /\
  Forall (fun r => 0 <= rocket_speed r) (rocketsRef st) /\
  Forall (fun i => 0 <= inter_speed i) (interceptorsRef st).

(** [Math.random()] answers in [0, 1). *)
Definition inUnit (rnd : nat -> R) : Prop := forall n, 0 <= rnd n < 1.

(** [Math.random()] always answering 0, and always answering 1/2. *)
Definition rnd0 : nat -> R := fun _ => 0.
Definition rndHalf : nat -> R := fun _ => 0.5.

(** A run in which both towers have already been struck, with no rocket in
    flight. *)
Definition stTowersDown : State :=
  {| gameState := PLAYING; score := 40;
     rocketsRef := []; interceptorsRef := []; explosionsRef := [];
     citiesRef := [mkCity (id_city 0) 160 560 true];
     towersRef := [mkTower (id_tower 0) 80 550 false (Some 40) (Some 40);
                   mkTower (id_tower 1) 240 550 false (Some 40) (Some 40)];
     lastTimeRef := 0; spawnTimerRef := 0;
     dimensionsRef := mkDimensions 800 600; randomCalls := 0;
     loopScore := 0 |}.

(** A run in which the first tower has been struck, with a rocket about to
    land on the second, the last one alive. *)
Definition stLastTower : State :=
  {| gameState := PLAYING; score := 40;
     rocketsRef := [mkRocket (id_base36 0) 100 (-20) 240 550 0.002 0.999];
     interceptorsRef := []; explosionsRef := [];
     citiesRef := [mkCity (id_city 0) 160 560 true];
     towersRef := [mkTower (id_tower 0) 80 550 false (Some 40) (Some 40);
                   mkTower (id_tower 1) 240 550 true (Some 40) (Some 40)];
     lastTimeRef := 0; spawnTimerRef := 0;
     dimensionsRef := mkDimensions 800 600; randomCalls := 0;
     loopScore := 0 |}.

(** The same run with a rocket about to land on the city before the one
    about to land on the tower. *)
Definition stStrike : State :=
  set_rockets [mkRocket (id_base36 0.1) 100 (-20) 160 560 0.002 0.999;
               mkRocket (id_base36 0) 100 (-20) 240 550 0.002 0.999]
              stLastTower.

(** Three rockets over a tower, inside a shrinking explosion of radius 50,
    with the score one kill short of the target. *)
Definition stTriple : State :=
  {| gameState := PLAYING; score := 980;
     rocketsRef := [mkRocket (id_base36 0.1) 10 10 10 510 0.002 0;
                    mkRocket (id_base36 0.2) 10 10 10 510 0.002 0;
                    mkRocket (id_base36 0.3) 10 10 10 510 0.002 0];
     interceptorsRef := [];
     explosionsRef := [mkExplosion (id_exp 0.4) 0 0 50 50 false 1];
     citiesRef := [];
     towersRef := [mkTower (id_tower 0) 10 510 true (Some 40) (Some 40)];
     lastTimeRef := 0; spawnTimerRef := 0;
     dimensionsRef := mkDimensions 800 600; randomCalls := 0;
     loopScore := 0 |}.

(** An explosion of radius 50 at (0, 0) and a rocket half way from (0, 0)
    to (20, 20), at (10, 10). *)
Definition stKill : State :=
  {| gameState := PLAYING; score := 100;
     rocketsRef := [mkRocket (id_base36 0.1) 0 0 20 20 0.002 0.5];
     interceptorsRef := [];
     explosionsRef := [mkExplosion (id_exp 0.4) 0 0 50 50 false 1];
     citiesRef := [];
     towersRef := [mkTower (id_tower 0) 20 20 true (Some 40) (Some 40)];
     lastTimeRef := 0; spawnTimerRef := 0;
     dimensionsRef := mkDimensions 800 600; randomCalls := 0;
     loopScore := 0 |}.

(** A growing explosion one step away from its largest radius. *)
Definition stGrow : State :=
  {| gameState := PLAYING; score := 0;
     rocketsRef := []; interceptorsRef := [];
     explosionsRef := [mkExplosion (id_exp 0.4) 300 200 39 40 true 1];
     citiesRef := [];
     towersRef := [mkTower (id_tower 0) 80 550 true (Some 40) (Some 40)];
     lastTimeRef := 0; spawnTimerRef := 0;
     dimensionsRef := mkDimensions 800 600; randomCalls := 0;
     loopScore := 0 |}.

(** One rocket in flight and nothing else to draw. *)
Definition stOneRocket : State :=
  {| gameState := PLAYING; score := 0;
     rocketsRef := [mkRocket (id_base36 0.1) 100 (-20) 160 560 0.002 0.5];
     interceptorsRef := []; explosionsRef := [];
     citiesRef := []; towersRef := [];
     lastTimeRef := 0; spawnTimerRef := 0;
     dimensionsRef := mkDimensions 800 600; randomCalls := 0;
     loopScore := 0 |}.

(** [Math.random()] answering 0 first and 1/2 from then on. *)
Definition rndStep : nat -> R :=
  fun n => match n with O => 0 | S _ => 0.5 end.

(** A canvas at the origin of the page, with a 2D context. *)
Definition someCanvas : Canvas := mkCanvas (mkDOMRect 0 0) true.

(** An interceptor of a burst fired from [tower] at the tap point [p]. *)
Definition burstInterceptor (tower : Tower) (p : Point) (i : Interceptor)
  : Prop :=
  inter_startX i = tower_x tower /\ inter_startY i = tower_y tower /\
  inter_x i = tower_x tower /\ inter_y i = tower_y tower /\
  px p - 15 <= inter_targetX i <= px p + 15 /\
  py p - 15 <= inter_targetY i <= py p + 15 /\
  inter_progress i = 0 /\
  0.12 <= inter_speed i < 0.17.

(** The tap point of an event on the canvas, relative to the canvas. *)
Definition tapAt (cv : Canvas) (e : PointerEvent) (p : Point) : Prop :=
  match e with
  | MouseEvent clientX clientY =>
      p = mkPoint (clientX - rect_left (boundingClientRect cv))
                  (clientY - rect_top (boundingClientRect cv))
  | TouchEvent (t :: _) =>
      p = mkPoint (px t - rect_left (boundingClientRect cv))
                  (py t - rect_top (boundingClientRect cv))
  | TouchEvent [] => False
  end.

(** The game is won, the towers stand. *)
Definition stWon : State :=
  {| gameState := WON; score := 1000;
     rocketsRef := []; interceptorsRef := []; explosionsRef := [];
     citiesRef := [];
     towersRef := [mkTower (id_tower 0) 100 500 true (Some 40) (Some 40)];
     lastTimeRef := 0; spawnTimerRef := 0;
     dimensionsRef := mkDimensions 800 600; randomCalls := 0;
     loopScore := 0 |}.

(** A press of the start button, and a turn of the frame loop, each with
    the render that follows it. *)
Definition begin (now : R) (st : State) : State :=
  runLoopEffect (gameState st) (initGame now st).

Definition frame (rnd : nat -> R) (canvas : option Canvas) (time : R)
    (st : State) : State :=
  runLoopEffect (gameState st) (loop rnd canvas time st).2.

(** The states the component goes through, [Math.random()] answering by
    [rnd]. *)
Inductive reachable (rnd : nat -> R) : State -> Prop :=
| reach_mount : reachable rnd initialState
| reach_begin now st :
    reachable rnd st -> reachable rnd (begin now st)
| reach_frame canvas time st :
    reachable rnd st -> reachable rnd (frame rnd canvas time st)
| reach_tap canvas e st :
    reachable rnd st -> reachable rnd (handleCanvasClick rnd canvas e st)
| reach_resize container canvas st :
    reachable rnd st -> reachable rnd (handleResize container canvas st).

(** ** More vocabulary: spawning, phases, frames, the canvas stack *)

(** [Math.max(266, 1000 - (score / 100) * 66)], the interval between two
    spawns at score [sc]. *)
Definition spawnRate (sc : R) : R := Rmax 266 (1000 - (sc / 100) * 66).

(** The positions [spawnRockets] chooses a target among. *)
Definition liveTargets (st : State) : list Point :=
  (city_point <$> filter (fun c => city_alive c = true) (citiesRef st)) ++
  (tower_point <$> filter (fun t => tower_alive t = true) (towersRef st)).

(** An installation as it was, or the same installation struck. *)
Definition cityDecay (c c' : City) : Prop :=
  c' = c \/ c' = with_city_alive false c.

Definition towerDecay (t t' : Tower) : Prop :=
  t' = t \/ t' = with_tower_alive false t.

(** The moves of the phase that do not go through [initGame]. *)
Definition phaseMove (g g' : GameState) : Prop :=
  g' = g \/ (g = PLAYING /\ (g' = WON \/ g' = LOST)).

(** Projectiles are on their way and explosions have a radius. *)
Definition tidy (st : State) : Prop :=
  Forall (fun r => 0 <= rocket_progress r < 1) (rocketsRef st) /\
  Forall (fun i => 0 <= inter_progress i < 1) (interceptorsRef st) /\
  Forall (fun e => 0 <= exp_radius e) (explosionsRef st).

(** The depth of the context's state stack after [ops], starting at depth
    [d]; [None] when a [restore] finds the stack empty. *)
Fixpoint saveDepth (d : nat) (ops : list ctx.Op) : option nat :=
  match ops with
  | [] => Some d
  | ctx.save :: ops' => saveDepth (S d) ops'
  | ctx.restore :: ops' =>
      match d with
      | O => None
      | S d' => saveDepth d' ops'
      end
  | _ :: ops' => saveDepth d ops'
  end.

(** Successive steps, one for each elapsed time of [dts]. *)
Definition run (rnd : nat -> R) (dts : list R) (st : State) : State :=
  foldl (fun s dt => update rnd dt s) st dts.

(** The rockets [spawnRockets] appends. *)
Definition spawned (rnd : nat -> R) (delta : R) (st : State) : list Rocket :=
  drop (length (rocketsRef st)) (rocketsRef (spawnRockets rnd delta st)).

(** [stGrow] with the spawn timer about to run out. *)
Definition stSpawnDue : State := set_spawnTimer 990 stGrow.

(** What the phase says about the towers and the score. *)
Definition phaseFits (st : State) : Prop :=
  match gameState st with
  | START => score st = 0 /\ rocketsRef st = [] /\ interceptorsRef st = [] /\
             explosionsRef st = [] /\ citiesRef st = [] /\ towersRef st = []
  | PLAYING => allTowersDead (towersRef st) = false /\
               score st < TARGET_SCORE
  | WON => score st >= TARGET_SCORE
  | LOST => allTowersDead (towersRef st) = true
  end.

(** Two states that show the same scene: the same dimensions, live cities,
    live towers, rockets, interceptors and explosions, with as many calls of
    [Math.random()] made so far. *)
Definition sameScene (s s' : State) : Prop :=
  dimensionsRef s' = dimensionsRef s /\
  filter (fun c => city_alive c = true) (citiesRef s')
  = filter (fun c => city_alive c = true) (citiesRef s) /\
  filter (fun t => tower_alive t = true) (towersRef s')
  = filter (fun t => tower_alive t = true) (towersRef s) /\
  rocketsRef s' = rocketsRef s /\ interceptorsRef s' = interceptorsRef s /\
  explosionsRef s' = explosionsRef s /\ randomCalls s' = randomCalls s.

(** The game itself: everything but the clock of the frames, the size of
    the canvas and the number of calls of [Math.random()]. *)
Definition sameGame (s s' : State) : Prop :=
  gameState s' = gameState s /\ score s' = score s /\
  rocketsRef s' = rocketsRef s /\ interceptorsRef s' = interceptorsRef s /\
  explosionsRef s' = explosionsRef s /\ citiesRef s' = citiesRef s /\
  towersRef s' = towersRef s /\ spawnTimerRef s' = spawnTimerRef s.

(** What happens to the component between two calls of [initGame]. *)
Inductive Event :=
| Frame (canvas : option Canvas) (time : R)
| Tap (canvas : option Canvas) (e : PointerEvent)
| Resize (container : option Dimensions) (canvas : option Canvas).

Definition handle (rnd : nat -> R) (st : State) (ev : Event) : State :=
  match ev with
  | Frame canvas time => frame rnd canvas time st
  | Tap canvas e => handleCanvasClick rnd canvas e st
  | Resize container canvas => handleResize container canvas st
  end.

Definition handleAll (rnd : nat -> R) (evs : list Event) (st : State)
  : State :=
  foldl (handle rnd) st evs.

(** The cities and the towers [initGame] lays out on a canvas of [w] by
    [h]. *)
Definition boardCities (w h : R) : list City :=
  citiesRef (initGame 0 (set_dimensions (mkDimensions w h) initialState)).

Definition boardTowers (w h : R) : list Tower :=
  towersRef (initGame 0 (set_dimensions (mkDimensions w h) initialState)).

(** Two live towers, the tap point (200, 500) half way between them. *)
Definition stTwoTowers : State :=
  {| gameState := PLAYING; score := 0;
     rocketsRef := []; interceptorsRef := []; explosionsRef := [];
     citiesRef := [];
     towersRef := [mkTower (id_tower 0) 100 500 true (Some 40) (Some 40);
                   mkTower (id_tower 1) 300 500 true (Some 40) (Some 40)];
     lastTimeRef := 0; spawnTimerRef := 0;
     dimensionsRef := mkDimensions 800 600; randomCalls := 0;
     loopScore := 0 |}.

(** The explosion after the successive steps [deltas], if it is still
    there. *)
Fixpoint explosionAfter (deltas : list R) (e : Explosion)
  : option Explosion :=
  match deltas with
  | [] => Some e
  | delta :: deltas' =>
      match stepExplosion delta e with
      | Some e' => explosionAfter deltas' e'
      | None => None
      end
  end.

(** The explosion loop of successive steps, one for each of [deltas]. *)
Definition burnOut (rnd : nat -> R) (deltas : list R) (st : State) : State :=
  foldl (fun s delta => updateExplosions rnd delta s) st deltas.

(** * Properties *)

(** ** Loops and what they leave alone *)

Lemma downFrom_S body n st :
  downFrom body (S n) st = downFrom body n (body n st).
Proof. reflexivity. Qed.

Lemma sameGround_refl s : sameGround s s.
Proof. repeat split. Qed.

Lemma sameGround_trans s1 s2 s3 :
  sameGround s1 s2 -> sameGround s2 s3 -> sameGround s1 s3.
Proof.
  unfold sameGround. intros (?&?&?&?&?&?) (?&?&?&?&?&?).
  repeat split; congruence.
Qed.

(** ** The collision test *)

Ltac decide_cases :=
  repeat destruct (decide _); try reflexivity; exfalso;
  repeat match goal with H : _ /\ _ |- _ => destruct H end;
  try lia; try lra;
  match goal with
  | Hn : ~ _ |- _ => solve [apply Hn; repeat split; (lia || lra)]
  end.

Lemma phaseAfterKills_0 sc g : phaseAfterKills 0 sc g = g.
Proof. unfold phaseAfterKills. decide_cases. Qed.

Lemma phaseAfterKills_step k sc g :
  phaseAfterKills k (sc + 20 + 20 * INR k)
    (if decide (sc + 20 >= TARGET_SCORE) then WON else g)
  = phaseAfterKills (S k) (sc + 20 + 20 * INR k) g.
Proof.
  unfold phaseAfterKills, TARGET_SCORE.
  destruct k as [|k].
  - change (INR 0) with 0. decide_cases.
  - pose proof (pos_INR k). rewrite S_INR. decide_cases.
Qed.

Section Hazard.

Variable rnd : nat -> R.

Lemma collideBody_hit e j s r :
  rocketsRef s !! j = Some r -> inside e r ->
  let s' := collideBody rnd e j s in
  rocketsRef s' = delete j (rocketsRef s) /\
  explosionsRef s' =
    explosionsRef s ++
      [chainExplosion (rnd (randomCalls s)) (px (rocketPos r))
                      (py (rocketPos r))] /\
  score s' = score s + 20 /\
  gameState s' =
    (if decide (score s + 20 >= TARGET_SCORE) then WON else gameState s) /\
  sameGround s s'.
Proof.
  intros Hj Hin. unfold collideBody. rewrite Hj.
  unfold inside in Hin. cbn.
  destruct (decide _) as [_|Hn]; [|contradiction].
  cbn. destruct (decide (score s + 20 >= TARGET_SCORE)); cbn;
    repeat split; reflexivity.
Qed.

Lemma collideBody_miss e j s r :
  rocketsRef s !! j = Some r -> ~ inside e r -> collideBody rnd e j s = s.
Proof.
  intros Hj Hin. unfold collideBody. rewrite Hj.
  unfold inside in Hin. cbn.
  destruct (decide _) as [Hy|_]; [contradiction|reflexivity].
Qed.

(** The inner loop over the rockets [L] still to be tested, [done] being the
    survivors above them. *)
Lemma collideLoop_spec e L :
  forall done s,
    rocketsRef s = L ++ done ->
    let s' := downFrom (collideBody rnd e) (length L) s in
    rocketsRef s' = filter (fun r => ~ inside e r) L ++ done /\
    (exists chains,
        explosionsRef s' = explosionsRef s ++ chains /\
        Forall2 chainAt chains (reverse (filter (inside e) L)) /\
        score s' = score s + 20 * INR (length chains) /\
        gameState s' =
          phaseAfterKills (length chains) (score s') (gameState s)) /\
    sameGround s s'.
Proof.
  induction L as [|r L IH] using rev_ind; intros done s HL.
  - cbn. split; [exact HL|]. split; [|apply sameGround_refl].
    exists []. rewrite app_nil_r. split; [reflexivity|].
    split; [constructor|]. split; [cbn; lra|].
    cbn [length]. by rewrite phaseAfterKills_0.
  - rewrite length_app. cbn [length]. rewrite Nat.add_1_r, downFrom_S.
    assert (Hj : rocketsRef s !! length L = Some r).
    { rewrite HL, <- app_assoc. apply list_lookup_middle. reflexivity. }
    rewrite filter_app, (filter_app (inside e)), !filter_cons, !filter_nil.
    destruct (decide (inside e r)) as [Hin|Hin].
    + destruct (collideBody_hit e _ s r Hj Hin) as (Hr & He & Hs & Hg & Hf).
      set (s1 := collideBody rnd e (length L) s) in *.
      assert (HL1 : rocketsRef s1 = L ++ done).
      { rewrite Hr, HL, <- app_assoc. apply delete_middle. }
      destruct (IH done s1 HL1) as (IHr & (chains & IHe & IHc & IHs & IHg) & IHf).
      cbn zeta. split.
      { rewrite IHr. rewrite decide_False by tauto. by rewrite app_nil_r. }
      split; [|eapply sameGround_trans; eassumption].
      eexists (_ :: chains). rewrite IHe, He, <- app_assoc. split; [reflexivity|].
      split.
      { rewrite reverse_app. cbn. constructor; [eexists; reflexivity|exact IHc]. }
      split.
      { rewrite IHs, Hs. cbn [length]. rewrite S_INR. lra. }
      rewrite IHg, Hg, IHs, Hs. cbn [length]. apply phaseAfterKills_step.
    + rewrite (collideBody_miss e _ s r Hj Hin).
      assert (HL1 : rocketsRef s = L ++ (r :: done)).
      { rewrite HL, <- app_assoc. reflexivity. }
      destruct (IH (r :: done) s HL1) as (IHr & IHe & IHf).
      cbn zeta. split.
      { rewrite IHr. rewrite decide_True by tauto. rewrite <- app_assoc. reflexivity. }
      split; [|exact IHf].
      rewrite app_nil_r. exact IHe.
Qed.

End Hazard.

(** ** The explosion loop *)

Lemma insert_middle {A} (l1 l2 : list A) x y :
  <[length l1 := y]> (l1 ++ x :: l2) = l1 ++ y :: l2.
Proof.
  rewrite <- (Nat.add_0_r (length l1)). by rewrite insert_app_r.
Qed.

Lemma filter_Forall_all {A} (P : A -> Prop) `{!forall x, Decision (P x)}
    (l : list A) : Forall P l -> filter P l = l.
Proof.
  induction 1 as [|a l Ha _ IH]; [done|].
  rewrite filter_cons, decide_True by exact Ha. by rewrite IH.
Qed.

Lemma filter_Forall_none {A} (P : A -> Prop) `{!forall x, Decision (P x)}
    (l : list A) : Forall (fun x => ~ P x) l -> filter P l = [].
Proof.
  induction 1 as [|a l Ha _ IH]; [done|].
  rewrite filter_cons, decide_False by exact Ha. exact IH.
Qed.

Lemma filter_all {A} (P : A -> Prop) `{!forall x, Decision (P x)}
    (l : list A) : (forall x, P x) -> filter P l = l.
Proof. intros HP. apply filter_Forall_all, Forall_forall. auto. Qed.

Lemma filter_none {A} (P : A -> Prop) `{!forall x, Decision (P x)}
    (l : list A) : (forall x, ~ P x) -> filter P l = [].
Proof. intros HP. apply filter_Forall_none, Forall_forall. auto. Qed.

Lemma eq_perm {A} (l k : list A) : l = k -> l ≡ₚ k.
Proof. by intros ->. Qed.

Lemma filter_or_perm {A} (P Q : A -> Prop)
    `{!forall x, Decision (P x), !forall x, Decision (Q x)} (l : list A) :
  filter P l ++ filter Q (filter (fun x => ~ P x) l)
  ≡ₚ filter (fun x => Q x \/ P x) l.
Proof.
  induction l as [|a l IH]; [done|].
  rewrite !filter_cons.
  destruct (decide (P a)) as [HP|HP].
  - rewrite decide_False by tauto. rewrite decide_True by tauto.
    cbn. by rewrite IH.
  - rewrite (decide_True (P := ~ P a)) by tauto. rewrite filter_cons.
    destruct (decide (Q a)) as [HQ|HQ].
    + rewrite decide_True by tauto.
      rewrite <- Permutation_middle. by rewrite IH.
    + rewrite decide_False by tauto. exact IH.
Qed.

Lemma phaseAfterKills_compose k1 k2 sc g :
  phaseAfterKills k2 (sc + 20 * INR k1 + 20 * INR k2)
    (phaseAfterKills k1 (sc + 20 * INR k1) g)
  = phaseAfterKills (k1 + k2) (sc + 20 * INR k1 + 20 * INR k2) g.
Proof.
  unfold phaseAfterKills, TARGET_SCORE.
  pose proof (pos_INR k1). pose proof (pos_INR k2).
  destruct k2 as [|k2].
  - change (INR 0) with 0 in *. rewrite Nat.add_0_r.
    replace (sc + 20 * INR k1 + 20 * 0) with (sc + 20 * INR k1) by lra.
    decide_cases.
  - decide_cases.
Qed.

Section ExplosionLoop.

Variable rnd : nat -> R.

Lemma explosionBody_spec delta E e T s :
  explosionsRef s = E ++ e :: T ->
  explosionBody rnd delta (length E) s =
    match stepExplosion delta e with
    | None => set_explosions (E ++ T) s
    | Some e' =>
        downFrom (collideBody rnd e') (length (rocketsRef s))
                 (set_explosions (E ++ e' :: T) s)
    end.
Proof.
  intros HE. unfold explosionBody, stepExplosion.
  rewrite HE, list_lookup_middle by reflexivity.
  destruct (exp_expanding e); cbn.
  - rewrite insert_middle. reflexivity.
  - rewrite insert_middle.
    destruct (decide _); [|reflexivity].
    cbn. by rewrite delete_middle.
Qed.

(** The loop over the explosions [E] present when it starts; [T] is what
    lies above them in the array. *)
Lemma explosionLoop_spec delta E :
  forall T s,
    explosionsRef s = E ++ T ->
    let s' := downFrom (explosionBody rnd delta) (length E) s in
    rocketsRef s' =
      filter (fun r => ~ hitByAny delta E r) (rocketsRef s) /\
    (exists chains killed,
        explosionsRef s' = omap (stepExplosion delta) E ++ T ++ chains /\
        Forall2 chainAt chains killed /\
        killed ≡ₚ filter (hitByAny delta E) (rocketsRef s) /\
        score s' = score s + 20 * INR (length chains) /\
        gameState s' =
          phaseAfterKills (length chains) (score s') (gameState s)) /\
    sameGround s s'.
Proof.
  induction E as [|e E IH] using rev_ind; intros T s HE.
  - cbn. split.
    { symmetry. apply filter_all. intros r Hr. inversion Hr. }
    split; [|apply sameGround_refl].
    exists [], []. rewrite app_nil_r. split; [exact HE|].
    split; [constructor|]. split.
    { rewrite filter_none; [done|]. intros r Hr. inversion Hr. }
    split; [cbn; lra|]. cbn [length]. by rewrite phaseAfterKills_0.
  - rewrite length_app. cbn [length]. rewrite Nat.add_1_r, downFrom_S.
    rewrite <- app_assoc in HE. cbn [app] in HE.
    rewrite (explosionBody_spec delta E e T s HE).
    rewrite omap_app. cbn [omap list_omap].
    assert (Hhit : forall r, hitByAny delta (E ++ [e]) r <->
                             hitByAny delta E r \/ hits delta e r).
    { intros r. unfold hitByAny. rewrite Exists_app, Exists_cons, Exists_nil.
      tauto. }
    unfold hits in Hhit.
    destruct (stepExplosion delta e) as [e'|] eqn:Hstep.
    + pose proof (collideLoop_spec rnd e' (rocketsRef s) []
                    (set_explosions (E ++ e' :: T) s)) as Hin.
      rewrite app_nil_r in Hin. specialize (Hin eq_refl). cbn zeta in Hin.
      set (s1 := downFrom _ _ (set_explosions _ s)) in *.
      destruct Hin as (Hr1 & (ch1 & He1 & Hc1 & Hs1 & Hg1) & Hf1).
      rewrite app_nil_r in Hr1. cbn in He1, Hs1, Hg1, Hr1.
      assert (HE1 : explosionsRef s1 = E ++ (e' :: T ++ ch1)).
      { rewrite He1, <- app_assoc. reflexivity. }
      destruct (IH _ s1 HE1) as (Hr2 & (ch2 & k2 & He2 & Hc2 & Hk2 & Hs2 & Hg2) & Hf2).
      cbn zeta. split.
      { rewrite Hr2, Hr1, list_filter_filter. apply list_filter_iff.
        intros r. specialize (Hhit r). tauto. }
      split.
      2:{ eapply sameGround_trans; [|exact Hf2]. exact Hf1. }
      exists (ch1 ++ ch2), (reverse (filter (inside e') (rocketsRef s)) ++ k2).
      split.
      { rewrite He2, <- !app_assoc. cbn [app]. by rewrite <- !app_assoc. }
      split; [by apply Forall2_app|].
      split.
      { rewrite Hk2, Hr1, reverse_Permutation.
        rewrite (filter_or_perm (inside e') (hitByAny delta E)).
        apply eq_perm, list_filter_iff.
        intros r. specialize (Hhit r). tauto. }
      rewrite Hg2, Hg1, Hs2, Hs1, length_app, plus_INR.
      split; [lra|].
      rewrite phaseAfterKills_compose. f_equal.
    + assert (HE1 : explosionsRef (set_explosions (E ++ T) s) = E ++ T)
        by reflexivity.
      destruct (IH _ _ HE1) as (Hr2 & (ch2 & k2 & He2 & Hc2 & Hk2 & Hs2 & Hg2) & Hf2).
      cbn zeta. split.
      { rewrite Hr2. cbn. apply list_filter_iff. intros r. specialize (Hhit r). tauto. }
      split; [|exact Hf2].
      exists ch2, k2. rewrite app_nil_r.
      split; [exact He2|]. split; [exact Hc2|]. split; [|split; assumption].
      rewrite Hk2. cbn. apply eq_perm, list_filter_iff.
      intros r. specialize (Hhit r). tauto.
Qed.

End ExplosionLoop.

(** ** The rocket loop *)

Lemma allTowersDead_alter ts k :
  allTowersDead ts = true ->
  allTowersDead (alter (with_tower_alive false) k ts) = true.
Proof.
  unfold allTowersDead. revert k.
  induction ts as [|t ts IH]; intros k H; [done|].
  cbn in H. apply andb_prop in H as [Ht Hts].
  destruct k as [|k]; cbn.
  - by rewrite Hts.
  - rewrite Ht. cbn. by apply IH.
Qed.

Lemma allTowersDead_killTower x y ts :
  allTowersDead ts = true -> allTowersDead (killTower x y ts) = true.
Proof.
  intros H. unfold killTower. destruct (list_find _ ts) as [[k ?]|]; [|done].
  by apply allTowersDead_alter.
Qed.

Lemma allTowersDead_foldl (l : list Rocket) ts :
  allTowersDead ts = true ->
  allTowersDead
    (foldl (fun ts r => killTower (rocket_targetX r) (rocket_targetY r) ts)
           ts l) = true.
Proof.
  revert ts. induction l as [|r l IH]; intros ts H; [done|].
  cbn. apply IH. by apply allTowersDead_killTower.
Qed.

Section RocketLoop.

Variable rnd : nat -> R.

Lemma rocketBody_spec delta Rs r done s :
  rocketsRef s = Rs ++ r :: done ->
  let r' := advanceRocket delta r in
  let s' := rocketBody rnd delta (length Rs) s in
  score s' = score s /\ interceptorsRef s' = interceptorsRef s /\
  lastTimeRef s' = lastTimeRef s /\ spawnTimerRef s' = spawnTimerRef s /\
  dimensionsRef s' = dimensionsRef s /\
  if decide (impacted r') then
    rocketsRef s' = Rs ++ done /\
    citiesRef s' =
      killCity (rocket_targetX r) (rocket_targetY r) (citiesRef s) /\
    towersRef s' =
      killTower (rocket_targetX r) (rocket_targetY r) (towersRef s) /\
    explosionsRef s' =
      explosionsRef s ++
        [impactExplosion (rnd (randomCalls s)) (rocket_targetX r)
                         (rocket_targetY r)] /\
    gameState s' =
      (if allTowersDead (towersRef s') then LOST else gameState s)
  else
    rocketsRef s' = Rs ++ r' :: done /\ citiesRef s' = citiesRef s /\
    towersRef s' = towersRef s /\ explosionsRef s' = explosionsRef s /\
    gameState s' = gameState s.
Proof.
  intros HR r' s'. subst s'. unfold rocketBody.
  rewrite HR, list_lookup_middle by reflexivity.
  fold (advanceRocket delta r). fold r'.
  unfold impacted. destruct (decide (rocket_progress r' >= 1)) as [Hi|Hi].
  - unfold killCity, killTower, allTowersDead. cbn.
    destruct (list_find _ (citiesRef s)) as [[kc ?]|]; cbn;
      destruct (list_find _ (towersRef s)) as [[kt ?]|]; cbn;
      rewrite insert_middle, delete_middle;
      match goal with
      |- context [forallb ?f ?l] => destruct (forallb f l) eqn:Hd
      end;
      cbn; rewrite ?Hd; repeat split; reflexivity.
  - cbn. rewrite insert_middle. repeat split; reflexivity.
Qed.

Lemma impacting_snoc delta Rs r :
  impacting delta (Rs ++ [r]) =
    (if decide (impacted (advanceRocket delta r))
     then [advanceRocket delta r] else []) ++ impacting delta Rs.
Proof.
  unfold impacting. rewrite fmap_app, filter_app, reverse_app.
  change (advanceRocket delta <$> [r]) with [advanceRocket delta r].
  rewrite filter_cons, filter_nil. by destruct (decide _).
Qed.

Lemma rocketLoop_spec delta Rs :
  forall done s,
    rocketsRef s = Rs ++ done ->
    let s' := downFrom (rocketBody rnd delta) (length Rs) s in
    let hit := impacting delta Rs in
    rocketsRef s' =
      filter (fun r => ~ impacted r) (advanceRocket delta <$> Rs) ++ done /\
    citiesRef s' =
      foldl (fun cs r => killCity (rocket_targetX r) (rocket_targetY r) cs)
            (citiesRef s) hit /\
    towersRef s' =
      foldl (fun ts r => killTower (rocket_targetX r) (rocket_targetY r) ts)
            (towersRef s) hit /\
    (exists impacts,
        explosionsRef s' = explosionsRef s ++ impacts /\
        Forall2 impactAt impacts hit) /\
    gameState s' =
      (if decide ((0 < length hit)%nat /\
                  allTowersDead (towersRef s') = true)
       then LOST else gameState s) /\
    score s' = score s /\ interceptorsRef s' = interceptorsRef s /\
    lastTimeRef s' = lastTimeRef s /\ spawnTimerRef s' = spawnTimerRef s /\
    dimensionsRef s' = dimensionsRef s.
Proof.
  induction Rs as [|r Rs IH] using rev_ind; intros done s HR.
  - cbn. split; [exact HR|]. do 2 (split; [reflexivity|]).
    split; [exists []; rewrite app_nil_r; split; [done|constructor]|].
    split; [|repeat split].
    destruct (decide _) as [[? _]|_]; [lia|done].
  - rewrite length_app. cbn [length]. rewrite Nat.add_1_r, downFrom_S.
    rewrite <- app_assoc in HR. cbn [app] in HR.
    pose proof (rocketBody_spec delta Rs r done s HR) as Hb. cbn zeta in Hb.
    set (s1 := rocketBody rnd delta (length Rs) s) in *.
    destruct Hb as (Hsc & Hi & Hlt & Hsp & Hd & Hb).
    cbn zeta. rewrite impacting_snoc, fmap_app, filter_app. cbn [fmap list_fmap].
    rewrite filter_cons, filter_nil.
    destruct (decide (impacted (advanceRocket delta r))) as [Him|Him].
    + destruct Hb as (Hr1 & Hc1 & Ht1 & He1 & Hg1).
      destruct (IH done s1 Hr1)
        as (Hr2 & Hc2 & Ht2 & (imp & He2 & Hi2) & Hg2 & Hrest).
      rewrite decide_False by tauto. rewrite app_nil_r.
      split; [exact Hr2|]. cbn [app foldl].
      split; [by rewrite Hc2, Hc1|]. split; [by rewrite Ht2, Ht1|].
      split.
      { eexists (_ :: imp). rewrite He2, He1, <- app_assoc. split; [done|].
        constructor; [eexists; reflexivity|exact Hi2]. }
      split.
      2:{ destruct Hrest as (?&?&?&?&?). repeat split; congruence. }
      rewrite Hg2, Hg1. cbn [length].
      destruct (allTowersDead (towersRef s1)) eqn:Hd1.
      * assert (allTowersDead
                  (towersRef (downFrom (rocketBody rnd delta) (length Rs) s1))
                = true) as ->.
        { rewrite Ht2. by apply allTowersDead_foldl. }
        rewrite (decide_True (P := (0 < S _)%nat /\ _)) by (split; [lia|done]).
        match goal with |- match ?d with _ => _ end = _ => by destruct d end.
      * destruct (impacting delta Rs) as [|r2 hit] eqn:Hhit.
        { cbn in Ht2. rewrite Ht2, Hd1. clear.
          repeat case_decide; try reflexivity; exfalso; intuition done. }
        cbn [length]. clear.
        destruct (allTowersDead _); repeat case_decide;
          try reflexivity; exfalso; intuition (try lia; try done).
    + destruct Hb as (Hr1 & Hc1 & Ht1 & He1 & Hg1).
      assert (Hr1' : rocketsRef s1 = Rs ++ (advanceRocket delta r :: done))
        by exact Hr1.
      destruct (IH _ s1 Hr1')
        as (Hr2 & Hc2 & Ht2 & (imp & He2 & Hi2) & Hg2 & Hrest).
      rewrite decide_True by tauto. cbn [app].
      split; [by rewrite Hr2, <- app_assoc|].
      split; [by rewrite Hc2, Hc1|]. split; [by rewrite Ht2, Ht1|].
      split; [exists imp; by rewrite He2, He1|].
      split; [by rewrite Hg2, Hg1|].
      destruct Hrest as (?&?&?&?&?). repeat split; congruence.
Qed.

End RocketLoop.

(** ** The interceptor loop *)

Section InterceptorLoop.

Variable rnd : nat -> R.

Lemma interceptorBody_spec delta Is i done s :
  interceptorsRef s = Is ++ i :: done ->
  let i' := advanceInterceptor delta i in
  let s' := interceptorBody rnd delta (length Is) s in
  gameState s' = gameState s /\ score s' = score s /\
  rocketsRef s' = rocketsRef s /\ citiesRef s' = citiesRef s /\
  towersRef s' = towersRef s /\
  lastTimeRef s' = lastTimeRef s /\ spawnTimerRef s' = spawnTimerRef s /\
  dimensionsRef s' = dimensionsRef s /\
  if decide (arrived i') then
    interceptorsRef s' = Is ++ done /\
    explosionsRef s' =
      explosionsRef s ++
        [interceptorExplosion (rnd (randomCalls s)) (inter_targetX i)
                              (inter_targetY i)]
  else
    interceptorsRef s' = Is ++ i' :: done /\
    explosionsRef s' = explosionsRef s.
Proof.
  intros HI i' s'. subst s'. unfold interceptorBody.
  rewrite HI, list_lookup_middle by reflexivity.
  fold (advanceInterceptor delta i). fold i'.
  unfold arrived. destruct (decide (inter_progress i' >= 1)) as [Hi|Hi]; cbn.
  - rewrite insert_middle, delete_middle. repeat split; reflexivity.
  - rewrite insert_middle. repeat split; reflexivity.
Qed.

Lemma interceptorLoop_spec delta Is :
  forall done s,
    interceptorsRef s = Is ++ done ->
    let s' := downFrom (interceptorBody rnd delta) (length Is) s in
    interceptorsRef s' =
      filter (fun i => ~ arrived i) (advanceInterceptor delta <$> Is)
      ++ done /\
    (exists bursts,
        explosionsRef s' = explosionsRef s ++ bursts /\
        Forall2 burstAt bursts
          (reverse (filter arrived (advanceInterceptor delta <$> Is)))) /\
    gameState s' = gameState s /\ score s' = score s /\
    rocketsRef s' = rocketsRef s /\ citiesRef s' = citiesRef s /\
    towersRef s' = towersRef s /\
    lastTimeRef s' = lastTimeRef s /\ spawnTimerRef s' = spawnTimerRef s /\
    dimensionsRef s' = dimensionsRef s.
Proof.
  induction Is as [|i Is IH] using rev_ind; intros done s HI.
  - cbn. split; [exact HI|].
    split; [exists []; rewrite app_nil_r; split; [done|constructor]|].
    repeat split.
  - rewrite length_app. cbn [length]. rewrite Nat.add_1_r, downFrom_S.
    rewrite <- app_assoc in HI. cbn [app] in HI.
    pose proof (interceptorBody_spec delta Is i done s HI) as Hb.
    cbn zeta in Hb.
    set (s1 := interceptorBody rnd delta (length Is) s) in *.
    destruct Hb as (Hg & Hsc & Hr & Hc & Ht & Hlt & Hsp & Hd & Hb).
    cbn zeta. rewrite fmap_app, !filter_app, reverse_app.
    change (advanceInterceptor delta <$> [i])
      with [advanceInterceptor delta i].
    rewrite !filter_cons, !filter_nil.
    destruct (decide (arrived (advanceInterceptor delta i))) as [Ha|Ha].
    + destruct Hb as (Hi1 & He1).
      destruct (IH done s1 Hi1) as (Hi2 & (bs & He2 & Hb2) & Hrest).
      rewrite decide_False by tauto. rewrite app_nil_r.
      split; [exact Hi2|].
      split.
      { eexists (_ :: bs). rewrite He2, He1, <- app_assoc. split; [done|].
        cbn. constructor; [eexists; reflexivity|exact Hb2]. }
      destruct Hrest as (?&?&?&?&?&?&?&?). repeat split; congruence.
    + destruct Hb as (Hi1 & He1).
      assert (Hi1' : interceptorsRef s1
                     = Is ++ (advanceInterceptor delta i :: done))
        by exact Hi1.
      destruct (IH _ s1 Hi1') as (Hi2 & (bs & He2 & Hb2) & Hrest).
      rewrite decide_True by tauto. cbn [app reverse].
      split; [by rewrite Hi2, <- app_assoc|].
      split; [exists bs; by rewrite He2, He1|].
      destruct Hrest as (?&?&?&?&?&?&?&?). repeat split; congruence.
Qed.

End InterceptorLoop.

(** ** Spawning *)

(** For a draw in [0, 1) the index [Math.floor(r * n)] is one of the [n]
    targets. *)
Lemma floor_index_in_range r n :
  0 <= r < 1 -> (0 < n)%nat ->
  (Z.to_nat (Math_floor (r * INR n)) < n)%nat.
Proof.
  intros [Hr0 Hr1] Hn. unfold Math_floor.
  destruct (base_Int_part (r * INR n)) as [Hle Hgt].
  assert (Hpos : 0 < INR n) by (apply lt_0_INR; lia).
  assert (Hx0 : 0 <= r * INR n) by nra.
  assert (Hx1 : r * INR n < INR n) by nra.
  assert (Hz0 : (-1 < Int_part (r * INR n))%Z) by (apply lt_IZR; lra).
  assert (Hz1 : (Int_part (r * INR n) < Z.of_nat n)%Z).
  { apply lt_IZR. rewrite <- INR_IZR_INZ. lra. }
  lia.
Qed.

Section Spawn.

Variable rnd : nat -> R.

Lemma spawnRockets_spec delta s :
  let s' := spawnRockets rnd delta s in
  gameState s' = gameState s /\ score s' = score s /\
  interceptorsRef s' = interceptorsRef s /\
  explosionsRef s' = explosionsRef s /\
  citiesRef s' = citiesRef s /\ towersRef s' = towersRef s /\
  lastTimeRef s' = lastTimeRef s /\ dimensionsRef s' = dimensionsRef s /\
  exists new,
    rocketsRef s' = rocketsRef s ++ new /\ (length new <= 1)%nat /\
    Forall (freshRocket rnd (loopScore s)) new.
Proof.
  cbn zeta. unfold spawnRockets. cbn.
  destruct (decide (spawnTimerRef s + delta > _)) as [Hs|Hs]; cbn.
  2:{ do 8 (split; [reflexivity|]). exists []. rewrite app_nil_r.
      split; [reflexivity|]. split; [cbn; lia|constructor]. }
  destruct (decide _) as [Hl|Hl]; cbn.
  2:{ do 8 (split; [reflexivity|]). exists []. rewrite app_nil_r.
      split; [reflexivity|]. split; [cbn; lia|constructor]. }
  destruct (_ !! _) as [target|]; cbn.
  2:{ do 8 (split; [reflexivity|]). exists []. rewrite app_nil_r.
      split; [reflexivity|]. split; [cbn; lia|constructor]. }
  do 8 (split; [reflexivity|]).
  eexists [_]. split; [reflexivity|]. split; [cbn; lia|].
  constructor; [|constructor]. split; [reflexivity|]. cbn. eexists. reflexivity.
Qed.

End Spawn.

(** ** The score the loop holds

    No step writes [loopScore]: it changes with [runLoopEffect] only. *)

Lemma downFrom_loopScore body n :
  (forall i s, loopScore (body i s) = loopScore s) ->
  forall st, loopScore (downFrom body n st) = loopScore st.
Proof.
  intros Hbody. induction n as [|n IH]; intros st; [done|].
  cbn. by rewrite IH, Hbody.
Qed.

Lemma spawnRockets_loopScore rnd delta s :
  loopScore (spawnRockets rnd delta s) = loopScore s.
Proof.
  unfold spawnRockets. cbn.
  repeat (destruct (decide _); cbn; try reflexivity).
  by destruct (_ !! _).
Qed.

Lemma rocketBody_loopScore rnd delta i s :
  loopScore (rocketBody rnd delta i s) = loopScore s.
Proof.
  unfold rocketBody. destruct (rocketsRef s !! i); [|done]. cbn.
  destruct (decide _); [|done].
  destruct (list_find _ (citiesRef _)) as [[? ?]|]; cbn;
    destruct (list_find _ (towersRef _)) as [[? ?]|]; cbn;
    by destruct (forallb _ _).
Qed.

Lemma interceptorBody_loopScore rnd delta i s :
  loopScore (interceptorBody rnd delta i s) = loopScore s.
Proof.
  unfold interceptorBody. destruct (interceptorsRef s !! i); [|done]. cbn.
  by destruct (decide _).
Qed.

Lemma collideBody_loopScore rnd e j s :
  loopScore (collideBody rnd e j s) = loopScore s.
Proof.
  unfold collideBody. destruct (rocketsRef s !! j); [|done]. cbn.
  destruct (decide _); [|done]. by destruct (decide _).
Qed.

Lemma explosionBody_loopScore rnd delta i s :
  loopScore (explosionBody rnd delta i s) = loopScore s.
Proof.
  unfold explosionBody. destruct (explosionsRef s !! i); [|done].
  destruct (exp_expanding _).
  - rewrite downFrom_loopScore by apply collideBody_loopScore. done.
  - cbn zeta. destruct (decide _); [done|].
    rewrite downFrom_loopScore by apply collideBody_loopScore. done.
Qed.

Lemma update_loopScore rnd dt st :
  loopScore (update rnd dt st) = loopScore st.
Proof.
  unfold update. destruct (gameState st); try done. cbn zeta.
  unfold updateExplosions, updateInterceptors, updateRockets.
  rewrite downFrom_loopScore by apply explosionBody_loopScore.
  rewrite downFrom_loopScore by apply interceptorBody_loopScore.
  rewrite downFrom_loopScore by apply rocketBody_loopScore.
  apply spawnRockets_loopScore.
Qed.

Lemma runLoopEffect_fields before st :
  let st' := runLoopEffect before st in
  gameState st' = gameState st /\ score st' = score st /\
  rocketsRef st' = rocketsRef st /\ interceptorsRef st' = interceptorsRef st /\
  explosionsRef st' = explosionsRef st /\ citiesRef st' = citiesRef st /\
  towersRef st' = towersRef st /\ lastTimeRef st' = lastTimeRef st /\
  spawnTimerRef st' = spawnTimerRef st /\
  dimensionsRef st' = dimensionsRef st /\ randomCalls st' = randomCalls st.
Proof.
  cbn zeta. unfold runLoopEffect. by destruct (decide _).
Qed.

Lemma runLoopEffect_cases before st :
  runLoopEffect before st = st \/
  (gameState st <> before /\
   runLoopEffect before st = set_loopScore (score st) st).
Proof.
  unfold runLoopEffect. destruct (decide _); [by left|by right].
Qed.

(** ** The whole step *)

Lemma filter_fmap {A B} (f : A -> B) (P : B -> Prop)
    `{!forall y, Decision (P y)} (l : list A) :
  filter P (f <$> l) = f <$> filter (fun x => P (f x)) l.
Proof.
  induction l as [|a l IH]; [done|].
  cbn [fmap list_fmap]. rewrite !filter_cons.
  destruct (decide (P (f a))); cbn [fmap list_fmap]; by rewrite IH.
Qed.

Lemma delta_nonneg dt : 0 <= dt -> 0 <= Rmin dt 100.
Proof. intros H. apply Rmin_glb; lra. Qed.

Lemma travel_nonneg speed delta :
  0 <= speed -> 0 <= delta -> 0 <= speed * (delta / 16.67).
Proof.
  intros Hs Hd. apply Rmult_le_pos; [exact Hs|].
  apply Rmult_le_pos; [exact Hd|]. left. apply Rinv_0_lt_compat. lra.
Qed.

Lemma with_progress_same r : with_progress (rocket_progress r) r = r.
Proof. by destruct r. Qed.

Lemma with_inter_progress_same i :
  with_inter_progress (inter_progress i) i = i.
Proof. by destruct i. Qed.

Section Step.

Variable rnd : nat -> R.

Lemma update_not_playing dt st :
  gameState st <> PLAYING -> update rnd dt st = st.
Proof. unfold update. by destruct (gameState st). Qed.

Lemma update_playing dt st :
  gameState st = PLAYING ->
  update rnd dt st =
    updateExplosions rnd (Rmin dt 100)
      (updateInterceptors rnd (Rmin dt 100)
         (updateRockets rnd (Rmin dt 100)
            (spawnRockets rnd (Rmin dt 100) st))).
Proof. unfold update. by intros ->. Qed.

Lemma updateRockets_spec delta s :
  let s' := updateRockets rnd delta s in
  let hit := impacting delta (rocketsRef s) in
  rocketsRef s' =
    filter (fun r => ~ impacted r) (advanceRocket delta <$> rocketsRef s) /\
  citiesRef s' =
    foldl (fun cs r => killCity (rocket_targetX r) (rocket_targetY r) cs)
          (citiesRef s) hit /\
  towersRef s' =
    foldl (fun ts r => killTower (rocket_targetX r) (rocket_targetY r) ts)
          (towersRef s) hit /\
  (exists impacts,
      explosionsRef s' = explosionsRef s ++ impacts /\
      Forall2 impactAt impacts hit) /\
  gameState s' =
    (if decide ((0 < length hit)%nat /\ allTowersDead (towersRef s') = true)
     then LOST else gameState s) /\
  score s' = score s /\ interceptorsRef s' = interceptorsRef s /\
  lastTimeRef s' = lastTimeRef s /\ spawnTimerRef s' = spawnTimerRef s /\
  dimensionsRef s' = dimensionsRef s.
Proof.
  pose proof (rocketLoop_spec rnd delta (rocketsRef s) [] s) as H.
  rewrite app_nil_r in H. specialize (H eq_refl). cbn zeta in *.
  rewrite app_nil_r in H. exact H.
Qed.

Lemma updateInterceptors_spec delta s :
  let s' := updateInterceptors rnd delta s in
  interceptorsRef s' =
    filter (fun i => ~ arrived i)
           (advanceInterceptor delta <$> interceptorsRef s) /\
  (exists bursts,
      explosionsRef s' = explosionsRef s ++ bursts /\
      Forall2 burstAt bursts
        (reverse (filter arrived
                         (advanceInterceptor delta <$> interceptorsRef s)))) /\
  gameState s' = gameState s /\ score s' = score s /\
  rocketsRef s' = rocketsRef s /\ citiesRef s' = citiesRef s /\
  towersRef s' = towersRef s /\
  lastTimeRef s' = lastTimeRef s /\ spawnTimerRef s' = spawnTimerRef s /\
  dimensionsRef s' = dimensionsRef s.
Proof.
  pose proof (interceptorLoop_spec rnd delta (interceptorsRef s) [] s) as H.
  rewrite app_nil_r in H. specialize (H eq_refl). cbn zeta in *.
  rewrite app_nil_r in H. exact H.
Qed.

Lemma updateExplosions_spec delta s :
  let s' := updateExplosions rnd delta s in
  let E := explosionsRef s in
  rocketsRef s' = filter (fun r => ~ hitByAny delta E r) (rocketsRef s) /\
  (exists chains killed,
      explosionsRef s' = omap (stepExplosion delta) E ++ chains /\
      Forall2 chainAt chains killed /\
      killed ≡ₚ filter (hitByAny delta E) (rocketsRef s) /\
      score s' = score s + 20 * INR (length chains) /\
      gameState s' =
        phaseAfterKills (length chains) (score s') (gameState s)) /\
  sameGround s s'.
Proof.
  pose proof (explosionLoop_spec rnd delta (explosionsRef s) [] s) as H.
  rewrite app_nil_r in H. specialize (H eq_refl). cbn zeta in *.
  exact H.
Qed.

End Step.

(** ** Score and progress never go back *)

Lemma rocketMoved_advance delta r :
  0 <= rocket_speed r -> 0 <= delta -> rocketMoved r (advanceRocket delta r).
Proof.
  intros Hs Hd. eexists. split; [reflexivity|].
  pose proof (travel_nonneg _ _ Hs Hd). lra.
Qed.

Lemma interceptorMoved_advance delta i :
  0 <= inter_speed i -> 0 <= delta ->
  interceptorMoved i (advanceInterceptor delta i).
Proof.
  intros Hs Hd. eexists. split; [reflexivity|].
  pose proof (travel_nonneg _ _ Hs Hd). lra.
Qed.

Lemma freshRocket_speed rnd sc r :
  inUnit rnd -> 0 <= sc -> freshRocket rnd sc r -> 0 <= rocket_speed r.
Proof.
  intros Hrnd Hsc (_ & k & ->). destruct (Hrnd k). lra.
Qed.

(** C7. For every [dt >= 0], one simulation step does not decrease the
    score, and every rocket and interceptor that is still there after the
    step is a rocket (interceptor) of before the step, or one spawned in the
    step, with a progress that is not smaller.  The state is one the game
    reaches: scores and speeds are not negative ([wf]), and [Math.random()]
    answers in [0, 1). *)
Theorem update_never_goes_back rnd dt st :
  inUnit rnd -> 0 <= dt -> wf st ->
  score st <= score (update rnd dt st) /\
  (exists new kept,
      Forall (freshRocket rnd (loopScore st)) new /\
      kept `sublist_of` (rocketsRef st ++ new) /\
      Forall2 rocketMoved kept (rocketsRef (update rnd dt st))) /\
  (exists kept,
      kept `sublist_of` interceptorsRef st /\
      Forall2 interceptorMoved kept (interceptorsRef (update rnd dt st))).
Proof.
  intros Hrnd Hdt ([Hsc Hls] & Hrs & His).
  destruct (decide (gameState st = PLAYING)) as [Hp|Hp].
  2:{ rewrite (update_not_playing rnd dt st Hp). split; [lra|]. split.
      - exists [], (rocketsRef st). rewrite app_nil_r.
        split; [constructor|]. split; [done|].
        apply Forall_Forall2_diag, Forall_forall. intros r _.
        exists (rocket_progress r). by rewrite with_progress_same.
      - exists (interceptorsRef st). split; [done|].
        apply Forall_Forall2_diag, Forall_forall. intros i _.
        exists (inter_progress i). by rewrite with_inter_progress_same. }
  rewrite (update_playing rnd dt st Hp).
  pose proof (delta_nonneg dt Hdt) as Hd.
  set (delta := Rmin dt 100) in *.
  destruct (spawnRockets_spec rnd delta st)
    as (_ & Hs1 & Hi1 & _ & _ & _ & _ & _ & new & Hr1 & _ & Hnew).
  set (s1 := spawnRockets rnd delta st) in *.
  destruct (updateRockets_spec rnd delta s1)
    as (Hr2 & _ & _ & _ & _ & Hs2 & Hi2 & _).
  set (s2 := updateRockets rnd delta s1) in *.
  destruct (updateInterceptors_spec rnd delta s2)
    as (Hi3 & _ & _ & Hs3 & Hr3 & _).
  set (s3 := updateInterceptors rnd delta s2) in *.
  destruct (updateExplosions_spec rnd delta s3)
    as (Hr4 & (chains & killed & _ & _ & _ & Hs4 & _) & Hg4).
  set (s4 := updateExplosions rnd delta s3) in *.
  destruct Hg4 as (_ & _ & Hi4 & _).
  split.
  { rewrite Hs4, Hs3, Hs2, Hs1. pose proof (pos_INR (length chains)). lra. }
  split.
  - exists new. rewrite Hr4, Hr3, Hr2, Hr1, !filter_fmap.
    exists (filter (fun x => ~ hitByAny delta (explosionsRef s3)
                                (advanceRocket delta x))
              (filter (fun x => ~ impacted (advanceRocket delta x))
                      (rocketsRef st ++ new))).
    split; [exact Hnew|]. split.
    { transitivity (filter (fun x => ~ impacted (advanceRocket delta x))
                           (rocketsRef st ++ new)); apply sublist_filter. }
    apply Forall2_fmap_r, Forall_Forall2_diag, Forall_forall.
    intros r Hr. apply rocketMoved_advance; [|exact Hd].
    apply list_elem_of_filter in Hr as [_ Hr].
    apply list_elem_of_filter in Hr as [_ Hr].
    apply elem_of_app in Hr as [Hr|Hr].
    + eapply (proj1 (Forall_forall _ _) Hrs), Hr.
    + eapply freshRocket_speed; [exact Hrnd|exact Hls|].
      eapply (proj1 (Forall_forall _ _) Hnew), Hr.
  - rewrite Hi4, Hi3, Hi2, Hi1, filter_fmap.
    exists (filter (fun x => ~ arrived (advanceInterceptor delta x))
                   (interceptorsRef st)).
    split; [apply sublist_filter|].
    apply Forall2_fmap_r, Forall_Forall2_diag, Forall_forall.
    intros i Hi. apply interceptorMoved_advance; [|exact Hd].
    apply list_elem_of_filter in Hi as [_ Hi].
    eapply (proj1 (Forall_forall _ _) His), Hi.
Qed.

(** ** Evaluating the step on given numbers *)

Ltac rminmax :=
  repeat first
    [ rewrite Rmin_left by lra | rewrite Rmin_right by lra
    | rewrite Rmax_left by lra | rewrite Rmax_right by lra ].

Ltac rdecide :=
  repeat match goal with
    | |- context [decide ?P] =>
        first [ rewrite (decide_True (P := P)) by (cbn; first [lra | lia])
              | rewrite (decide_False (P := P)) by (cbn; first [lra | lia]) ]
    end.

Lemma rnd0_inUnit : inUnit rnd0.
Proof. intros n. unfold rnd0. lra. Qed.

Lemma rndHalf_inUnit : inUnit rndHalf.
Proof. intros n. unfold rndHalf. lra. Qed.

(** ** Winning *)

Lemma distance_lt_sq p1 p2 r :
  0 < r ->
  (px p1 - px p2) ^ 2 + (py p1 - py p2) ^ 2 < r ^ 2 ->
  distance p1 p2 < r.
Proof.
  intros Hr Hsq. unfold distance.
  assert (H : sqrt (r ^ 2) = r) by (apply sqrt_pow2; lra).
  rewrite <- H. apply sqrt_lt_1_alt. split; [|exact Hsq].
  apply Rplus_le_le_0_compat; apply pow2_ge_0.
Qed.

Section Quiet.

Variable rnd : nat -> R.

(** A step in which the spawn timer does not run out. *)
Lemma spawnRockets_quiet delta s :
  spawnTimerRef s + delta <= Rmax 266 (1000 - (loopScore s / 100) * 66) ->
  spawnRockets rnd delta s = set_spawnTimer (spawnTimerRef s + delta) s.
Proof.
  intros H. unfold spawnRockets. cbn.
  rewrite decide_False by lra. reflexivity.
Qed.

(** A rocket loop in which no rocket reaches its target. *)
Lemma updateRockets_no_impact delta s :
  Forall (fun r => ~ impacted (advanceRocket delta r)) (rocketsRef s) ->
  let s' := updateRockets rnd delta s in
  rocketsRef s' = advanceRocket delta <$> rocketsRef s /\
  explosionsRef s' = explosionsRef s /\ gameState s' = gameState s /\
  score s' = score s /\ interceptorsRef s' = interceptorsRef s /\
  citiesRef s' = citiesRef s /\ towersRef s' = towersRef s.
Proof.
  intros Hno.
  destruct (updateRockets_spec rnd delta s)
    as (Hr & Hc & Ht & (imp & He & Hi) & Hg & Hs & Hin & _).
  assert (Hnone : impacting delta (rocketsRef s) = []).
  { unfold impacting. rewrite filter_fmap.
    by rewrite (filter_Forall_none _ _ Hno). }
  rewrite Hnone in *. cbn zeta. apply Forall2_nil_inv_r in Hi. subst imp.
  rewrite app_nil_r in He. cbn in Hc, Ht, Hg.
  rewrite decide_False in Hg by (intros [? _]; lia).
  split; [|by repeat split].
  rewrite Hr, filter_fmap. f_equal. by apply filter_Forall_all.
Qed.

Lemma updateInterceptors_none delta s :
  interceptorsRef s = [] -> updateInterceptors rnd delta s = s.
Proof. intros H. unfold updateInterceptors. by rewrite H. Qed.

Lemma updateRockets_none delta s :
  rocketsRef s = [] -> updateRockets rnd delta s = s.
Proof. intros H. unfold updateRockets. by rewrite H. Qed.

(** An explosion loop with no rocket in flight. *)
Lemma updateExplosions_no_rockets delta s :
  rocketsRef s = [] ->
  explosionsRef (updateExplosions rnd delta s)
  = omap (stepExplosion delta) (explosionsRef s).
Proof.
  intros H.
  destruct (updateExplosions_spec rnd delta s)
    as (_ & (chains & killed & He & Hc & Hk & _) & _).
  rewrite H in Hk. cbn in Hk. apply Permutation_nil_r in Hk. subst killed.
  apply Forall2_nil_inv_r in Hc. subst chains.
  by rewrite He, app_nil_r.
Qed.

End Quiet.

Lemma update_stTriple :
  let st' := update rnd0 16.67 stTriple in
  score st' = 1040 /\ gameState st' = WON /\ rocketsRef st' = [] /\
  length (explosionsRef st') = 4%nat.
Proof.
  cbn zeta. rewrite update_playing by reflexivity. rminmax.
  rewrite spawnRockets_quiet by (cbn; rminmax; lra).
  set (s1 := set_spawnTimer _ stTriple).
  destruct (updateRockets_no_impact rnd0 16.67 s1)
    as (Hr2 & He2 & Hg2 & Hs2 & Hi2 & _).
  { cbn. repeat constructor; unfold impacted; cbn; lra. }
  set (s2 := updateRockets rnd0 16.67 s1) in *.
  rewrite (updateInterceptors_none rnd0 16.67 s2) by exact Hi2.
  destruct (updateExplosions_spec rnd0 16.67 s2)
    as (Hr3 & (chains & killed & He3 & Hc3 & Hk3 & Hs3 & Hg3) & _).
  set (s3 := updateExplosions rnd0 16.67 s2) in *.
  rewrite He2, Hr2, Hs2, Hg2 in *.
  change (explosionsRef s1) with (explosionsRef stTriple) in *.
  change (rocketsRef s1) with (rocketsRef stTriple) in *.
  change (score s1) with 980 in *. change (gameState s1) with PLAYING in *.
  assert (Hall : Forall (hitByAny 16.67 (explosionsRef stTriple))
                        (advanceRocket 16.67 <$> rocketsRef stTriple)).
  { apply Forall_forall. intros r Hr.
    apply Exists_cons. left. unfold hits, stepExplosion. cbn.
    rewrite decide_False by lra.
    cbn in Hr. unfold inside. apply distance_lt_sq; [cbn; lra|].
    repeat (apply elem_of_cons in Hr as [->|Hr]; [cbn; lra|]).
    inversion Hr. }
  rewrite (filter_Forall_all _ _ Hall) in Hk3.
  rewrite filter_Forall_none in Hr3
    by (eapply Forall_impl; [exact Hall|tauto]).
  assert (Hlen : length chains = 3%nat).
  { rewrite (Forall2_length _ _ _ Hc3), Hk3. reflexivity. }
  rewrite Hlen in *. cbn in Hs3.
  assert (Hsc : score s3 = 1040) by lra.
  split; [exact Hsc|]. split.
  { rewrite Hg3, Hsc. unfold phaseAfterKills, TARGET_SCORE.
    apply decide_True. split; [lia|lra]. }
  split; [exact Hr3|].
  rewrite He3, length_app, Hlen. unfold stepExplosion. cbn.
  rewrite decide_False by lra. reflexivity.
Qed.

(** C2, as stated, fails: from a score of 980 a single step credits three
    kills and ends with 1040, two kills beyond the target. *)
Lemma score_overshoots_by_two_kills :
  gameState stTriple = PLAYING /\ score stTriple < TARGET_SCORE /\
  score (update rnd0 16.67 stTriple) > TARGET_SCORE + 20.
Proof.
  destruct update_stTriple as (Hs & _). rewrite Hs.
  unfold TARGET_SCORE. cbn. repeat split; lra.
Qed.

(** C2, amended.  In a step of the PLAYING phase the score grows by 20 for
    each kill of the step, whatever their number (the rockets the explosion
    loop finds inside an explosion); if there is a kill and the score at the
    end has reached the target, the phase at the end of the step is WON. *)
Theorem score_steps_of_20_and_win rnd dt st :
  gameState st = PLAYING ->
  let delta := Rmin dt 100 in
  let s3 := updateInterceptors rnd delta
              (updateRockets rnd delta (spawnRockets rnd delta st)) in
  let kills :=
    length (filter (hitByAny delta (explosionsRef s3)) (rocketsRef s3)) in
  score (update rnd dt st) = score st + 20 * INR kills /\
  ((0 < kills)%nat -> score (update rnd dt st) >= TARGET_SCORE ->
   gameState (update rnd dt st) = WON).
Proof.
  intros Hp. cbn zeta. rewrite (update_playing rnd dt st Hp).
  set (delta := Rmin dt 100).
  destruct (spawnRockets_spec rnd delta st) as (_ & Hs1 & _).
  set (s1 := spawnRockets rnd delta st) in *.
  destruct (updateRockets_spec rnd delta s1) as (_ & _ & _ & _ & _ & Hs2 & _).
  set (s2 := updateRockets rnd delta s1) in *.
  destruct (updateInterceptors_spec rnd delta s2) as (_ & _ & _ & Hs3 & _).
  set (s3 := updateInterceptors rnd delta s2) in *.
  destruct (updateExplosions_spec rnd delta s3)
    as (_ & (chains & killed & _ & Hc & Hk & Hs4 & Hg4) & _).
  rewrite <- Hk, <- (Forall2_length _ _ _ Hc).
  split; [rewrite Hs4; lra|].
  intros Hkills Hsc. rewrite Hg4. unfold phaseAfterKills.
  by rewrite decide_True.
Qed.

Lemma score_steps_of_20_and_win_witness :
  gameState stTriple = PLAYING /\
  exists kills : nat,
    score (update rnd0 16.67 stTriple) = score stTriple + 20 * INR kills.
Proof.
  split; [reflexivity|]. eexists.
  exact (proj1 (score_steps_of_20_and_win rnd0 16.67 stTriple eq_refl)).
Defined.

(** ** The hazard phase *)

Lemma chainAt_fields c r :
  chainAt c r ->
  exp_x c = px (rocketPos r) /\ exp_y c = py (rocketPos r) /\
  exp_radius c = 0 /\ exp_maxRadius c = 40 /\ exp_expanding c = true.
Proof. intros (rho & ->). by repeat split. Qed.

Lemma hazard_stTriple rnd :
  rocketsRef (updateExplosions rnd 16.67 stTriple) = [].
Proof.
  destruct (updateExplosions_spec rnd 16.67 stTriple) as (Hr & _).
  rewrite Hr. apply filter_Forall_none, Forall_forall. intros r Hr' Hn.
  apply Hn. apply Exists_cons. left. unfold hits, stepExplosion. cbn.
  rewrite decide_False by lra.
  unfold inside. apply distance_lt_sq; [cbn; lra|].
  cbn in Hr'. repeat (apply elem_of_cons in Hr' as [->|Hr']; [cbn; lra|]).
  inversion Hr'.
Qed.

Lemma hitByAny_explicit delta E r :
  hitByAny delta E r <->
  exists e e',
    e ∈ E /\ stepExplosion delta e = Some e' /\
    sqrt ((rocket_x r + (rocket_targetX r - rocket_x r) * rocket_progress r
           - exp_x e') ^ 2
          + (rocket_y r + (rocket_targetY r - rocket_y r) * rocket_progress r
             - exp_y e') ^ 2)
    < exp_radius e'.
Proof.
  unfold hitByAny. rewrite Exists_exists. split.
  - intros (e & He & Hhit). unfold hits in Hhit.
    destruct (stepExplosion delta e) as [e'|] eqn:Hstep; [|done].
    exists e, e'. split; [exact He|]. split; [exact Hstep|exact Hhit].
  - intros (e & e' & He & Hstep & Hin). exists e. split; [exact He|].
    unfold hits. rewrite Hstep. exact Hin.
Qed.

Lemma hazard_stKill rnd :
  rocketsRef (updateExplosions rnd 16.67 stKill) = [] /\
  score (updateExplosions rnd 16.67 stKill) = 120 /\
  exists rho,
    explosionsRef (updateExplosions rnd 16.67 stKill)
    = [mkExplosion (id_exp 0.4) 0 0 (50 - 0.8 * (16.67 / 16.67)) 50 false 1;
       mkExplosion (id_chain rho) 10 10 0 40 true 1].
Proof.
  destruct (updateExplosions_spec rnd 16.67 stKill)
    as (Hr & (chains & killed & He & Hc & Hk & Hs & _) & _).
  assert (Hall : Forall (hitByAny 16.67 (explosionsRef stKill))
                        (rocketsRef stKill)).
  { repeat constructor. unfold hits, stepExplosion. cbn.
    rewrite decide_False by lra.
    unfold inside. apply distance_lt_sq; cbn; lra. }
  rewrite (filter_Forall_all _ _ Hall) in Hk.
  rewrite filter_Forall_none in Hr
    by (eapply Forall_impl; [exact Hall|tauto]).
  apply Permutation_sym, Permutation_singleton_l in Hk. subst killed.
  apply Forall2_cons_inv_r in Hc as (c & chains' & (rho & ->) & Hnil & ->).
  apply Forall2_nil_inv_r in Hnil. subst chains'.
  split; [exact Hr|]. split; [rewrite Hs; cbn; lra|].
  exists rho. rewrite He. unfold stepExplosion. cbn.
  rewrite decide_False by lra. cbn. unfold chainExplosion.
  do 2 f_equal. f_equal; lra.
Qed.

(** C3. In the explosion loop of a step, the rockets removed are exactly
    those whose interpolated position,
    [(x + (targetX - x) * progress, y + (targetY - y) * progress)], is
    strictly inside the radius of an explosion that the loop has advanced
    and kept; each of them is credited once, with 20 points, and leaves one
    chain explosion at that position, with radius 0, maxRadius 40 and
    expanding.  One explosion can take several rockets, as the one of
    [stTriple] does; and the explosion of radius 50 at (0, 0) of [stKill]
    takes the rocket at (10, 10), for 20 points, and leaves one chain
    explosion at (10, 10). *)
Theorem hazard_phase rnd delta st :
  let st' := updateExplosions rnd delta st in
  let E := explosionsRef st in
  let rx (r : Rocket) :=
    rocket_x r + (rocket_targetX r - rocket_x r) * rocket_progress r in
  let ry (r : Rocket) :=
    rocket_y r + (rocket_targetY r - rocket_y r) * rocket_progress r in
  (forall r,
      hitByAny delta E r <->
      exists e e',
        e ∈ E /\ stepExplosion delta e = Some e' /\
        sqrt ((rx r - exp_x e') ^ 2 + (ry r - exp_y e') ^ 2)
        < exp_radius e') /\
  rocketsRef st' = filter (fun r => ~ hitByAny delta E r) (rocketsRef st) /\
  (exists chains killed,
      killed ≡ₚ filter (hitByAny delta E) (rocketsRef st) /\
      score st' = score st + 20 * INR (length killed) /\
      explosionsRef st' = omap (stepExplosion delta) E ++ chains /\
      Forall2 (fun c r =>
                 exp_x c = rx r /\ exp_y c = ry r /\
                 exp_radius c = 0 /\ exp_maxRadius c = 40 /\
                 exp_expanding c = true) chains killed) /\
  (length (explosionsRef stTriple) = 1%nat /\
   length (rocketsRef stTriple) = 3%nat /\
   rocketsRef (updateExplosions rnd 16.67 stTriple) = []) /\
  (rocketsRef (updateExplosions rnd 16.67 stKill) = [] /\
   score (updateExplosions rnd 16.67 stKill) = score stKill + 20 /\
   exists rho,
     explosionsRef (updateExplosions rnd 16.67 stKill)
     = [mkExplosion (id_exp 0.4) 0 0 (50 - 0.8 * (16.67 / 16.67)) 50 false 1;
        mkExplosion (id_chain rho) 10 10 0 40 true 1]).
Proof.
  cbn zeta.
  destruct (updateExplosions_spec rnd delta st)
    as (Hr & (chains & killed & He & Hc & Hk & Hs & _) & _).
  split; [apply hitByAny_explicit|].
  split; [exact Hr|]. split; [|split].
  - exists chains, killed. split; [exact Hk|]. split.
    { rewrite Hs, (Forall2_length _ _ _ Hc). reflexivity. }
    split; [exact He|].
    eapply Forall2_impl; [exact Hc|]. intros c r. apply chainAt_fields.
  - split; [reflexivity|]. split; [reflexivity|]. apply hazard_stTriple.
  - destruct (hazard_stKill rnd) as (Hr' & Hs' & He').
    split; [exact Hr'|]. split; [rewrite Hs'; cbn; lra|exact He'].
Qed.

(** C10.  In a step of the PLAYING phase the chain explosions are appended
    behind the explosions the explosion loop started with; at the end of the
    step each still has radius 0 (with maxRadius 40, expanding), and the
    rockets the loop removed are those inside an explosion it started with.
    In the step that follows, if the game is still PLAYING, each chain
    explosion is advanced to radius 1.5 * (delta' / 16.67), is in the array
    with that radius, and a rocket strictly inside it is removed. *)
Theorem chain_explosions_wait rnd dt st :
  gameState st = PLAYING ->
  let delta := Rmin dt 100 in
  let s3 := updateInterceptors rnd delta
              (updateRockets rnd delta (spawnRockets rnd delta st)) in
  let st' := update rnd dt st in
  exists chains,
    explosionsRef st' =
      omap (stepExplosion delta) (explosionsRef s3) ++ chains /\
    length chains =
      length (filter (hitByAny delta (explosionsRef s3)) (rocketsRef s3)) /\
    Forall (fun c => exp_radius c = 0 /\ exp_maxRadius c = 40 /\
                     exp_expanding c = true) chains /\
    rocketsRef st' =
      filter (fun r => ~ hitByAny delta (explosionsRef s3) r)
             (rocketsRef s3) /\
    forall dt' c,
      gameState st' = PLAYING -> c ∈ chains ->
      exists c',
        stepExplosion (Rmin dt' 100) c = Some c' /\
        exp_radius c' = 1.5 * (Rmin dt' 100 / 16.67) /\
        c' ∈ explosionsRef (update rnd dt' st') /\
        forall r, inside c' r -> r ∉ rocketsRef (update rnd dt' st').
Proof.
  intros Hp. cbn zeta. rewrite (update_playing rnd dt st Hp).
  set (delta := Rmin dt 100).
  set (s3 := updateInterceptors rnd delta _).
  destruct (updateExplosions_spec rnd delta s3)
    as (Hr & (chains & killed & He & Hc & Hk & _) & _).
  set (st' := updateExplosions rnd delta s3) in *.
  exists chains. split; [exact He|]. split.
  { by rewrite (Forall2_length _ _ _ Hc), Hk. }
  assert (Hch : Forall (fun c => exists rho x y, c = chainExplosion rho x y)
                       chains).
  { clear -Hc. induction Hc as [|c r cs rs (rho & ->) _ IH]; constructor;
      [by do 3 eexists|exact IH]. }
  split.
  { eapply Forall_impl; [exact Hch|]. by intros c (rho & x & y & ->). }
  split; [exact Hr|].
  intros dt' c Hp' Hin.
  destruct (proj1 (Forall_forall _ _) Hch c Hin) as (rho & x & y & ->).
  rewrite (update_playing rnd dt' st' Hp').
  set (delta' := Rmin dt' 100).
  destruct (spawnRockets_spec rnd delta' st')
    as (_ & _ & _ & He1 & _).
  set (t1 := spawnRockets rnd delta' st') in *.
  destruct (updateRockets_spec rnd delta' t1)
    as (_ & _ & _ & (imp & He2 & _) & _).
  set (t2 := updateRockets rnd delta' t1) in *.
  destruct (updateInterceptors_spec rnd delta' t2)
    as (_ & (bursts & He3 & _) & _).
  set (t3 := updateInterceptors rnd delta' t2) in *.
  destruct (updateExplosions_spec rnd delta' t3)
    as (Hr' & (chains' & killed' & He' & _) & _).
  assert (Hin3 : chainExplosion rho x y ∈ explosionsRef t3).
  { rewrite He3, He2, He1, He. rewrite !elem_of_app. tauto. }
  eexists. split; [reflexivity|]. split.
  { cbn. destruct (decide _); cbn; lra. }
  assert (Hstep : stepExplosion delta' (chainExplosion rho x y)
                  = Some (if decide (0 + 1.5 * (delta' / 16.67) >= 40)
                          then with_expanding false
                                 (with_radius (0 + 1.5 * (delta' / 16.67))
                                    (chainExplosion rho x y))
                          else with_radius (0 + 1.5 * (delta' / 16.67))
                                 (chainExplosion rho x y)))
    by reflexivity.
  split.
  - rewrite He'. apply elem_of_app. left.
    apply list_elem_of_omap. eexists. split; [exact Hin3|exact Hstep].
  - intros r Hins. rewrite Hr'. intros Hel.
    apply list_elem_of_filter in Hel as [Hno _]. apply Hno.
    apply Exists_exists. exists (chainExplosion rho x y).
    split; [exact Hin3|]. unfold hits. rewrite Hstep. exact Hins.
Qed.

Lemma chain_explosions_wait_witness :
  gameState stTriple = PLAYING /\
  exists olds chains,
    explosionsRef (update rnd0 16.67 stTriple) = olds ++ chains /\
    length chains = 3%nat /\
    Forall (fun c => exp_radius c = 0 /\ exp_maxRadius c = 40 /\
                     exp_expanding c = true) chains.
Proof.
  split; [reflexivity|].
  destruct (chain_explosions_wait rnd0 16.67 stTriple eq_refl)
    as (chains & He & Hlen & Hf & _).
  eexists _, chains. split; [exact He|]. split; [|exact Hf].
  rewrite Hlen. clear. rminmax.
  rewrite spawnRockets_quiet by (cbn; rminmax; lra).
  set (s1 := set_spawnTimer _ stTriple).
  destruct (updateRockets_no_impact rnd0 16.67 s1)
    as (Hr2 & He2 & _ & _ & Hi2 & _).
  { cbn. repeat constructor; unfold impacted; cbn; lra. }
  set (s2 := updateRockets rnd0 16.67 s1) in *.
  rewrite (updateInterceptors_none rnd0 16.67 s2) by exact Hi2.
  rewrite He2, Hr2.
  change (explosionsRef s1) with (explosionsRef stTriple).
  change (rocketsRef s1) with (rocketsRef stTriple).
  rewrite filter_Forall_all; [reflexivity|].
  apply Forall_forall. intros r Hr.
  apply Exists_cons. left. unfold hits, stepExplosion. cbn.
  rewrite decide_False by lra.
  cbn in Hr. unfold inside. apply distance_lt_sq; [cbn; lra|].
  repeat (apply elem_of_cons in Hr as [->|Hr]; [cbn; lra|]).
  inversion Hr.
Defined.

(** ** Impact *)

Lemma killCity_first x y cs k c :
  cs !! k = Some c -> city_x c = x -> city_y c = y ->
  (forall j c0, cs !! j = Some c0 -> (j < k)%nat ->
                ~ (city_x c0 = x /\ city_y c0 = y)) ->
  killCity x y cs !! k = Some (with_city_alive false c).
Proof.
  intros Hk Hx Hy Hfirst. unfold killCity.
  assert (Hf : list_find (fun c => city_x c = x /\ city_y c = y) cs
               = Some (k, c)).
  { apply list_find_Some. split; [exact Hk|]. split; [by split|exact Hfirst]. }
  rewrite Hf, list_lookup_alter_eq, Hk. reflexivity.
Qed.

Lemma killTower_first x y ts k t :
  ts !! k = Some t -> tower_x t = x -> tower_y t = y ->
  (forall j t0, ts !! j = Some t0 -> (j < k)%nat ->
                ~ (tower_x t0 = x /\ tower_y t0 = y)) ->
  killTower x y ts !! k = Some (with_tower_alive false t).
Proof.
  intros Hk Hx Hy Hfirst. unfold killTower.
  assert (Hf : list_find (fun t => tower_x t = x /\ tower_y t = y) ts
               = Some (k, t)).
  { apply list_find_Some. split; [exact Hk|]. split; [by split|exact Hfirst]. }
  rewrite Hf, list_lookup_alter_eq, Hk. reflexivity.
Qed.

(** C4. When the loop visits the rocket at index [i] and its progress
    reaches 1 or more, the rocket is spliced out, exactly one explosion is
    pushed, at the rocket's target, with radius 0, maxRadius 40 and
    expanding, and the city and the tower that [find] meets first at exactly
    the target coordinates are afterwards what they were with [alive]
    false. *)
Theorem rocket_impact rnd delta i st r :
  rocketsRef st !! i = Some r ->
  rocket_progress r + rocket_speed r * (delta / 16.67) >= 1 ->
  let st' := rocketBody rnd delta i st in
  rocketsRef st' = delete i (rocketsRef st) /\
  (exists e,
      explosionsRef st' = explosionsRef st ++ [e] /\
      exp_x e = rocket_targetX r /\ exp_y e = rocket_targetY r /\
      exp_radius e = 0 /\ exp_maxRadius e = 40 /\ exp_expanding e = true) /\
  (forall k c,
      citiesRef st !! k = Some c ->
      city_x c = rocket_targetX r -> city_y c = rocket_targetY r ->
      (forall j c0, citiesRef st !! j = Some c0 -> (j < k)%nat ->
                    ~ (city_x c0 = rocket_targetX r /\
                       city_y c0 = rocket_targetY r)) ->
      citiesRef st' !! k
      = Some (mkCity (city_id c) (city_x c) (city_y c) false)) /\
  (forall k t,
      towersRef st !! k = Some t ->
      tower_x t = rocket_targetX r -> tower_y t = rocket_targetY r ->
      (forall j t0, towersRef st !! j = Some t0 -> (j < k)%nat ->
                    ~ (tower_x t0 = rocket_targetX r /\
                       tower_y t0 = rocket_targetY r)) ->
      towersRef st' !! k
      = Some (mkTower (tower_id t) (tower_x t) (tower_y t) false
                      (tower_ammo t) (tower_maxAmmo t))).
Proof.
  intros Hi Himp. cbn zeta.
  pose proof (take_drop_middle _ _ _ Hi) as Hsplit.
  assert (Hlen : length (take i (rocketsRef st)) = i).
  { apply length_take_le. apply lookup_lt_Some in Hi. lia. }
  pose proof (rocketBody_spec rnd delta (take i (rocketsRef st)) r
                (drop (S i) (rocketsRef st)) st (eq_sym Hsplit)) as Hb.
  cbn zeta in Hb. rewrite Hlen in Hb.
  destruct Hb as (_ & _ & _ & _ & _ & Hb).
  rewrite decide_True in Hb by exact Himp.
  destruct Hb as (Hr & Hc & Ht & He & _).
  split.
  { by rewrite Hr, delete_take_drop. }
  split.
  { eexists. split; [exact He|]. by repeat split. }
  split.
  - intros k c Hk Hx Hy Hfirst. rewrite Hc.
    by rewrite (killCity_first _ _ _ k c Hk Hx Hy Hfirst).
  - intros k t Hk Hx Hy Hfirst. rewrite Ht.
    by rewrite (killTower_first _ _ _ k t Hk Hx Hy Hfirst).
Qed.

Lemma rocket_impact_witness :
  (rocketsRef (rocketBody rnd0 16 1 stStrike)
   = [mkRocket (id_base36 0.1) 100 (-20) 160 560 0.002 0.999] /\
   towersRef (rocketBody rnd0 16 1 stStrike) !! 1%nat
   = Some (mkTower (id_tower 1) 240 550 false (Some 40) (Some 40))) /\
  (rocketsRef (rocketBody rnd0 16 0 stStrike)
   = [mkRocket (id_base36 0) 100 (-20) 240 550 0.002 0.999] /\
   citiesRef (rocketBody rnd0 16 0 stStrike) !! 0%nat
   = Some (mkCity (id_city 0) 160 560 false)).
Proof.
  split.
  - destruct (rocket_impact rnd0 16 1 stStrike
                (mkRocket (id_base36 0) 100 (-20) 240 550 0.002 0.999))
      as (Hr & _ & _ & Ht).
    + reflexivity.
    + cbn. lra.
    + split; [exact Hr|].
      apply (Ht 1%nat (mkTower (id_tower 1) 240 550 true (Some 40) (Some 40)));
        try reflexivity.
      intros j t0 Hj Hlt. assert (j = 0%nat) as -> by lia.
      cbn in Hj. injection Hj as <-. cbn. lra.
  - destruct (rocket_impact rnd0 16 0 stStrike
                (mkRocket (id_base36 0.1) 100 (-20) 160 560 0.002 0.999))
      as (Hr & _ & Hc & _).
    + reflexivity.
    + cbn. lra.
    + split; [exact Hr|].
      apply (Hc 0%nat (mkCity (id_city 0) 160 560 true)); try reflexivity.
      intros j c0 _ Hj. lia.
Defined.

(** ** Begin *)

(** C5. Whatever the state it is called in, [initGame] gives the PLAYING
    phase with score 0, no rockets, interceptors or explosions, the spawn
    timer at 0, five live towers at 0.1, 0.3, 0.5, 0.7 and 0.9 of the width
    and six live cities at 0.2, 0.4, 0.45, 0.55, 0.6 and 0.8 of it. *)
Theorem initGame_clean now st :
  let st' := initGame now st in
  let w := width (dimensionsRef st) in
  let h := height (dimensionsRef st) in
  gameState st' = PLAYING /\ score st' = 0 /\
  rocketsRef st' = [] /\ interceptorsRef st' = [] /\
  explosionsRef st' = [] /\ spawnTimerRef st' = 0 /\
  towersRef st' =
    [ mkTower (id_tower 0) (w * 0.1) (h - 50) true (Some 40) (Some 40);
      mkTower (id_tower 1) (w * 0.3) (h - 50) true (Some 40) (Some 40);
      mkTower (id_tower 2) (w * 0.5) (h - 50) true (Some 80) (Some 80);
      mkTower (id_tower 3) (w * 0.7) (h - 50) true (Some 40) (Some 40);
      mkTower (id_tower 4) (w * 0.9) (h - 50) true (Some 40) (Some 40) ] /\
  citiesRef st' =
    [ mkCity (id_city 0) (w * 0.2) (h - 40) true;
      mkCity (id_city 1) (w * 0.4) (h - 40) true;
      mkCity (id_city 2) (w * 0.45) (h - 40) true;
      mkCity (id_city 3) (w * 0.55) (h - 40) true;
      mkCity (id_city 4) (w * 0.6) (h - 40) true;
      mkCity (id_city 5) (w * 0.8) (h - 40) true ] /\
  dimensionsRef st' = dimensionsRef st /\ lastTimeRef st' = now.
Proof. cbn zeta. unfold initGame. cbn. repeat split. Qed.

(** ** The life of an explosion *)

(** C8, as stated, fails: an explosion of radius 39 and maxRadius 40 ends a
    step of 16.67 ms with radius 40.5, above its maxRadius. *)
Lemma radius_rises_above_maxRadius :
  exists e,
    explosionsRef (update rnd0 16.67 stGrow) = [e] /\
    exp_maxRadius e = 40 /\ exp_radius e = 40.5 /\
    exp_radius e > exp_maxRadius e.
Proof.
  rewrite update_playing by reflexivity. rminmax.
  rewrite spawnRockets_quiet by (cbn; rminmax; lra).
  rewrite updateRockets_none by reflexivity.
  rewrite updateInterceptors_none by reflexivity.
  rewrite updateExplosions_no_rockets by reflexivity.
  unfold stepExplosion. cbn. rewrite decide_True by lra.
  eexists. split; [reflexivity|]. cbn. repeat split; lra.
Qed.

(** C8, amended.  The explosion loop replaces the explosions it started
    with by their images under [stepExplosion] (chain explosions, of radius
    0, come behind them).  An expanding explosion grows by
    [1.5 * (delta / 16.67)] and becomes contracting when the grown radius has
    reached maxRadius, keeping the grown radius: from a radius of at most
    maxRadius it ends at most one growth step above maxRadius.  A contracting
    explosion shrinks by [0.8 * (delta / 16.67)] and is removed when the
    shrunk radius is 0 or less. *)
Theorem explosion_life rnd delta st :
  (exists chains,
      explosionsRef (updateExplosions rnd delta st) =
        omap (stepExplosion delta) (explosionsRef st) ++ chains /\
      Forall (fun c => exp_radius c = 0 /\ exp_expanding c = true) chains) /\
  forall e,
    (exp_expanding e = true ->
     exists e',
       stepExplosion delta e = Some e' /\
       exp_radius e' = exp_radius e + 1.5 * (delta / 16.67) /\
       exp_maxRadius e' = exp_maxRadius e /\
       (exp_expanding e' = false <-> exp_radius e' >= exp_maxRadius e) /\
       (0 <= delta -> exp_radius e <= exp_maxRadius e ->
        exp_radius e' <= exp_maxRadius e + 1.5 * (delta / 16.67))) /\
    (exp_expanding e = false ->
     exp_radius e - 0.8 * (delta / 16.67) <= 0 ->
     stepExplosion delta e = None) /\
    (exp_expanding e = false ->
     exp_radius e - 0.8 * (delta / 16.67) > 0 ->
     exists e',
       stepExplosion delta e = Some e' /\
       exp_radius e' = exp_radius e - 0.8 * (delta / 16.67) /\
       exp_maxRadius e' = exp_maxRadius e /\ exp_expanding e' = false).
Proof.
  split.
  { destruct (updateExplosions_spec rnd delta st)
      as (_ & (chains & killed & He & Hc & _) & _).
    exists chains. split; [exact He|].
    clear -Hc. induction Hc as [|c r cs rs (rho & ->) _ IH]; constructor;
      [by split|exact IH]. }
  intros e. unfold stepExplosion. split; [|split].
  - intros Hexp. rewrite Hexp. eexists. split; [reflexivity|].
    destruct (decide _) as [Hge|Hlt]; cbn in *.
    + repeat split; try lra; try done.
    + repeat split; try lra; try done; try congruence.
  - intros -> Hle. cbn. by rewrite decide_True.
  - intros Hexp Hgt. rewrite Hexp. cbn. rewrite decide_False by lra.
    eexists. split; [reflexivity|]. by repeat split.
Qed.

(** ** Rendering *)

Arguments Math_atan2 : simpl never.

Section Render.

Variable rnd : nat -> R.

Lemma drawRockets_state l st :
  (drawRockets rnd l st).2 = set_randomCalls (randomCalls st + length l) st.
Proof.
  revert st. induction l as [|r l IH]; intros st.
  - cbn. destruct st. unfold set_randomCalls. cbn. f_equal. lia.
  - cbn. specialize (IH (set_randomCalls (S (randomCalls st)) st)).
    destruct (drawRockets rnd l _) as [ops st2]. cbn in *. subst st2.
    unfold set_randomCalls. cbn. f_equal. lia.
Qed.

Lemma drawRockets_ops l st :
  (drawRockets rnd l st).1 =
    concat (imap (fun k r => drawRocket (rnd (randomCalls st + k)) r) l).
Proof.
  revert st. induction l as [|r l IH]; intros st; [done|].
  cbn [drawRockets]. unfold Math_random.
  specialize (IH (set_randomCalls (S (randomCalls st)) st)).
  destruct (drawRockets rnd l _) as [ops st2]. cbn [fst] in *. subst ops.
  rewrite imap_cons. cbn [concat]. rewrite Nat.add_0_r. f_equal. f_equal.
  apply imap_ext. intros k r' _. cbn. f_equal. f_equal. lia.
Qed.

Lemma draw_state canvas st :
  (draw rnd canvas st).2 = st \/
  (draw rnd canvas st).2
  = set_randomCalls (randomCalls st + length (rocketsRef st)) st.
Proof.
  unfold draw. destruct canvas as [cv|]; [|by left].
  destruct (negb (context2d cv)); [by left|]. right.
  pose proof (drawRockets_state (rocketsRef st) st) as H.
  destruct (drawRockets rnd (rocketsRef st) st) as [ops st2]. exact H.
Qed.

(** The calls [draw] makes, given the values [Math.random()] returns. *)
Lemma draw_ops cv st :
  context2d cv = true ->
  (draw rnd (Some cv) st).1 =
    [ ctx.clearRect 0 0 (width (dimensionsRef st)) (height (dimensionsRef st));
      ctx.fillStyle
        (addColorStop 1 "#000000"
           (addColorStop 0 "#1a1a1a"
              (ctx.createLinearGradient 0 (height (dimensionsRef st) - 30) 0
                                        (height (dimensionsRef st)))));
      ctx.fillRect 0 (height (dimensionsRef st) - 30)
                   (width (dimensionsRef st)) 30 ]
    ++ concat (drawCity <$> citiesRef st)
    ++ concat (drawTower <$> towersRef st)
    ++ concat (imap (fun k r => drawRocket (rnd (randomCalls st + k)) r)
                    (rocketsRef st))
    ++ concat (drawInterceptor <$> interceptorsRef st)
    ++ concat (drawExplosion <$> explosionsRef st).
Proof.
  intros Hc. unfold draw. rewrite Hc. cbn [negb].
  pose proof (drawRockets_ops (rocketsRef st) st) as H.
  destruct (drawRockets rnd (rocketsRef st) st) as [ops st2].
  cbn [fst] in *. by rewrite H.
Qed.

End Render.

(** C9, as stated, fails: two renderings in a row of a state with a rocket
    in flight, the state untouched in between, do not emit the same calls
    (the flame of the rocket has another size). *)
Lemma draw_twice_differs :
  let first := draw rndStep (Some someCanvas) stOneRocket in
  let second := draw rndStep (Some someCanvas) first.2 in
  rocketsRef first.2 = rocketsRef stOneRocket /\
  interceptorsRef first.2 = interceptorsRef stOneRocket /\
  explosionsRef first.2 = explosionsRef stOneRocket /\
  citiesRef first.2 = citiesRef stOneRocket /\
  towersRef first.2 = towersRef stOneRocket /\
  score first.2 = score stOneRocket /\
  gameState first.2 = gameState stOneRocket /\
  dimensionsRef first.2 = dimensionsRef stOneRocket /\
  first.1 <> second.1.
Proof.
  cbn zeta. do 8 (split; [reflexivity|]).
  rewrite !draw_ops by reflexivity. cbn.
  intros H. apply (f_equal (fun l => l !! 13%nat)) in H. cbn in H.
  injection H as H. lra.
Qed.

(** C9, amended.  Rendering changes no entity collection, nor the score, the
    phase, the dimensions or the timers; and a second rendering of the
    untouched state emits the same calls as the first whenever
    [Math.random()] returns for each rocket the value it returned for it the
    first time, in particular when no rocket is in flight. *)
Theorem draw_reads_only rnd canvas st :
  let st' := (draw rnd canvas st).2 in
  (gameState st' = gameState st /\ score st' = score st /\
   rocketsRef st' = rocketsRef st /\
   interceptorsRef st' = interceptorsRef st /\
   explosionsRef st' = explosionsRef st /\
   citiesRef st' = citiesRef st /\ towersRef st' = towersRef st /\
   dimensionsRef st' = dimensionsRef st /\
   lastTimeRef st' = lastTimeRef st /\
   spawnTimerRef st' = spawnTimerRef st) /\
  ((forall k, (k < length (rocketsRef st))%nat ->
              rnd (randomCalls st + length (rocketsRef st) + k)%nat
              = rnd (randomCalls st + k)%nat) ->
   (draw rnd canvas st').1 = (draw rnd canvas st).1) /\
  (rocketsRef st = [] -> (draw rnd canvas st').1 = (draw rnd canvas st).1).
Proof.
  cbn zeta.
  assert (Hsame : forall k : nat,
             (draw rnd canvas (set_randomCalls k st)).1 = (draw rnd canvas st).1
             \/ (context2d <$> canvas = Some true)).
  { intros k. destruct canvas as [cv|]; [|by left].
    destruct (context2d cv) eqn:Hc; [right; cbn; by rewrite Hc|]. left.
    unfold draw. by rewrite Hc. }
  assert (Hgen :
    (forall k, (k < length (rocketsRef st))%nat ->
               rnd (randomCalls st + length (rocketsRef st) + k)%nat
               = rnd (randomCalls st + k)%nat) ->
    (draw rnd canvas (draw rnd canvas st).2).1 = (draw rnd canvas st).1).
  { intros Hrnd. destruct (draw_state rnd canvas st) as [->| ->]; [done|].
    destruct (Hsame (randomCalls st + length (rocketsRef st))%nat)
      as [H|H]; [exact H|].
    destruct canvas as [cv|]; [|done]. cbn in H.
    assert (Hc : context2d cv = true) by congruence.
    rewrite !draw_ops by exact Hc.
    change (rocketsRef (set_randomCalls _ st)) with (rocketsRef st).
    change (randomCalls (set_randomCalls ?n st)) with n.
    do 5 f_equal.
    apply imap_ext. intros k r Hk. cbn. f_equal.
    apply Hrnd. by eapply lookup_lt_Some. }
  split; [|split; [exact Hgen|]].
  - destruct (draw_state rnd canvas st) as [->| ->]; by repeat split.
  - intros Hnil. apply Hgen. rewrite Hnil. cbn. intros k Hk. lia.
Qed.

(** ** Taps *)

Section Sort.

Context {A : Type} (key : A -> R).

Let cmp : A -> A -> R := fun a b => key a - key b.

Lemma sort_insert_head a l :
  exists rest,
    sort_insert cmp a l =
      match l with
      | [] => a
      | b :: _ => if decide (cmp a b <= 0) then a else b
      end :: rest.
Proof.
  destruct l as [|b l]; cbn; [by eexists|].
  destruct (decide _); by eexists.
Qed.

Lemma Array_sort_nil_inv l : Array_sort cmp l = [] -> l = [].
Proof.
  destruct l as [|a l]; [done|]. unfold Array_sort. cbn.
  destruct (sort_insert_head a (foldr (sort_insert cmp) [] l)) as [rest ->].
  discriminate.
Qed.

(** The first element of the sorted array is one of the least key. *)
Lemma Array_sort_head l t rest :
  Array_sort cmp l = t :: rest ->
  t ∈ l /\ forall t', t' ∈ l -> key t <= key t'.
Proof.
  revert t rest. induction l as [|a l IH]; intros t rest Hs; [discriminate|].
  unfold Array_sort in Hs. cbn in Hs. fold (Array_sort cmp l) in Hs.
  destruct (sort_insert_head a (Array_sort cmp l)) as [rest' Hh].
  rewrite Hh in Hs. injection Hs as Ht _.
  destruct (Array_sort cmp l) as [|b sorted] eqn:Hl.
  - apply Array_sort_nil_inv in Hl. subst. split; [apply list_elem_of_here|].
    intros t' Ht'. apply list_elem_of_singleton in Ht'. subst. lra.
  - destruct (IH b sorted eq_refl) as [Hb Hmin].
    destruct (decide (cmp a b <= 0)) as [Hle|Hgt]; subst t; unfold cmp in *.
    + split; [apply list_elem_of_here|]. intros t' Ht'.
      apply elem_of_cons in Ht' as [->|Ht']; [lra|].
      specialize (Hmin t' Ht'). lra.
    + split; [by apply list_elem_of_further|]. intros t' Ht'.
      apply elem_of_cons in Ht' as [->|Ht']; [lra|]. by apply Hmin.
Qed.

End Sort.

(** C6, as stated, fails: a tap at (100, 500) with a live tower at
    (100, 500) appends nothing when the phase is not PLAYING. *)
Lemma tap_outside_playing_fires_nothing :
  (exists t, t ∈ towersRef stWon /\ tower_alive t = true) /\
  interceptorsRef
    (handleCanvasClick rnd0 (Some someCanvas) (MouseEvent 100 500) stWon)
  = interceptorsRef stWon.
Proof.
  split; [|reflexivity].
  eexists. split; [apply list_elem_of_here|reflexivity].
Qed.

Section Tap.

Variable rnd : nat -> R.
Hypothesis rnd_unit : inUnit rnd.

Lemma burstBody_spec tower x y st :
  let st' := burstBody rnd tower x y st in
  (exists i, interceptorsRef st' = interceptorsRef st ++ [i] /\
             burstInterceptor tower (mkPoint x y) i) /\
  gameState st' = gameState st /\ score st' = score st /\
  rocketsRef st' = rocketsRef st /\ explosionsRef st' = explosionsRef st /\
  citiesRef st' = citiesRef st /\ towersRef st' = towersRef st /\
  dimensionsRef st' = dimensionsRef st /\
  lastTimeRef st' = lastTimeRef st /\ spawnTimerRef st' = spawnTimerRef st.
Proof.
  cbn zeta. unfold burstBody. cbn. split; [|by repeat split].
  eexists. split; [reflexivity|].
  pose proof (rnd_unit (randomCalls st)).
  pose proof (rnd_unit (S (randomCalls st))).
  pose proof (rnd_unit (S (S (S (randomCalls st))))).
  unfold burstInterceptor. cbn. repeat split; lra.
Qed.

Lemma burst_spec tower x y n st :
  let st' := Nat.iter n (burstBody rnd tower x y) st in
  (exists burst, interceptorsRef st' = interceptorsRef st ++ burst /\
                 length burst = n /\
                 Forall (burstInterceptor tower (mkPoint x y)) burst) /\
  gameState st' = gameState st /\ score st' = score st /\
  rocketsRef st' = rocketsRef st /\ explosionsRef st' = explosionsRef st /\
  citiesRef st' = citiesRef st /\ towersRef st' = towersRef st /\
  dimensionsRef st' = dimensionsRef st /\
  lastTimeRef st' = lastTimeRef st /\ spawnTimerRef st' = spawnTimerRef st.
Proof.
  induction n as [|n IH]; cbn zeta.
  - cbn. split; [|by repeat split].
    exists []. rewrite app_nil_r. by repeat constructor.
  - cbn [Nat.iter nat_rect]. cbn zeta in IH.
    change (nat_rect _ st _ n)
      with (Nat.iter n (burstBody rnd tower x y) st) in *.
    set (s := Nat.iter n (burstBody rnd tower x y) st) in *.
    destruct IH as ((burst & Hb & Hl & Hf) & IH).
    destruct (burstBody_spec tower x y s) as ((i & Hi & Hgood) & Hrest).
    split.
    + exists (burst ++ [i]). rewrite Hi, Hb, <- app_assoc.
      split; [done|]. split.
      * rewrite length_app. cbn. lia.
      * apply Forall_app. split; [exact Hf|by constructor].
    + destruct IH as (?&?&?&?&?&?&?&?&?).
      destruct Hrest as (?&?&?&?&?&?&?&?&?).
      repeat split; congruence.
Qed.

End Tap.

(** C6, amended.  In the PLAYING phase, with the canvas there, a tap at
    point [p] when at least one tower is alive appends exactly 5
    interceptors, each starting at the position of one and the same live
    tower, none of the live towers being nearer to [p], with a target within
    15 pixels of [p] on each axis, progress 0 and a speed in [0.12, 0.17);
    when no tower is alive the tap changes nothing.  In every other phase
    the tap changes nothing, towers alive or not; and in no case does it
    touch anything but the interceptors. *)
Theorem tap_fires_burst rnd cv e p st :
  inUnit rnd -> tapAt cv e p ->
  let st' := handleCanvasClick rnd (Some cv) e st in
  (gameState st = PLAYING ->
   ((exists t, t ∈ towersRef st /\ tower_alive t = true) ->
    exists tower burst,
      tower ∈ towersRef st /\ tower_alive tower = true /\
      (forall t, t ∈ towersRef st -> tower_alive t = true ->
                 distance p (tower_point tower) <= distance p (tower_point t))
      /\ interceptorsRef st' = interceptorsRef st ++ burst /\
      length burst = 5%nat /\
      Forall (burstInterceptor tower p) burst) /\
   ((forall t, t ∈ towersRef st -> tower_alive t = false) -> st' = st)) /\
  (gameState st <> PLAYING -> st' = st) /\
  gameState st' = gameState st /\ score st' = score st /\
  rocketsRef st' = rocketsRef st /\ explosionsRef st' = explosionsRef st /\
  citiesRef st' = citiesRef st /\ towersRef st' = towersRef st.
Proof.
  intros Hrnd Htap. cbn zeta.
  destruct (decide (gameState st = PLAYING)) as [Hp|Hp].
  2:{ assert (Hsame : handleCanvasClick rnd (Some cv) e st = st).
      { unfold handleCanvasClick. by destruct (gameState st). }
      rewrite Hsame. split; [by intros Hp'|]. by repeat split. }
  unfold handleCanvasClick. rewrite Hp.
  set (client := match e with
                 | MouseEvent clientX clientY => Some (mkPoint clientX clientY)
                 | TouchEvent touches => touches !! 0%nat
                 end).
  assert (Hc : exists c, client = Some c /\
                 p = mkPoint (px c - rect_left (boundingClientRect cv))
                             (py c - rect_top (boundingClientRect cv))).
  { subst client. destruct e as [cx cy|[|t ts]]; cbn in Htap |- *;
      [by eexists|done|by eexists]. }
  destruct Hc as (c & -> & Hpt). cbn zeta. rewrite <- Hpt.
  set (alive := filter (fun t => tower_alive t = true) (towersRef st)).
  destruct (Array_sort _ alive) as [|tower sorted] eqn:Hsort.
  - apply (Array_sort_nil_inv
             (fun t => distance p (tower_point t))) in Hsort.
    split; [|by repeat split]. intros _.
    split; [|done].
    intros (t & Ht & Ha). exfalso.
    assert (Hin : t ∈ alive) by (by apply list_elem_of_filter).
    rewrite Hsort in Hin. inversion Hin.
  - apply (Array_sort_head (fun t => distance p (tower_point t))) in Hsort.
    destruct Hsort as [Hin Hmin].
    apply list_elem_of_filter in Hin as [Hal Hin].
    rewrite Hpt. cbn [px py].
    destruct (burst_spec rnd Hrnd tower
                (px c - rect_left (boundingClientRect cv))
                (py c - rect_top (boundingClientRect cv)) 5 st)
      as ((burst & Hb & Hl & Hf) & Hrest).
    rewrite <- Hpt in *.
    split; [|split; [by intros Hp'|by destruct Hrest as (?&?&?&?&?&?&_)]].
    intros _. split.
    + intros _. exists tower, burst. split; [exact Hin|]. split; [exact Hal|].
      split; [|by repeat split].
      intros t Ht Ha. apply Hmin. by apply list_elem_of_filter.
    + intros Hnone. rewrite (Hnone tower Hin) in Hal. discriminate.
Qed.

(** The live tower at (100, 500) of [stTwoTowers], tapped while playing. *)
Lemma tap_fires_burst_witness :
  exists burst,
    interceptorsRef
      (handleCanvasClick rndHalf (Some someCanvas) (MouseEvent 100 500)
                         stTwoTowers)
    = burst /\ length burst = 5%nat.
Proof.
  destruct (tap_fires_burst rndHalf someCanvas (MouseEvent 100 500)
              (mkPoint (100 - 0) (500 - 0)) stTwoTowers)
    as (Hfire & _).
  - intros n. unfold rndHalf. lra.
  - reflexivity.
  - destruct (proj1 (Hfire eq_refl))
      as (tower & burst & _ & _ & _ & Hb & Hl & _).
    + eexists. split; [apply list_elem_of_here|reflexivity].
    + exists burst. split; [exact Hb|exact Hl].
Defined.

(** ** The invariant holds in every state the game reaches *)

Lemma wf_initGame now st : 0 <= loopScore st -> wf (initGame now st).
Proof.
  intros Hls. unfold wf, initGame. cbn.
  split; [split; [lra|exact Hls]|]. split; constructor.
Qed.

Lemma wf_runLoopEffect before st : wf st -> wf (runLoopEffect before st).
Proof.
  intros Hwf. destruct (runLoopEffect_cases before st) as [->|[_ ->]];
    [exact Hwf|].
  destruct Hwf as ([Hsc Hls] & Hrs & His). by repeat split.
Qed.

Lemma burst_loopScore rnd tower x y n st :
  loopScore (Nat.iter n (burstBody rnd tower x y) st) = loopScore st.
Proof. induction n as [|n IH]; [done|]. exact IH. Qed.

Lemma wf_update rnd dt st :
  inUnit rnd -> wf st -> wf (update rnd dt st).
Proof.
  intros Hrnd ([Hsc Hls] & Hrs & His).
  destruct (decide (gameState st = PLAYING)) as [Hp|Hp].
  2:{ by rewrite (update_not_playing rnd dt st Hp). }
  rewrite (update_playing rnd dt st Hp).
  set (delta := Rmin dt 100) in *.
  destruct (spawnRockets_spec rnd delta st)
    as (_ & Hs1 & Hi1 & _ & _ & _ & _ & _ & new & Hr1 & _ & Hnew).
  set (s1 := spawnRockets rnd delta st) in *.
  destruct (updateRockets_spec rnd delta s1)
    as (Hr2 & _ & _ & _ & _ & Hs2 & Hi2 & _).
  set (s2 := updateRockets rnd delta s1) in *.
  destruct (updateInterceptors_spec rnd delta s2)
    as (Hi3 & _ & _ & Hs3 & Hr3 & _).
  set (s3 := updateInterceptors rnd delta s2) in *.
  destruct (updateExplosions_spec rnd delta s3)
    as (Hr4 & (chains & killed & _ & _ & _ & Hs4 & _) & Hg4).
  destruct Hg4 as (_ & _ & Hi4 & _).
  pose proof (update_loopScore rnd dt st) as Hl.
  rewrite (update_playing rnd dt st Hp) in Hl. fold delta s1 s2 s3 in Hl.
  split; [split|split].
  - rewrite Hs4, Hs3, Hs2, Hs1. pose proof (pos_INR (length chains)). lra.
  - by rewrite Hl.
  - rewrite Hr4, Hr3, Hr2, Hr1. apply Forall_forall. intros r Hr.
    apply list_elem_of_filter in Hr as [_ Hr].
    apply list_elem_of_filter in Hr as [_ Hr].
    apply list_elem_of_fmap in Hr as (r0 & -> & Hr). cbn.
    apply elem_of_app in Hr as [Hr|Hr].
    + eapply (proj1 (Forall_forall _ _) Hrs), Hr.
    + eapply freshRocket_speed; [exact Hrnd|exact Hls|].
      eapply (proj1 (Forall_forall _ _) Hnew), Hr.
  - rewrite Hi4, Hi3, Hi2, Hi1. apply Forall_forall. intros i Hi.
    apply list_elem_of_filter in Hi as [_ Hi].
    apply list_elem_of_fmap in Hi as (i0 & -> & Hi). cbn.
    eapply (proj1 (Forall_forall _ _) His), Hi.
Qed.

Lemma wf_handleCanvasClick rnd canvas e st :
  inUnit rnd -> wf st -> wf (handleCanvasClick rnd canvas e st).
Proof.
  intros Hrnd Hwf. unfold handleCanvasClick.
  destruct (gameState st); try exact Hwf.
  destruct canvas as [cv|]; [|exact Hwf].
  destruct (match e with
            | MouseEvent clientX clientY => Some (mkPoint clientX clientY)
            | TouchEvent touches => touches !! 0%nat
            end) as [c|]; [|exact Hwf].
  cbn zeta. destruct (Array_sort _ _) as [|tower sorted]; [exact Hwf|].
  destruct (burst_spec rnd Hrnd tower
              (px c - rect_left (boundingClientRect cv))
              (py c - rect_top (boundingClientRect cv)) 5 st)
    as ((burst & Hb & _ & Hf) & _ & Hs & Hr & _).
  destruct Hwf as ([Hsc Hls] & Hrs & His).
  split; [split; [by rewrite Hs|by rewrite burst_loopScore]|].
  split; [by rewrite Hr|].
  rewrite Hb. apply Forall_app. split; [exact His|].
  eapply Forall_impl; [exact Hf|].
  intros i (_ & _ & _ & _ & _ & _ & _ & Hsp). lra.
Qed.

Lemma wf_draw rnd canvas st : wf st -> wf (draw rnd canvas st).2.
Proof.
  intros Hwf. by destruct (draw_state rnd canvas st) as [->| ->].
Qed.

Lemma update_never_goes_back_witness :
  inUnit rnd0 /\ 0 <= 16 /\ wf stTriple /\
  score stTriple <= score (update rnd0 16 stTriple).
Proof.
  assert (Hwf : wf stTriple).
  { unfold wf. cbn. split; [split; lra|]. split; repeat constructor; cbn; lra. }
  assert (Hdt : 0 <= 16) by lra.
  split; [exact rnd0_inUnit|]. split; [exact Hdt|]. split; [exact Hwf|].
  exact (proj1 (update_never_goes_back rnd0 16 stTriple rnd0_inUnit Hdt Hwf)).
Defined.

(** ** Reached states *)

Lemma wf_reachable rnd st : inUnit rnd -> reachable rnd st -> wf st.
Proof.
  intros Hrnd. induction 1 as [|now st _ IH|canvas time st _ IH
                               |canvas e st _ IH|container canvas st _ IH].
  - unfold wf. cbn. split; [split; lra|]. split; constructor.
  - apply wf_runLoopEffect, wf_initGame. by destruct IH as ([_ Hls] & _).
  - unfold frame, loop.
    apply wf_runLoopEffect, wf_draw, wf_update; [exact Hrnd|exact IH].
  - by apply wf_handleCanvasClick.
  - unfold handleResize. by destruct container, canvas.
Qed.

Lemma update_keeps_live_tower rnd dt st :
  (gameState st = PLAYING -> allTowersDead (towersRef st) = false) ->
  gameState (update rnd dt st) = PLAYING ->
  allTowersDead (towersRef (update rnd dt st)) = false.
Proof.
  intros Hlive.
  destruct (decide (gameState st = PLAYING)) as [Hp|Hp].
  2:{ rewrite (update_not_playing rnd dt st Hp). intros Hp'. contradiction. }
  rewrite (update_playing rnd dt st Hp).
  set (delta := Rmin dt 100) in *.
  destruct (spawnRockets_spec rnd delta st)
    as (Hg1 & _ & _ & _ & _ & Ht1 & _).
  set (s1 := spawnRockets rnd delta st) in *.
  destruct (updateRockets_spec rnd delta s1) as (_ & _ & Ht2 & _ & Hg2 & _).
  set (s2 := updateRockets rnd delta s1) in *.
  destruct (updateInterceptors_spec rnd delta s2)
    as (_ & _ & Hg3 & _ & _ & _ & Ht3 & _).
  set (s3 := updateInterceptors rnd delta s2) in *.
  destruct (updateExplosions_spec rnd delta s3)
    as (_ & (chains & killed & _ & _ & _ & _ & Hg4) & (_ & Ht4 & _)).
  rewrite Hg4, Ht4, Ht3, Hg3, Hg2, Hg1, Hp. unfold phaseAfterKills.
  destruct (decide (_ /\ score _ >= _)); [discriminate|].
  destruct (decide _) as [|Hn]; [discriminate|]. intros _.
  destruct (allTowersDead (towersRef s2)) eqn:Hd; [|reflexivity].
  destruct (impacting delta (rocketsRef s1)) as [|r hit] eqn:Hhit.
  - cbn in Ht2. rewrite Ht2, Ht1, (Hlive Hp) in Hd. discriminate.
  - exfalso. apply Hn. split; [cbn; lia|reflexivity].
Qed.

(** While the game is PLAYING a tower is alive: the phase leaves PLAYING in
    the very step in which the last tower is struck. *)
Lemma playing_has_live_tower rnd st :
  reachable rnd st ->
  gameState st = PLAYING -> allTowersDead (towersRef st) = false.
Proof.
  induction 1 as [|now st _ IH|canvas time st _ IH
                  |canvas e st _ IH|container canvas st _ IH].
  - discriminate.
  - unfold begin.
    by destruct (runLoopEffect_cases (gameState st) (initGame now st))
      as [->|[_ ->]].
  - unfold frame, loop. set (s := set_lastTime time st).
    assert (Hs : gameState s = PLAYING -> allTowersDead (towersRef s) = false)
      by exact IH.
    pose proof (update_keeps_live_tower rnd (time - lastTimeRef st) s Hs).
    destruct (runLoopEffect_cases (gameState st)
                (draw rnd canvas (update rnd (time - lastTimeRef st) s)).2)
      as [->|[_ ->]];
      by destruct (draw_state rnd canvas
                     (update rnd (time - lastTimeRef st) s)) as [->| ->].
  - unfold handleCanvasClick.
    destruct (gameState st) eqn:Hg; intros Hpl; try congruence.
    clear Hpl.
    destruct canvas as [cv|]; [|by apply IH].
    destruct (match e with
              | MouseEvent clientX clientY => Some (mkPoint clientX clientY)
              | TouchEvent touches => touches !! 0%nat
              end) as [c|]; [|by apply IH].
    cbn zeta. destruct (Array_sort _ _) as [|tower sorted]; [by apply IH|].
    assert (Hsame : forall n s,
               towersRef (Nat.iter n (burstBody rnd tower
                            (px c - rect_left (boundingClientRect cv))
                            (py c - rect_top (boundingClientRect cv))) s)
               = towersRef s).
    { intros n s. induction n as [|n IHn]; [done|]. exact IHn. }
    rewrite Hsame. by apply IH.
  - unfold handleResize. by destruct container, canvas.
Qed.

(** ** Losing *)




(** ** The score the frame loop holds while the game is played *)

Lemma handleCanvasClick_loop rnd canvas e st :
  gameState (handleCanvasClick rnd canvas e st) = gameState st /\
  loopScore (handleCanvasClick rnd canvas e st) = loopScore st.
Proof.
  unfold handleCanvasClick. destruct (gameState st) eqn:Hg; try by rewrite Hg.
  destruct canvas as [cv|]; [|done].
  destruct (match e with
            | MouseEvent clientX clientY => Some (mkPoint clientX clientY)
            | TouchEvent touches => touches !! 0%nat
            end) as [c|]; [|done].
  cbn zeta. destruct (Array_sort _ _) as [|tower sorted]; [done|].
  split; [|apply burst_loopScore].
  rewrite <- Hg. generalize 5%nat. intros n.
  induction n as [|n IH]; [done|]. exact IH.
Qed.

Lemma loop_loopScore rnd canvas time st :
  loopScore (loop rnd canvas time st).2 = loopScore st.
Proof.
  unfold loop.
  destruct (draw_state rnd canvas
              (update rnd (time - lastTimeRef st) (set_lastTime time st)))
    as [->| ->]; cbn [loopScore set_randomCalls];
    by rewrite update_loopScore.
Qed.

Lemma loop_from_over rnd canvas time st :
  gameState st <> PLAYING ->
  gameState (loop rnd canvas time st).2 = gameState st /\
  score (loop rnd canvas time st).2 = score st.
Proof.
  intros Hp. unfold loop.
  rewrite (update_not_playing rnd _ (set_lastTime time st)) by exact Hp.
  by destruct (draw_state rnd canvas (set_lastTime time st)) as [->| ->].
Qed.

(** While the game is PLAYING the [update] of the frame loop holds the score
    0: the loop is started again only when the phase changes, and the phase
    becomes PLAYING only in [initGame], which sets the score to 0. *)
Lemma playing_loopScore rnd st :
  reachable rnd st -> gameState st = PLAYING -> loopScore st = 0.
Proof.
  induction 1 as [|now st _ IH|canvas time st _ IH
                  |canvas e st _ IH|container canvas st _ IH].
  - discriminate.
  - intros _. unfold begin, runLoopEffect.
    destruct (decide _) as [Hsame|Hnew]; [|reflexivity].
    cbn in Hsame. by apply IH.
  - unfold frame, runLoopEffect.
    destruct (decide _) as [Hsame|Hnew].
    + intros Hp. rewrite loop_loopScore. apply IH. by rewrite <- Hsame.
    + intros Hp. cbn in Hp. exfalso. apply Hnew.
      destruct (decide (gameState st = PLAYING)) as [Hst|Hst];
        [by rewrite Hst|by apply loop_from_over].
  - destruct (handleCanvasClick_loop rnd canvas e st) as [-> ->]. exact IH.
  - unfold handleResize. by destruct container, canvas.
Qed.

(** Outside the PLAYING phase it holds the score of the state: the loop was
    started again when the phase was left. *)
Lemma over_loopScore rnd st :
  reachable rnd st -> gameState st <> PLAYING -> loopScore st = score st.
Proof.
  induction 1 as [|now st _ IH|canvas time st _ IH
                  |canvas e st _ IH|container canvas st _ IH].
  - reflexivity.
  - intros Hp. exfalso. apply Hp. unfold begin.
    by destruct (runLoopEffect_fields (gameState st) (initGame now st))
      as (-> & _).
  - unfold frame, runLoopEffect.
    destruct (decide _) as [Hsame|Hnew]; [|reflexivity].
    intros Hp. rewrite Hsame in Hp.
    rewrite loop_loopScore, (proj2 (loop_from_over rnd canvas time st Hp)).
    by apply IH.
  - intros Hp.
    assert (Hst : gameState st <> PLAYING)
      by (by rewrite (proj1 (handleCanvasClick_loop rnd canvas e st)) in Hp).
    assert (Hsame : handleCanvasClick rnd canvas e st = st).
    { unfold handleCanvasClick. by destruct (gameState st). }
    rewrite Hsame. by apply IH.
  - unfold handleResize. by destruct container, canvas.
Qed.

(** * Further properties of the component *)

(** ** Distances *)

Lemma sqrt_sum_sq_triangle a b c d :
  sqrt ((a + c) ^ 2 + (b + d) ^ 2)
  <= sqrt (a ^ 2 + b ^ 2) + sqrt (c ^ 2 + d ^ 2).
Proof.
  assert (Hcs : a * c + b * d <= sqrt (a ^ 2 + b ^ 2) * sqrt (c ^ 2 + d ^ 2)).
  { rewrite <- sqrt_mult by nra.
    destruct (Rle_lt_dec (a * c + b * d) 0) as [H|H].
    - eapply Rle_trans; [exact H|apply sqrt_pos].
    - rewrite <- (sqrt_pow2 (a * c + b * d)) by lra.
      apply sqrt_le_1_alt. pose proof (pow2_ge_0 (a * d - b * c)). nra. }
  pose proof (sqrt_pos (a ^ 2 + b ^ 2)) as H1.
  pose proof (sqrt_pos (c ^ 2 + d ^ 2)) as H2.
  rewrite <- (sqrt_pow2 (sqrt (a ^ 2 + b ^ 2) + sqrt (c ^ 2 + d ^ 2))) by lra.
  apply sqrt_le_1_alt.
  assert (E1 : sqrt (a ^ 2 + b ^ 2) ^ 2 = a ^ 2 + b ^ 2)
    by (rewrite pow2_sqrt; nra).
  assert (E2 : sqrt (c ^ 2 + d ^ 2) ^ 2 = c ^ 2 + d ^ 2)
    by (rewrite pow2_sqrt; nra).
  nra.
Qed.

(** X1. [distance] is a metric on the points: it is never negative, it is
    0 exactly between a point and itself, it is symmetric, and it obeys the
    triangle inequality. *)
Theorem distance_is_a_metric p q r :
  0 <= distance p q /\
  (distance p q = 0 <-> p = q) /\
  distance p q = distance q p /\
  distance p r <= distance p q + distance q r.
Proof.
  unfold distance. split; [apply sqrt_pos|]. split; [|split].
  - split.
    + intros H. apply sqrt_eq_0 in H.
      2:{ apply Rplus_le_le_0_compat; apply pow2_ge_0. }
      pose proof (pow2_ge_0 (px p - px q)).
      pose proof (pow2_ge_0 (py p - py q)).
      assert (Hx : (px p - px q) ^ 2 = 0) by lra.
      assert (Hy : (py p - py q) ^ 2 = 0) by lra.
      assert (Hzero : forall x, x ^ 2 = 0 -> x = 0).
      { intros x Hsq. destruct (Req_dec x 0) as [|Hne]; [done|].
        by apply (pow_nonzero x 2) in Hne. }
      apply Hzero in Hx, Hy.
      destruct p, q. cbn in *. f_equal; lra.
    + intros ->. rewrite <- sqrt_0. f_equal. ring.
  - f_equal. ring.
  - replace (px p - px r) with ((px p - px q) + (px q - px r)) by ring.
    replace (py p - py r) with ((py p - py q) + (py q - py r)) by ring.
    apply sqrt_sum_sq_triangle.
Qed.

(** ** Long frames *)

(** X2. A frame longer than 100 ms counts for 100 ms: the step for such a
    [dt] is the step for 100. *)
Theorem long_frames_are_clamped rnd dt st :
  100 <= dt -> update rnd dt st = update rnd 100 st.
Proof.
  intros Hdt. unfold update.
  rewrite (Rmin_right dt 100 Hdt), (Rmin_left 100 100) by lra. reflexivity.
Qed.

Lemma long_frames_are_clamped_witness :
  100 <= 2500 /\ update rnd0 2500 stTriple = update rnd0 100 stTriple.
Proof.
  assert (H : 100 <= 2500) by lra.
  split; [exact H|]. exact (long_frames_are_clamped rnd0 2500 stTriple H).
Defined.

(** ** The spawn timer *)

(** X3. The spawn timer accumulates the elapsed time and is set back to 0
    when it has passed the spawn interval, rocket or no rocket.  The interval
    is [max(266, 1000 - (s / 100) * 66)] for the score [s] that the [update]
    of the frame loop holds, not for the score of the moment: in every
    PLAYING state the component reaches [s] is 0 and the interval 1000,
    whatever the score (outside PLAYING, where no step spawns, [s] is the
    score).  As a function of [s] the interval is never under
    266, is at most 1000 for [s >= 0], does not grow with [s], and under
    [s = 1000] it is [1000 - (s / 100) * 66], above 340. *)
Theorem spawn_timer_law rnd delta st :
  spawnTimerRef (spawnRockets rnd delta st) =
    (if decide (spawnTimerRef st + delta > spawnRate (loopScore st))
     then 0 else spawnTimerRef st + delta) /\
  (reachable rnd st -> gameState st = PLAYING ->
   loopScore st = 0 /\ spawnRate (loopScore st) = 1000) /\
  (reachable rnd st -> gameState st <> PLAYING -> loopScore st = score st) /\
  (forall sc, 266 <= spawnRate sc) /\
  (forall sc, 0 <= sc -> spawnRate sc <= 1000) /\
  (forall sc sc', sc <= sc' -> spawnRate sc' <= spawnRate sc) /\
  (forall sc, sc < 1000 ->
              spawnRate sc = 1000 - (sc / 100) * 66 /\ 340 < spawnRate sc).
Proof.
  split.
  { unfold spawnRockets, spawnRate. cbn.
    destruct (decide (spawnTimerRef st + delta > _)); [|reflexivity]. cbn.
    destruct (decide _); [|reflexivity]. cbn.
    destruct (_ !! _); reflexivity. }
  split.
  { intros Hreach Hp. rewrite (playing_loopScore rnd st Hreach Hp).
    split; [reflexivity|]. unfold spawnRate. rewrite Rmax_right; lra. }
  split; [apply over_loopScore|].
  unfold spawnRate. split; [intros sc; apply Rmax_l|].
  split; [intros sc Hsc; apply Rmax_lub; lra|].
  split.
  - intros sc sc' Hle. apply Rmax_lub; [apply Rmax_l|].
    eapply Rle_trans; [|apply Rmax_r]. lra.
  - intros sc Hsc. rewrite Rmax_right by lra. split; lra.
Qed.

Section SpawnMore.

Variable rnd : nat -> R.

Lemma spawnRockets_due delta st :
  spawnTimerRef st + delta > spawnRate (loopScore st) ->
  spawnRockets rnd delta st =
    let st0 := set_spawnTimer 0 (set_spawnTimer (spawnTimerRef st + delta) st)
    in
    if decide (0 < length (liveTargets st))%nat then
      match liveTargets st
            !! Z.to_nat (Math_floor (rnd (randomCalls st)
                                     * INR (length (liveTargets st)))) with
      | Some target =>
          set_rockets
            (rocketsRef st ++
               [mkRocket (id_base36 (rnd (S (randomCalls st))))
                         (rnd (S (S (randomCalls st)))
                          * width (dimensionsRef st))
                         (-20) (px target) (py target)
                         (0.0015 + rnd (S (S (S (randomCalls st)))) * 0.0015
                          + loopScore st / 100000) 0])
            (set_randomCalls (S (S (S (S (randomCalls st))))) st0)
      | None => set_randomCalls (S (randomCalls st)) st0
      end
    else st0.
Proof.
  intros Hdue. unfold spawnRockets, spawnRate in *. cbn.
  rewrite decide_True by exact Hdue. cbn.
  fold (liveTargets st).
  destruct (decide _); [|reflexivity]. cbn.
  destruct (_ !! _); reflexivity.
Qed.

End SpawnMore.

Lemma spawn_one rnd delta st :
  inUnit rnd ->
  spawnTimerRef st + delta > spawnRate (loopScore st) ->
  (0 < length (liveTargets st))%nat ->
  exists r, rocketsRef (spawnRockets rnd delta st) = rocketsRef st ++ [r].
Proof.
  intros Hrnd Hdue Hlen.
  rewrite (spawnRockets_due rnd delta st Hdue). cbn zeta.
  rewrite decide_True by exact Hlen.
  pose proof (floor_index_in_range (rnd (randomCalls st))
                (length (liveTargets st)) (Hrnd _) Hlen) as Hidx.
  apply lookup_lt_is_Some_2 in Hidx as [target Htarget].
  rewrite Htarget. by eexists.
Qed.

Lemma live_tower_target st :
  allTowersDead (towersRef st) = false -> (0 < length (liveTargets st))%nat.
Proof.
  intros Hlive. unfold liveTargets. rewrite length_app, !length_fmap.
  assert (Hex : exists t, t ∈ towersRef st /\ tower_alive t = true).
  { revert Hlive. unfold allTowersDead.
    induction (towersRef st) as [|t ts IH]; [discriminate|]. cbn.
    destruct (tower_alive t) eqn:Ha; cbn.
    - intros _. exists t. split; [apply list_elem_of_here|exact Ha].
    - intros Hts. destruct (IH Hts) as (t' & Hin & Ha').
      exists t'. split; [by apply list_elem_of_further|exact Ha']. }
  destruct Hex as (t & Hin & Ha).
  assert (Hf : t ∈ filter (fun t => tower_alive t = true) (towersRef st))
    by (by apply list_elem_of_filter).
  destruct (filter _ (towersRef st)); [inversion Hf|cbn; lia].
Qed.

(** X4. When the spawn timer has run out and a city or a tower is alive,
    [Math.random()] answering in [0, 1), exactly one rocket is appended: it is
    aimed at the position of a live city or tower, starts at height -20 at a
    random fraction of the width, at progress 0, with a speed between
    [0.0015 + s / 100000] and [0.003 + s / 100000] for the score [s] that
    the [update] of the frame loop holds; in every PLAYING state the
    component reaches that is between 0.0015 and 0.003, whatever the
    score. *)
Theorem spawn_aims_at_a_live_installation rnd delta st :
  inUnit rnd ->
  spawnTimerRef st + delta > spawnRate (loopScore st) ->
  ((exists c, c ∈ citiesRef st /\ city_alive c = true) \/
   (exists t, t ∈ towersRef st /\ tower_alive t = true)) ->
  exists r,
    rocketsRef (spawnRockets rnd delta st) = rocketsRef st ++ [r] /\
    ((exists c, c ∈ citiesRef st /\ city_alive c = true /\
                rocket_targetX r = city_x c /\ rocket_targetY r = city_y c) \/
     (exists t, t ∈ towersRef st /\ tower_alive t = true /\
                rocket_targetX r = tower_x t /\ rocket_targetY r = tower_y t))
    /\ rocket_y r = -20 /\ rocket_progress r = 0 /\
    (exists u, 0 <= u < 1 /\ rocket_x r = u * width (dimensionsRef st)) /\
    0.0015 + loopScore st / 100000 <= rocket_speed r
      < 0.003 + loopScore st / 100000 /\
    (reachable rnd st -> gameState st = PLAYING ->
     0.0015 <= rocket_speed r < 0.003).
Proof.
  intros Hrnd Hdue Hlive.
  rewrite (spawnRockets_due rnd delta st Hdue). cbn zeta.
  assert (Hlen : (0 < length (liveTargets st))%nat).
  { unfold liveTargets. rewrite length_app, !length_fmap.
    destruct Hlive as [(c & Hc & Ha)|(t & Ht & Ha)].
    - assert (Hin : c ∈ filter (fun c => city_alive c = true) (citiesRef st))
        by (by apply list_elem_of_filter).
      destruct (filter _ (citiesRef st)); [inversion Hin|cbn; lia].
    - assert (Hin : t ∈ filter (fun t => tower_alive t = true) (towersRef st))
        by (by apply list_elem_of_filter).
      destruct (filter _ (towersRef st)); [inversion Hin|cbn; lia]. }
  rewrite decide_True by exact Hlen.
  pose proof (floor_index_in_range (rnd (randomCalls st))
                (length (liveTargets st)) (Hrnd _) Hlen) as Hidx.
  apply lookup_lt_is_Some_2 in Hidx as [target Htarget].
  rewrite Htarget. eexists. split; [reflexivity|]. cbn.
  split.
  { apply list_elem_of_lookup_2 in Htarget. unfold liveTargets in Htarget.
    apply elem_of_app in Htarget as [Hin|Hin];
      apply list_elem_of_fmap in Hin as (x & -> & Hin);
      apply list_elem_of_filter in Hin as [Ha Hin]; [left|right];
      exists x; by repeat split. }
  split; [reflexivity|]. split; [reflexivity|].
  split; [exists (rnd (S (S (randomCalls st)))); split; [apply Hrnd|done]|].
  destruct (Hrnd (S (S (S (randomCalls st))))).
  split; [lra|].
  intros Hreach Hp. rewrite (playing_loopScore rnd st Hreach Hp). lra.
Qed.

Lemma spawn_aims_at_a_live_installation_witness :
  exists r,
    rocketsRef (spawnRockets rndHalf 16 stSpawnDue)
    = rocketsRef stSpawnDue ++ [r] /\
    rocket_y r = -20 /\ rocket_progress r = 0 /\
    0.0015 <= rocket_speed r < 0.003.
Proof.
  destruct (spawn_aims_at_a_live_installation rndHalf 16 stSpawnDue)
    as (r & Hr & _ & Hy & Hp & _ & Hs & _).
  - exact rndHalf_inUnit.
  - unfold spawnRate. cbn. rminmax. lra.
  - right. eexists. split; [apply list_elem_of_here|reflexivity].
  - exists r. cbn in Hs. repeat split; [exact Hr|exact Hy|exact Hp|lra|lra].
Defined.

(** X5. When the spawn timer has run out in a PLAYING state the component
    reaches, a rocket is always appended, [Math.random()] answering in
    [0, 1): a tower is alive there, so that the guard [targets.length > 0]
    does not fail.  Were no city and no tower alive, [spawnRockets] would
    set the timer back to 0 and do nothing else: no rocket, no call of
    [Math.random()]. *)
Theorem a_due_spawn_sends_a_rocket rnd delta st :
  spawnTimerRef st + delta > spawnRate (loopScore st) ->
  (inUnit rnd -> reachable rnd st -> gameState st = PLAYING ->
   exists r, rocketsRef (spawnRockets rnd delta st) = rocketsRef st ++ [r]) /\
  ((forall c, c ∈ citiesRef st -> city_alive c = false) ->
   (forall t, t ∈ towersRef st -> tower_alive t = false) ->
   spawnRockets rnd delta st = set_spawnTimer 0 st).
Proof.
  intros Hdue. split.
  { intros Hrnd Hreach Hp. apply spawn_one; [exact Hrnd|exact Hdue|].
    apply live_tower_target. by apply (playing_has_live_tower rnd). }
  intros Hc Ht.
  rewrite (spawnRockets_due rnd delta st Hdue). cbn zeta.
  assert (Hnil : liveTargets st = []).
  { unfold liveTargets.
    rewrite (filter_Forall_none (fun c => city_alive c = true)).
    2:{ apply Forall_forall. intros c Hin. rewrite (Hc c Hin). discriminate. }
    rewrite (filter_Forall_none (fun t => tower_alive t = true)).
    2:{ apply Forall_forall. intros t Hin. rewrite (Ht t Hin). discriminate. }
    reflexivity. }
  rewrite Hnil. cbn. reflexivity.
Qed.

Lemma a_due_spawn_sends_a_rocket_witness :
  exists r,
    rocketsRef (spawnRockets rndHalf 1001 (begin 5000 initialState))
    = rocketsRef (begin 5000 initialState) ++ [r].
Proof.
  assert (Hbegin : begin 5000 initialState
                   = set_loopScore 0 (initGame 5000 initialState)).
  { unfold begin, runLoopEffect. rewrite decide_False; [reflexivity|].
    discriminate. }
  assert (Hdue : spawnTimerRef (begin 5000 initialState) + 1001
                 > spawnRate (loopScore (begin 5000 initialState))).
  { rewrite Hbegin. unfold spawnRate. cbn. rminmax. lra. }
  apply (proj1 (a_due_spawn_sends_a_rocket rndHalf 1001
                  (begin 5000 initialState) Hdue)).
  - exact rndHalf_inUnit.
  - apply reach_begin, reach_mount.
  - by rewrite Hbegin.
Defined.

(** ** How fast rockets come *)

Lemma spawned_spec rnd delta st :
  rocketsRef (spawnRockets rnd delta st)
  = rocketsRef st ++ spawned rnd delta st /\
  (length (spawned rnd delta st) <= 1)%nat.
Proof.
  destruct (spawnRockets_spec rnd delta st)
    as (_ & _ & _ & _ & _ & _ & _ & _ & new & Hr & Hlen & _).
  unfold spawned. rewrite Hr, drop_app_length. by split.
Qed.

Lemma spawned_quiet rnd delta st :
  spawnTimerRef st + delta <= 266 -> spawned rnd delta st = [].
Proof.
  intros Ht. unfold spawned. rewrite spawnRockets_quiet.
  - apply drop_all.
  - pose proof (Rmax_l 266 (1000 - loopScore st / 100 * 66)). lra.
Qed.

Lemma spawned_timer rnd delta st :
  spawned rnd delta st <> [] -> spawnTimerRef (spawnRockets rnd delta st) = 0.
Proof.
  intros Hnew.
  destruct (decide (spawnTimerRef st + delta
                    > Rmax 266 (1000 - loopScore st / 100 * 66))) as [Hd|Hd].
  - unfold spawnRockets. cbn. rewrite decide_True by exact Hd. cbn.
    destruct (decide _); [|reflexivity]. cbn.
    destruct (_ !! _); reflexivity.
  - exfalso. apply Hnew. unfold spawned.
    rewrite spawnRockets_quiet by lra. apply drop_all.
Qed.

(** X6. A PLAYING step appends at most one rocket to those in flight before
    it moves them: the rockets after the step are rockets of before the step
    or that one, advanced.  It appends none when the spawn timer is at 166
    or less before the step; and after a step that has appended one the
    timer is 0, so that the next step, whatever its length, appends none:
    rockets never come in two steps running. *)
Theorem rockets_come_one_at_a_time rnd dt st :
  gameState st = PLAYING ->
  let delta := Rmin dt 100 in
  let new := spawned rnd delta st in
  rocketsRef (spawnRockets rnd delta st) = rocketsRef st ++ new /\
  (length new <= 1)%nat /\
  rocketsRef (update rnd dt st)
    `sublist_of` (advanceRocket delta <$> (rocketsRef st ++ new)) /\
  (spawnTimerRef st <= 166 -> new = []) /\
  (new <> [] ->
   spawnTimerRef (update rnd dt st) = 0 /\
   forall dt', spawned rnd (Rmin dt' 100) (update rnd dt st) = []).
Proof.
  intros Hp. cbn zeta. set (delta := Rmin dt 100).
  destruct (spawned_spec rnd delta st) as [Hnew Hlen].
  rewrite (update_playing rnd dt st Hp). fold delta.
  set (s1 := spawnRockets rnd delta st) in *.
  destruct (updateRockets_spec rnd delta s1)
    as (Hr2 & _ & _ & _ & _ & _ & _ & _ & Hsp2 & _).
  set (s2 := updateRockets rnd delta s1) in *.
  destruct (updateInterceptors_spec rnd delta s2)
    as (_ & _ & _ & _ & Hr3 & _ & _ & _ & Hsp3 & _).
  set (s3 := updateInterceptors rnd delta s2) in *.
  destruct (updateExplosions_spec rnd delta s3)
    as (Hr4 & _ & (_ & _ & _ & _ & Hsp4 & _)).
  split; [exact Hnew|]. split; [exact Hlen|]. split; [|split].
  - rewrite Hr4, Hr3, Hr2, Hnew.
    etrans; [apply sublist_filter|apply sublist_filter].
  - intros Htimer. apply spawned_quiet.
    pose proof (Rmin_r dt 100). fold delta in H. lra.
  - intros Hne.
    assert (Hzero : spawnTimerRef
                      (updateExplosions rnd delta s3) = 0).
    { rewrite Hsp4, Hsp3, Hsp2. by apply spawned_timer. }
    split; [exact Hzero|]. intros dt'. apply spawned_quiet.
    rewrite Hzero. pose proof (Rmin_r dt' 100). lra.
Qed.

Lemma rockets_come_one_at_a_time_witness :
  length (spawned rndHalf 16 stSpawnDue) = 1%nat /\
  spawnTimerRef (update rndHalf 16 stSpawnDue) = 0 /\
  spawned rndHalf 16 (update rndHalf 16 stSpawnDue) = [].
Proof.
  assert (Hmin : Rmin 16 100 = 16) by (apply Rmin_left; lra).
  destruct (rockets_come_one_at_a_time rndHalf 16 stSpawnDue eq_refl)
    as (Hnew & Hlen & _ & _ & Hnext).
  rewrite Hmin in Hnew, Hnext.
  assert (Hone : length (spawned rndHalf 16 stSpawnDue) = 1%nat).
  { destruct (spawn_one rndHalf 16 stSpawnDue rndHalf_inUnit) as (r & Hr).
    - unfold spawnRate. cbn. rminmax. lra.
    - unfold liveTargets. cbn. rewrite decide_True by reflexivity. cbn. lia.
    - rewrite Hr in Hnew. apply app_inv_head in Hnew. by rewrite <- Hnew. }
  assert (Hne : spawned rndHalf 16 stSpawnDue <> []).
  { intros Hnil. rewrite Hnil in Hone. discriminate. }
  destruct (Hnext Hne) as [Hzero Hnone].
  split; [exact Hone|]. split; [exact Hzero|].
  specialize (Hnone 16). by rewrite Hmin in Hnone.
Defined.

Section Idle.

Variable rnd : nat -> R.

(** A step of a game with nothing in flight whose spawn timer does not
    run out. *)
Lemma update_idle dt s :
  gameState s = PLAYING -> loopScore s = 0 ->
  rocketsRef s = [] -> interceptorsRef s = [] -> explosionsRef s = [] ->
  spawnTimerRef s + Rmin dt 100 <= 1000 ->
  update rnd dt s = set_spawnTimer (spawnTimerRef s + Rmin dt 100) s.
Proof.
  intros Hp Hsc Hr Hi He Ht. rewrite (update_playing rnd dt s Hp).
  rewrite spawnRockets_quiet.
  2:{ rewrite Hsc. eapply Rle_trans; [exact Ht|].
      eapply Rle_trans; [|apply Rmax_r]. lra. }
  rewrite updateRockets_none by exact Hr.
  rewrite updateInterceptors_none by exact Hi.
  unfold updateExplosions. cbn. by rewrite He.
Qed.

Lemma run_idle dts :
  forall s n,
    gameState s = PLAYING -> score s = 0 -> loopScore s = 0 ->
    rocketsRef s = [] -> interceptorsRef s = [] -> explosionsRef s = [] ->
    spawnTimerRef s <= 100 * INR n -> (n + length dts <= 10)%nat ->
    gameState (run rnd dts s) = PLAYING /\ score (run rnd dts s) = 0 /\
    rocketsRef (run rnd dts s) = [] /\ interceptorsRef (run rnd dts s) = [] /\
    explosionsRef (run rnd dts s) = [] /\
    citiesRef (run rnd dts s) = citiesRef s /\
    towersRef (run rnd dts s) = towersRef s.
Proof.
  induction dts as [|dt dts IH]; intros s n Hp Hsc Hls Hr Hi He Ht Hn.
  - by repeat split.
  - cbn [length] in Hn. unfold run. cbn [foldl].
    fold (run rnd dts (update rnd dt s)).
    assert (Hbound : spawnTimerRef s + Rmin dt 100 <= 100 * INR (S n)).
    { rewrite S_INR. pose proof (Rmin_r dt 100). lra. }
    assert (Hten : INR (S n) <= 10).
    { assert (H10 : INR 10 = 10) by (cbn; lra). rewrite <- H10.
      apply le_INR. lia. }
    rewrite (update_idle dt s Hp Hls Hr Hi He) by lra.
    assert (Hn' : (S n + length dts <= 10)%nat) by lia.
    exact (IH (set_spawnTimer (spawnTimerRef s + Rmin dt 100) s) (S n)
              Hp Hsc Hls Hr Hi He Hbound Hn').
Qed.

End Idle.

(** X7. After a press of the start button outside the PLAYING phase, where
    the button is shown, the first ten steps, whatever their lengths, bring
    no rocket: the game is still PLAYING at score 0 with nothing in flight
    and the towers and cities as [initGame] placed them. *)
Theorem first_ten_steps_spawn_nothing rnd now st dts :
  gameState st <> PLAYING -> (length dts <= 10)%nat ->
  let s := run rnd dts (begin now st) in
  gameState s = PLAYING /\ score s = 0 /\
  rocketsRef s = [] /\ interceptorsRef s = [] /\ explosionsRef s = [] /\
  citiesRef s = citiesRef (initGame now st) /\
  towersRef s = towersRef (initGame now st).
Proof.
  intros Hp Hlen. cbn zeta.
  assert (Hbegin : begin now st = set_loopScore 0 (initGame now st)).
  { unfold begin, runLoopEffect. rewrite decide_False; [reflexivity|].
    cbn. congruence. }
  rewrite Hbegin.
  apply (run_idle rnd dts (set_loopScore 0 (initGame now st)) 0);
    try reflexivity.
  - cbn. lra.
  - lia.
Qed.

Lemma first_ten_steps_spawn_nothing_witness :
  rocketsRef (run rndHalf [16; 250; 16; 100; 33; 16; 16; 400; 16; 16]
                  (begin 5000 stWon)) = [].
Proof.
  destruct (first_ten_steps_spawn_nothing rndHalf 5000 stWon
              [16; 250; 16; 100; 33; 16; 16; 400; 16; 16])
    as (_ & _ & Hr & _).
  - discriminate.
  - cbn. lia.
  - exact Hr.
Defined.

(** ** The loops over the projectiles *)

(** X8. The interceptor loop advances every interceptor; those that reach
    progress 1 are removed and each leaves one explosion at its target, with
    radius 0, maxRadius 50 and expanding, in the order of the loop (last
    index first); the others stay, in order.  The loop touches neither the
    rockets, nor the cities and towers, nor the score and the phase. *)
Theorem interceptors_detonate_at_their_target rnd delta st :
  let st' := updateInterceptors rnd delta st in
  let flown := advanceInterceptor delta <$> interceptorsRef st in
  interceptorsRef st' = filter (fun i => ~ arrived i) flown /\
  (exists bursts,
      explosionsRef st' = explosionsRef st ++ bursts /\
      Forall2 (fun e i =>
                 exp_x e = inter_targetX i /\ exp_y e = inter_targetY i /\
                 exp_radius e = 0 /\ exp_maxRadius e = 50 /\
                 exp_expanding e = true)
              bursts (reverse (filter arrived flown))) /\
  rocketsRef st' = rocketsRef st /\ citiesRef st' = citiesRef st /\
  towersRef st' = towersRef st /\ score st' = score st /\
  gameState st' = gameState st.
Proof.
  cbn zeta.
  destruct (updateInterceptors_spec rnd delta st)
    as (Hi & (bursts & He & Hb) & Hg & Hs & Hr & Hc & Ht & _).
  split; [exact Hi|]. split; [|by repeat split].
  exists bursts. split; [exact He|].
  eapply Forall2_impl; [exact Hb|].
  intros e i (rho & ->). by repeat split.
Qed.

(** X9. The rocket loop advances every rocket; those that reach progress 1
    are removed and each leaves one explosion at its target, with radius 0,
    maxRadius 40 and expanding, in the order of the loop; the others stay,
    in order.  The phase becomes LOST exactly when a rocket has landed and
    every tower is dead after the loop, and is otherwise left as it was; the
    score and the interceptors are not touched. *)
Theorem rockets_land_at_their_target rnd delta st :
  let st' := updateRockets rnd delta st in
  let flown := advanceRocket delta <$> rocketsRef st in
  rocketsRef st' = filter (fun r => ~ impacted r) flown /\
  (exists impacts,
      explosionsRef st' = explosionsRef st ++ impacts /\
      Forall2 (fun e r =>
                 exp_x e = rocket_targetX r /\ exp_y e = rocket_targetY r /\
                 exp_radius e = 0 /\ exp_maxRadius e = 40 /\
                 exp_expanding e = true)
              impacts (reverse (filter impacted flown))) /\
  gameState st' =
    (if decide (filter impacted flown <> [] /\
                allTowersDead (towersRef st') = true)
     then LOST else gameState st) /\
  score st' = score st /\ interceptorsRef st' = interceptorsRef st.
Proof.
  cbn zeta.
  destruct (updateRockets_spec rnd delta st)
    as (Hr & _ & _ & (impacts & He & Hi) & Hg & Hs & Hin & _).
  split; [exact Hr|]. split.
  { exists impacts. split; [exact He|].
    eapply Forall2_impl; [exact Hi|].
    intros e r (rho & ->). by repeat split. }
  split; [|by split].
  rewrite Hg. unfold impacting. rewrite length_reverse.
  destruct (filter impacted _) as [|r l]; cbn [length].
  - rewrite decide_False by (intros [? _]; lia).
    rewrite decide_False by (intros [? _]; done). reflexivity.
  - destruct (allTowersDead _).
    + rewrite decide_True by (split; [lia|done]).
      rewrite decide_True by (split; done). reflexivity.
    + rewrite decide_False by (intros [_ ?]; done).
      rewrite decide_False by (intros [_ ?]; done). reflexivity.
Qed.

(** ** What becomes of the cities and the towers *)

Lemma with_tower_alive_twice t :
  with_tower_alive false (with_tower_alive false t) = with_tower_alive false t.
Proof. reflexivity. Qed.

Lemma towerDecay_trans a b c :
  towerDecay a b -> towerDecay b c -> towerDecay a c.
Proof. intros [->| ->] [->| ->]; (by left) || (by right). Qed.

Lemma cityDecay_trans a b c :
  cityDecay a b -> cityDecay b c -> cityDecay a c.
Proof. intros [->| ->] [->| ->]; (by left) || (by right). Qed.

Lemma killTower_decay x y ts : Forall2 towerDecay ts (killTower x y ts).
Proof.
  unfold killTower. destruct (list_find _ ts) as [[k ?]|].
  - clear. revert k. induction ts as [|t ts IH]; intros k; [constructor|].
    destruct k as [|k]; cbn.
    + constructor; [by right|].
      apply Forall_Forall2_diag, Forall_forall. intros ? _. by left.
    + constructor; [by left|apply IH].
  - apply Forall_Forall2_diag, Forall_forall. intros ? _. by left.
Qed.

Lemma killCity_decay x y cs : Forall2 cityDecay cs (killCity x y cs).
Proof.
  unfold killCity. destruct (list_find _ cs) as [[k ?]|].
  - clear. revert k. induction cs as [|c cs IH]; intros k; [constructor|].
    destruct k as [|k]; cbn.
    + constructor; [by right|].
      apply Forall_Forall2_diag, Forall_forall. intros ? _. by left.
    + constructor; [by left|apply IH].
  - apply Forall_Forall2_diag, Forall_forall. intros ? _. by left.
Qed.

Lemma foldl_killTower_decay (l : list Rocket) ts :
  Forall2 towerDecay ts
    (foldl (fun ts r => killTower (rocket_targetX r) (rocket_targetY r) ts)
           ts l).
Proof.
  revert ts. induction l as [|r l IH]; intros ts; cbn.
  - apply Forall_Forall2_diag, Forall_forall. intros ? _. by left.
  - eapply Forall2_trans; [apply towerDecay_trans|apply killTower_decay|].
    apply IH.
Qed.

Lemma foldl_killCity_decay (l : list Rocket) cs :
  Forall2 cityDecay cs
    (foldl (fun cs r => killCity (rocket_targetX r) (rocket_targetY r) cs)
           cs l).
Proof.
  revert cs. induction l as [|r l IH]; intros cs; cbn.
  - apply Forall_Forall2_diag, Forall_forall. intros ? _. by left.
  - eapply Forall2_trans; [apply cityDecay_trans|apply killCity_decay|].
    apply IH.
Qed.

(** What a step makes of the cities and the towers. *)
Lemma update_installations rnd dt st :
  gameState st = PLAYING ->
  let hit := impacting (Rmin dt 100)
               (rocketsRef (spawnRockets rnd (Rmin dt 100) st)) in
  citiesRef (update rnd dt st) =
    foldl (fun cs r => killCity (rocket_targetX r) (rocket_targetY r) cs)
          (citiesRef st) hit /\
  towersRef (update rnd dt st) =
    foldl (fun ts r => killTower (rocket_targetX r) (rocket_targetY r) ts)
          (towersRef st) hit.
Proof.
  intros Hp. cbn zeta. rewrite (update_playing rnd dt st Hp).
  set (delta := Rmin dt 100).
  destruct (spawnRockets_spec rnd delta st)
    as (_ & _ & _ & _ & Hc1 & Ht1 & _).
  set (s1 := spawnRockets rnd delta st) in *.
  destruct (updateRockets_spec rnd delta s1) as (_ & Hc2 & Ht2 & _).
  set (s2 := updateRockets rnd delta s1) in *.
  destruct (updateInterceptors_spec rnd delta s2)
    as (_ & _ & _ & _ & _ & Hc3 & Ht3 & _).
  set (s3 := updateInterceptors rnd delta s2) in *.
  destruct (updateExplosions_spec rnd delta s3)
    as (_ & _ & (Hc4 & Ht4 & _)).
  by rewrite Hc4, Ht4, Hc3, Ht3, Hc2, Ht2, Hc1, Ht1.
Qed.

(** X10. A step never adds, removes, moves or renames a city or a tower,
    and never revives one: each is after the step what it was before, or
    the same with [alive] false. *)
Theorem installations_only_decay rnd dt st :
  Forall2 cityDecay (citiesRef st) (citiesRef (update rnd dt st)) /\
  Forall2 towerDecay (towersRef st) (towersRef (update rnd dt st)).
Proof.
  destruct (decide (gameState st = PLAYING)) as [Hp|Hp].
  2:{ rewrite (update_not_playing rnd dt st Hp).
      split; apply Forall_Forall2_diag, Forall_forall; intros ? _; by left. }
  destruct (update_installations rnd dt st Hp) as [-> ->].
  split; [apply foldl_killCity_decay|apply foldl_killTower_decay].
Qed.

Lemma killTower_other x y ts k t :
  ts !! k = Some t -> ~ (tower_x t = x /\ tower_y t = y) ->
  killTower x y ts !! k = Some t.
Proof.
  intros Hk Hno. unfold killTower.
  destruct (list_find _ ts) as [[j tj]|] eqn:Hf; [|exact Hk].
  apply list_find_Some in Hf as (Hj & Hat & _).
  destruct (decide (j = k)) as [->|Hne].
  - rewrite Hk in Hj. injection Hj as ->. contradiction.
  - by rewrite list_lookup_alter_ne.
Qed.

Lemma killCity_other x y cs k c :
  cs !! k = Some c -> ~ (city_x c = x /\ city_y c = y) ->
  killCity x y cs !! k = Some c.
Proof.
  intros Hk Hno. unfold killCity.
  destruct (list_find _ cs) as [[j cj]|] eqn:Hf; [|exact Hk].
  apply list_find_Some in Hf as (Hj & Hat & _).
  destruct (decide (j = k)) as [->|Hne].
  - rewrite Hk in Hj. injection Hj as ->. contradiction.
  - by rewrite list_lookup_alter_ne.
Qed.

(** A rocket does not land in the step that spawns it. *)
Lemma fresh_rocket_flies rnd delta sc r :
  inUnit rnd -> 0 <= sc < 1000 -> delta <= 100 ->
  freshRocket rnd sc r -> ~ impacted (advanceRocket delta r).
Proof.
  intros Hrnd Hsc Hd (Hp & k & Hs). unfold impacted, advanceRocket. cbn.
  rewrite Hp, Hs. destruct (Hrnd k) as [Hk0 Hk1].
  set (speed := 0.0015 + rnd k * 0.0015 + sc / 100000).
  assert (Hsp : 0 <= speed <= 0.013) by (subst speed; lra).
  assert (Hq : delta / 16.67 <= 6) by lra.
  intros Hge.
  destruct (Rle_lt_dec 0 (delta / 16.67)) as [Hpos|Hneg]; nra.
Qed.

(** The rockets that land in a step were in flight before it, and keep
    their target. *)
Lemma landing_rockets rnd dt st r' :
  inUnit rnd -> 0 <= loopScore st < 1000 ->
  r' ∈ impacting (Rmin dt 100)
         (rocketsRef (spawnRockets rnd (Rmin dt 100) st)) ->
  exists r, r ∈ rocketsRef st /\
            impacted (advanceRocket (Rmin dt 100) r) /\
            rocket_targetX r' = rocket_targetX r /\
            rocket_targetY r' = rocket_targetY r.
Proof.
  intros Hrnd Hsc Hin. unfold impacting in Hin.
  apply elem_of_reverse, list_elem_of_filter in Hin as [Himp Hin].
  apply list_elem_of_fmap in Hin as (r & -> & Hin).
  destruct (spawnRockets_spec rnd (Rmin dt 100) st)
    as (_ & _ & _ & _ & _ & _ & _ & _ & new & Hr1 & _ & Hnew).
  rewrite Hr1 in Hin. apply elem_of_app in Hin as [Hin|Hin].
  - exists r. by repeat split.
  - exfalso. refine (fresh_rocket_flies rnd _ (loopScore st) r Hrnd Hsc _ _ Himp).
    + apply Rmin_r.
    + exact (proj1 (Forall_forall _ _) Hnew r Hin).
Qed.

(** X11. A city or a tower is left exactly as it was by every step in
    which no rocket aimed at its coordinates lands: installations fall to
    nothing but the impact of a rocket with their position as target.
    (The score that the [update] of the frame loop holds under 1000 and not
    negative, and [Math.random()] in [0, 1), as while the game is played,
    where that score is 0.) *)
Theorem installations_fall_only_to_rockets_aimed_at_them rnd dt st :
  inUnit rnd -> 0 <= loopScore st < 1000 ->
  (forall k t,
      towersRef st !! k = Some t ->
      (forall r, r ∈ rocketsRef st ->
                 impacted (advanceRocket (Rmin dt 100) r) ->
                 ~ (tower_x t = rocket_targetX r /\
                    tower_y t = rocket_targetY r)) ->
      towersRef (update rnd dt st) !! k = Some t) /\
  (forall k c,
      citiesRef st !! k = Some c ->
      (forall r, r ∈ rocketsRef st ->
                 impacted (advanceRocket (Rmin dt 100) r) ->
                 ~ (city_x c = rocket_targetX r /\
                    city_y c = rocket_targetY r)) ->
      citiesRef (update rnd dt st) !! k = Some c).
Proof.
  intros Hrnd Hsc.
  destruct (decide (gameState st = PLAYING)) as [Hp|Hp].
  2:{ rewrite (update_not_playing rnd dt st Hp). by split. }
  destruct (update_installations rnd dt st Hp) as [Hc Ht].
  pose proof (landing_rockets rnd dt st) as Hland.
  revert Hc Ht Hland.
  generalize (impacting (Rmin dt 100)
                (rocketsRef (spawnRockets rnd (Rmin dt 100) st))).
  intros hit -> -> Hland. split.
  - intros k t Hk Hno.
    assert (Hhit : forall r', r' ∈ hit ->
               ~ (tower_x t = rocket_targetX r' /\
                  tower_y t = rocket_targetY r')).
    { intros r' Hr'. destruct (Hland r' Hrnd Hsc Hr') as (r & Hr & Hi & -> & ->).
      by apply Hno. }
    clear Hland Hno. revert Hk Hhit. generalize (towersRef st).
    induction hit as [|r' hit IH]; intros ts Hk Hhit; [exact Hk|].
    cbn. apply IH.
    + apply killTower_other; [exact Hk|]. apply Hhit, list_elem_of_here.
    + intros r'' Hr''. by apply Hhit, list_elem_of_further.
  - intros k c Hk Hno.
    assert (Hhit : forall r', r' ∈ hit ->
               ~ (city_x c = rocket_targetX r' /\
                  city_y c = rocket_targetY r')).
    { intros r' Hr'. destruct (Hland r' Hrnd Hsc Hr') as (r & Hr & Hi & -> & ->).
      by apply Hno. }
    clear Hland Hno. revert Hk Hhit. generalize (citiesRef st).
    induction hit as [|r' hit IH]; intros cs Hk Hhit; [exact Hk|].
    cbn. apply IH.
    + apply killCity_other; [exact Hk|]. apply Hhit, list_elem_of_here.
    + intros r'' Hr''. by apply Hhit, list_elem_of_further.
Qed.

Lemma installations_fall_only_to_rockets_aimed_at_them_witness :
  towersRef (update rndHalf 16 stTriple) !! 0%nat
  = Some (mkTower (id_tower 0) 10 510 true (Some 40) (Some 40)).
Proof.
  refine (proj1 (installations_fall_only_to_rockets_aimed_at_them
                   rndHalf 16 stTriple rndHalf_inUnit _) 0%nat _ eq_refl _).
  - cbn. lra.
  - intros r Hr Hi. exfalso. cbn in Hr. unfold impacted in Hi.
    revert Hi. rminmax.
    repeat (apply elem_of_cons in Hr as [->|Hr]; [cbn; lra|]).
    inversion Hr.
Defined.

(** ** What a tap leaves alone *)

Lemma burst_frame rnd tower x y n st :
  let st' := Nat.iter n (burstBody rnd tower x y) st in
  (exists burst, interceptorsRef st' = interceptorsRef st ++ burst /\
                 length burst = n) /\
  gameState st' = gameState st /\ score st' = score st /\
  rocketsRef st' = rocketsRef st /\ explosionsRef st' = explosionsRef st /\
  citiesRef st' = citiesRef st /\ towersRef st' = towersRef st /\
  dimensionsRef st' = dimensionsRef st /\
  lastTimeRef st' = lastTimeRef st /\ spawnTimerRef st' = spawnTimerRef st.
Proof.
  induction n as [|n IH]; cbn zeta.
  - split; [|by repeat split]. exists []. by rewrite app_nil_r.
  - cbn [Nat.iter nat_rect]. cbn zeta in IH.
    change (nat_rect _ st _ n)
      with (Nat.iter n (burstBody rnd tower x y) st) in *.
    set (s := Nat.iter n (burstBody rnd tower x y) st) in *.
    destruct IH as ((burst & Hb & Hl) & Hg & Hs & Hr & He & Hc & Ht & Hd & Hlt & Hsp).
    unfold burstBody. cbn. split.
    + eexists (burst ++ [_]). rewrite Hb, <- app_assoc. split; [reflexivity|].
      rewrite length_app. cbn. lia.
    + by repeat split.
Qed.

Lemma handleCanvasClick_cases rnd canvas e st :
  handleCanvasClick rnd canvas e st = st \/
  exists tower x y,
    handleCanvasClick rnd canvas e st
    = Nat.iter 5 (burstBody rnd tower x y) st.
Proof.
  unfold handleCanvasClick. destruct (gameState st); try (by left).
  destruct canvas as [cv|]; [|by left].
  destruct (match e with
            | MouseEvent clientX clientY => Some (mkPoint clientX clientY)
            | TouchEvent touches => touches !! 0%nat
            end) as [c|]; [|by left].
  cbn zeta. destruct (Array_sort _ _) as [|tower sorted]; [by left|].
  right. by do 3 eexists.
Qed.

(** X12. Whatever the phase, the canvas and the event, a tap only appends
    to the interceptors, none or five of them: the interceptors in flight
    stay, and the score, the phase, the rockets, the explosions, the cities,
    the towers, the dimensions and the timers are not touched. *)
Theorem tap_only_appends_interceptors rnd canvas e st :
  let st' := handleCanvasClick rnd canvas e st in
  (exists burst, interceptorsRef st' = interceptorsRef st ++ burst /\
                 (length burst = 0 \/ length burst = 5)%nat) /\
  gameState st' = gameState st /\ score st' = score st /\
  rocketsRef st' = rocketsRef st /\ explosionsRef st' = explosionsRef st /\
  citiesRef st' = citiesRef st /\ towersRef st' = towersRef st /\
  dimensionsRef st' = dimensionsRef st /\
  lastTimeRef st' = lastTimeRef st /\ spawnTimerRef st' = spawnTimerRef st.
Proof.
  cbn zeta.
  destruct (handleCanvasClick_cases rnd canvas e st)
    as [->|(tower & x & y & ->)].
  - split; [|by repeat split].
    exists []. rewrite app_nil_r. split; [done|by left].
  - destruct (burst_frame rnd tower x y 5 st) as ((burst & Hb & Hl) & Hrest).
    split; [|exact Hrest]. exists burst. split; [exact Hb|by right].
Qed.

(** ** The phase *)

Lemma update_phase rnd dt st :
  gameState st = PLAYING ->
  exists kills : nat,
    score (update rnd dt st) = score st + 20 * INR kills /\
    gameState (update rnd dt st) =
      phaseAfterKills kills (score (update rnd dt st))
        (if decide ((0 < length (impacting (Rmin dt 100)
                       (rocketsRef (spawnRockets rnd (Rmin dt 100) st))))%nat
                    /\ allTowersDead (towersRef (update rnd dt st)) = true)
         then LOST else PLAYING).
Proof.
  intros Hp. rewrite (update_playing rnd dt st Hp).
  set (delta := Rmin dt 100).
  destruct (spawnRockets_spec rnd delta st) as (Hg1 & Hs1 & _).
  set (s1 := spawnRockets rnd delta st) in *.
  destruct (updateRockets_spec rnd delta s1)
    as (_ & _ & _ & _ & Hg2 & Hs2 & _).
  set (s2 := updateRockets rnd delta s1) in *.
  destruct (updateInterceptors_spec rnd delta s2)
    as (_ & _ & Hg3 & Hs3 & _ & _ & Ht3 & _).
  set (s3 := updateInterceptors rnd delta s2) in *.
  destruct (updateExplosions_spec rnd delta s3)
    as (_ & (chains & killed & _ & _ & _ & Hs4 & Hg4) & (_ & Ht4 & _)).
  exists (length chains). split; [rewrite Hs4; lra|].
  by rewrite Hg4, Hg3, Hg2, Hg1, Hp, Ht4, Ht3.
Qed.

(** X13. No operation but [initGame] takes the phase anywhere except from
    PLAYING to WON or to LOST.  A step, and so a turn of the frame loop,
    which runs one, keeps the phase or ends the game (PLAYING to WON or to
    LOST), and outside PLAYING the step changes nothing at all; a tap, a
    rendering, a resize and the restart of the loop after a render leave the
    phase as it is; [initGame] always gives PLAYING. *)
Theorem phase_moves rnd dt canvas e time container now st :
  phaseMove (gameState st) (gameState (update rnd dt st)) /\
  (gameState st <> PLAYING -> update rnd dt st = st) /\
  gameState (handleCanvasClick rnd canvas e st) = gameState st /\
  gameState (draw rnd canvas st).2 = gameState st /\
  phaseMove (gameState st) (gameState (loop rnd canvas time st).2) /\
  gameState (handleResize container canvas st) = gameState st /\
  gameState (initGame now st) = PLAYING /\
  (forall before, gameState (runLoopEffect before st) = gameState st).
Proof.
  assert (Hup : forall dt s, phaseMove (gameState s)
                               (gameState (update rnd dt s))).
  { intros dt0 s. destruct (decide (gameState s = PLAYING)) as [Hp|Hp].
    2:{ rewrite (update_not_playing rnd dt0 s Hp). by left. }
    destruct (update_phase rnd dt0 s Hp) as (k & _ & ->).
    rewrite Hp. unfold phaseAfterKills.
    destruct (decide _); [right; split; [done|by left]|].
    destruct (decide _); [right; split; [done|by right]|by left]. }
  assert (Hdraw : forall s, gameState (draw rnd canvas s).2 = gameState s).
  { intros s. by destruct (draw_state rnd canvas s) as [->| ->]. }
  split; [apply Hup|]. split; [apply update_not_playing|].
  split.
  { destruct (handleCanvasClick_cases rnd canvas e st)
      as [->|(tower & x & y & ->)]; [done|].
    by destruct (burst_frame rnd tower x y 5 st) as (_ & Hg' & _). }
  split; [apply Hdraw|]. split.
  { unfold loop. rewrite Hdraw.
    apply (Hup (time - lastTimeRef st) (set_lastTime time st)). }
  split; [unfold handleResize; by destruct container, canvas|].
  split; [reflexivity|].
  intros before. apply runLoopEffect_fields.
Qed.

Lemma phaseFits_runLoopEffect before st :
  phaseFits st -> phaseFits (runLoopEffect before st).
Proof.
  destruct (runLoopEffect_fields before st)
    as (Hg & Hs & Hr & Hi & He & Hc & Ht & _).
  unfold phaseFits. by rewrite Hg, Hs, Hr, Hi, He, Hc, Ht.
Qed.

Lemma update_phaseFits rnd dt st :
  phaseFits st -> phaseFits (update rnd dt st).
Proof.
  intros Hfit.
  destruct (decide (gameState st = PLAYING)) as [Hp|Hp].
  2:{ by rewrite (update_not_playing rnd dt st Hp). }
  assert (Hlive : gameState st = PLAYING ->
                  allTowersDead (towersRef st) = false).
  { intros _. unfold phaseFits in Hfit. rewrite Hp in Hfit. apply Hfit. }
  pose proof (update_keeps_live_tower rnd dt st Hlive) as Hkeep.
  destruct (update_phase rnd dt st Hp) as (k & Hs & Hg).
  unfold phaseFits in *. rewrite Hp in Hfit. destruct Hfit as [_ Hsc].
  revert Hkeep. rewrite Hg. unfold phaseAfterKills, TARGET_SCORE in *.
  destruct (decide (_ /\ score _ >= _)) as [[Hk Hge]|Hno]; [intros _; exact Hge|].
  destruct (decide _) as [[_ Hdead]|Hno']; [intros _; exact Hdead|].
  intros Hkeep. split; [by apply Hkeep|].
  destruct k as [|k].
  - rewrite Hs. change (INR 0) with 0. lra.
  - apply Rnot_ge_lt. intros Hge. apply Hno. split; [lia|exact Hge].
Qed.

(** X14. In every state the component reaches the phase tells the outcome:
    while PLAYING a tower is alive and the score is under 1000; WON, the
    score is 1000 or more; LOST, every tower is dead; and at START there is no
    score and nothing on the field. *)
Theorem phase_tells_the_outcome rnd st :
  reachable rnd st -> phaseFits st.
Proof.
  induction 1 as [|now st _ IH|canvas time st _ IH
                  |canvas e st _ IH|container canvas st _ IH].
  - unfold phaseFits. cbn. by repeat split.
  - apply phaseFits_runLoopEffect.
    unfold phaseFits, TARGET_SCORE. cbn. split; [reflexivity|lra].
  - apply phaseFits_runLoopEffect. unfold loop.
    assert (Hfit : phaseFits (set_lastTime time st)) by exact IH.
    apply (update_phaseFits rnd (time - lastTimeRef st)) in Hfit.
    by destruct (draw_state rnd canvas
                   (update rnd (time - lastTimeRef st)
                           (set_lastTime time st))) as [->| ->].
  - destruct (handleCanvasClick_cases rnd canvas e st)
      as [Heq|(tower & x & y & Heq)]; [by rewrite Heq|].
    assert (Hpl : gameState st = PLAYING).
    { revert Heq. unfold handleCanvasClick.
      destruct (gameState st); try done; intros Heq;
        apply (f_equal (fun s => length (interceptorsRef s))) in Heq;
        destruct (burst_frame rnd tower x y 5 st) as ((b & Hb & Hl) & _);
        rewrite Hb, length_app in Heq; lia. }
    rewrite Heq.
    destruct (burst_frame rnd tower x y 5 st)
      as (_ & Hg & Hs & _ & _ & _ & Ht & _).
    unfold phaseFits in *. rewrite Hg. rewrite Hpl in *.
    by rewrite Hs, Ht.
  - unfold handleResize. by destruct container, canvas.
Qed.

Lemma phase_tells_the_outcome_witness :
  reachable rndHalf (frame rndHalf (Some someCanvas) 5016
                           (begin 5000 initialState)) /\
  phaseFits (frame rndHalf (Some someCanvas) 5016
                   (begin 5000 initialState)).
Proof.
  assert (Hreach : reachable rndHalf
                     (frame rndHalf (Some someCanvas) 5016
                            (begin 5000 initialState))).
  { apply reach_frame, reach_begin, reach_mount. }
  split; [exact Hreach|].
  exact (phase_tells_the_outcome rndHalf _ Hreach).
Defined.

(** ** The score *)

Lemma update_score rnd dt st :
  exists kills : nat, score (update rnd dt st) = score st + 20 * INR kills.
Proof.
  destruct (decide (gameState st = PLAYING)) as [Hp|Hp].
  - destruct (update_phase rnd dt st Hp) as (k & Hs & _). by exists k.
  - rewrite (update_not_playing rnd dt st Hp). exists 0%nat. cbn. lra.
Qed.

(** X15. In every state the component reaches the score is a multiple of
    20: it is 0 after [initGame] and grows by 20 for each kill. *)
Theorem score_is_a_multiple_of_20 rnd st :
  reachable rnd st -> exists n : nat, score st = 20 * INR n.
Proof.
  induction 1 as [|now st _ IH|canvas time st _ IH
                  |canvas e st _ IH|container canvas st _ IH].
  - exists 0%nat. cbn. lra.
  - exists 0%nat. unfold begin.
    destruct (runLoopEffect_fields (gameState st) (initGame now st))
      as (_ & -> & _). cbn. lra.
  - destruct IH as (n & Hn). unfold frame.
    destruct (runLoopEffect_fields (gameState st) (loop rnd canvas time st).2)
      as (_ & -> & _). unfold loop.
    destruct (update_score rnd (time - lastTimeRef st) (set_lastTime time st))
      as (k & Hk).
    exists (n + k)%nat. rewrite plus_INR.
    destruct (draw_state rnd canvas
                (update rnd (time - lastTimeRef st) (set_lastTime time st)))
      as [->| ->]; cbn [score set_randomCalls]; rewrite Hk; cbn; lra.
  - destruct IH as (n & Hn). exists n.
    destruct (handleCanvasClick_cases rnd canvas e st)
      as [->|(tower & x & y & ->)]; [exact Hn|].
    destruct (burst_frame rnd tower x y 5 st) as (_ & _ & Hs & _).
    by rewrite Hs.
  - destruct IH as (n & Hn). exists n.
    unfold handleResize. by destruct container, canvas.
Qed.

Lemma score_is_a_multiple_of_20_witness :
  exists n : nat,
    score (frame rndHalf (Some someCanvas) 5016
                 (begin 5000 initialState)) = 20 * INR n.
Proof.
  apply (score_is_a_multiple_of_20 rndHalf).
  apply reach_frame, reach_begin, reach_mount.
Defined.

(** ** Projectiles on their way *)

Lemma stepExplosion_radius delta e e' :
  0 <= delta -> 0 <= exp_radius e ->
  stepExplosion delta e = Some e' -> 0 <= exp_radius e'.
Proof.
  intros Hd Hr. unfold stepExplosion.
  assert (Hq : 0 <= delta / 16.67) by lra.
  destruct (exp_expanding e).
  - intros [= <-]. destruct (decide _); cbn; lra.
  - destruct (decide _) as [|Hpos]; [discriminate|].
    intros [= <-]. cbn in *. lra.
Qed.

(** X16. A step of [dt >= 0] keeps the projectiles on their way: if before
    it every rocket and interceptor has a progress in [0, 1) and every
    explosion a radius that is not negative, so it is after it.  (Scores
    and speeds not negative, [Math.random()] in [0, 1).) *)
Theorem projectiles_stay_on_their_way rnd dt st :
  inUnit rnd -> 0 <= dt -> wf st -> tidy st -> tidy (update rnd dt st).
Proof.
  intros Hrnd Hdt ([Hsc Hls] & Hrs & His) (Htr & Hti & Hte).
  destruct (decide (gameState st = PLAYING)) as [Hp|Hp].
  2:{ by rewrite (update_not_playing rnd dt st Hp). }
  rewrite (update_playing rnd dt st Hp).
  pose proof (delta_nonneg dt Hdt) as Hd.
  set (delta := Rmin dt 100) in *.
  destruct (spawnRockets_spec rnd delta st)
    as (_ & _ & Hi1 & He1 & _ & _ & _ & _ & new & Hr1 & _ & Hnew).
  set (s1 := spawnRockets rnd delta st) in *.
  destruct (updateRockets_spec rnd delta s1)
    as (Hr2 & _ & _ & (imp & He2 & Himp) & _ & _ & Hi2 & _).
  set (s2 := updateRockets rnd delta s1) in *.
  destruct (updateInterceptors_spec rnd delta s2)
    as (Hi3 & (bursts & He3 & Hbur) & _ & _ & Hr3 & _).
  set (s3 := updateInterceptors rnd delta s2) in *.
  destruct (updateExplosions_spec rnd delta s3)
    as (Hr4 & (chains & killed & He4 & Hch & _) & (_ & _ & Hi4 & _)).
  split; [|split].
  - rewrite Hr4, Hr3, Hr2, Hr1. apply Forall_forall. intros r Hr.
    apply list_elem_of_filter in Hr as [_ Hr].
    apply list_elem_of_filter in Hr as [Hno Hr].
    apply list_elem_of_fmap in Hr as (r0 & -> & Hr).
    unfold impacted in Hno. apply Rnot_ge_lt in Hno.
    split; [|exact Hno]. cbn.
    apply elem_of_app in Hr as [Hr|Hr].
    + pose proof (proj1 (Forall_forall _ _) Hrs r0 Hr) as Hs0. cbn in Hs0.
      pose proof (proj1 (Forall_forall _ _) Htr r0 Hr) as Hp0. cbn in Hp0.
      pose proof (travel_nonneg _ _ Hs0 Hd). lra.
    + pose proof (proj1 (Forall_forall _ _) Hnew r0 Hr) as Hfresh.
      pose proof (freshRocket_speed rnd _ r0 Hrnd Hls Hfresh) as Hs0.
      destruct Hfresh as [Hp0 _].
      pose proof (travel_nonneg _ _ Hs0 Hd). lra.
  - rewrite Hi4, Hi3, Hi2, Hi1. apply Forall_forall. intros i Hi.
    apply list_elem_of_filter in Hi as [Hno Hi].
    apply list_elem_of_fmap in Hi as (i0 & -> & Hi).
    unfold arrived in Hno. apply Rnot_ge_lt in Hno.
    split; [|exact Hno]. cbn.
    pose proof (proj1 (Forall_forall _ _) His i0 Hi) as Hs0. cbn in Hs0.
    pose proof (proj1 (Forall_forall _ _) Hti i0 Hi) as Hp0. cbn in Hp0.
    pose proof (travel_nonneg _ _ Hs0 Hd). lra.
  - rewrite He4. apply Forall_app. split.
    + apply Forall_forall. intros e' He'.
      apply list_elem_of_omap in He' as (e & He & Hstep).
      refine (stepExplosion_radius delta e e' Hd _ Hstep).
      rewrite He3, He2, He1 in He.
      apply elem_of_app in He as [He|He].
      * apply elem_of_app in He as [He|He].
        -- exact (proj1 (Forall_forall _ _) Hte e He).
        -- apply list_elem_of_lookup in He as (k & Hk).
           destruct (Forall2_lookup_l _ _ _ _ _ Himp Hk) as (r & _ & rho & ->).
           cbn. lra.
      * apply list_elem_of_lookup in He as (k & Hk).
        destruct (Forall2_lookup_l _ _ _ _ _ Hbur Hk) as (i & _ & rho & ->).
        cbn. lra.
    + apply Forall_forall. intros c Hc.
      apply list_elem_of_lookup in Hc as (k & Hk).
      destruct (Forall2_lookup_l _ _ _ _ _ Hch Hk) as (r & _ & rho & ->).
      cbn. lra.
Qed.

Lemma projectiles_stay_on_their_way_witness :
  tidy stTriple /\ tidy (update rndHalf 16 stTriple).
Proof.
  assert (Htidy : tidy stTriple).
  { unfold tidy. cbn. repeat split; repeat constructor; cbn; lra. }
  assert (Hwf : wf stTriple).
  { unfold wf. cbn. split; [split; lra|]. split; repeat constructor; cbn; lra. }
  assert (Hdt : 0 <= 16) by lra.
  split; [exact Htidy|].
  exact (projectiles_stay_on_their_way rndHalf 16 stTriple
           rndHalf_inUnit Hdt Hwf Htidy).
Defined.

(** ** Rendering: the state stack and the scene *)

Lemma saveDepth_app d d' ops ops' :
  saveDepth d ops = Some d' -> saveDepth d (ops ++ ops') = saveDepth d' ops'.
Proof.
  revert d. induction ops as [|op ops IH]; intros d; cbn.
  - by intros [= ->].
  - destruct op; try apply IH. destruct d; [discriminate|apply IH].
Qed.

Lemma saveDepth_concat d (l : list (list ctx.Op)) :
  Forall (fun ops => forall d, saveDepth d ops = Some d) l ->
  saveDepth d (concat l) = Some d.
Proof.
  induction 1 as [|ops l Hops _ IH]; cbn; [done|].
  by rewrite (saveDepth_app d d ops (concat l) (Hops d)).
Qed.

Lemma saveDepth_drawCity c d : saveDepth d (drawCity c) = Some d.
Proof. unfold drawCity. by destruct (city_alive c). Qed.

Lemma saveDepth_drawTower t d : saveDepth d (drawTower t) = Some d.
Proof. unfold drawTower. by destruct (tower_alive t). Qed.

Lemma saveDepth_drawRocket r rocket d :
  saveDepth d (drawRocket r rocket) = Some d.
Proof. reflexivity. Qed.

Lemma saveDepth_drawInterceptor i d :
  saveDepth d (drawInterceptor i) = Some d.
Proof. reflexivity. Qed.

Lemma saveDepth_drawExplosion e d : saveDepth d (drawExplosion e) = Some d.
Proof. reflexivity. Qed.

(** X17. Whatever the state, [draw] leaves the state stack of the context
    as it found it: every [restore] finds a [save] to undo and every [save]
    is undone before [draw] returns. *)
Theorem draw_balances_save_and_restore rnd canvas st d :
  saveDepth d (draw rnd canvas st).1 = Some d.
Proof.
  destruct canvas as [cv|]; [|done].
  destruct (context2d cv) eqn:Hc.
  2:{ unfold draw. by rewrite Hc. }
  rewrite (draw_ops rnd cv st Hc).
  cbn [app saveDepth].
  repeat (erewrite saveDepth_app; [|apply saveDepth_concat]);
    [apply saveDepth_concat|..];
    apply Forall_forall; intros ops Hops.
  - apply list_elem_of_fmap in Hops as (e & -> & _).
    apply saveDepth_drawExplosion.
  - apply list_elem_of_fmap in Hops as (i & -> & _).
    apply saveDepth_drawInterceptor.
  - apply list_elem_of_lookup in Hops as (k & Hk).
    apply list_lookup_imap_Some in Hk as (r & _ & ->).
    apply saveDepth_drawRocket.
  - apply list_elem_of_fmap in Hops as (t & -> & _).
    apply saveDepth_drawTower.
  - apply list_elem_of_fmap in Hops as (c & -> & _).
    apply saveDepth_drawCity.
Qed.

Lemma drawCity_live cs :
  concat (drawCity <$> cs)
  = concat (drawCity <$> filter (fun c => city_alive c = true) cs).
Proof.
  induction cs as [|c cs IH]; [done|].
  rewrite filter_cons. destruct (decide (city_alive c = true)) as [Ha|Ha].
  - cbn. by rewrite IH.
  - cbn. rewrite IH. unfold drawCity at 1.
    by destruct (city_alive c).
Qed.

Lemma drawTower_live ts :
  concat (drawTower <$> ts)
  = concat (drawTower <$> filter (fun t => tower_alive t = true) ts).
Proof.
  induction ts as [|t ts IH]; [done|].
  rewrite filter_cons. destruct (decide (tower_alive t = true)) as [Ha|Ha].
  - cbn. by rewrite IH.
  - cbn. rewrite IH. unfold drawTower at 1.
    by destruct (tower_alive t).
Qed.

(** X18. What [draw] paints is settled by the scene: two states with the
    same dimensions, live cities, live towers, rockets, interceptors and
    explosions (and as many calls of [Math.random()] behind them) are
    painted alike, whatever their destroyed installations, their scores,
    their phases and their timers. *)
Theorem draw_paints_the_scene rnd canvas st st' :
  sameScene st st' -> (draw rnd canvas st').1 = (draw rnd canvas st).1.
Proof.
  intros (Hd & Hc & Ht & Hr & Hi & He & Hn).
  destruct canvas as [cv|]; [|done].
  destruct (context2d cv) eqn:Hctx.
  2:{ unfold draw. by rewrite Hctx. }
  rewrite !(draw_ops rnd cv) by exact Hctx.
  rewrite (drawCity_live (citiesRef st')), (drawCity_live (citiesRef st)).
  rewrite (drawTower_live (towersRef st')), (drawTower_live (towersRef st)).
  by rewrite Hd, Hc, Ht, Hr, Hi, He, Hn.
Qed.

Lemma draw_paints_the_scene_witness :
  sameScene stTowersDown
    (set_towers [] (set_score 999 (set_gameState LOST stTowersDown))) /\
  (draw rndHalf (Some someCanvas)
        (set_towers [] (set_score 999 (set_gameState LOST stTowersDown)))).1
  = (draw rndHalf (Some someCanvas) stTowersDown).1.
Proof.
  assert (Hs : sameScene stTowersDown
            (set_towers [] (set_score 999 (set_gameState LOST stTowersDown)))).
  { unfold sameScene. cbn. by repeat split. }
  split; [exact Hs|].
  exact (draw_paints_the_scene rndHalf (Some someCanvas) _ _ Hs).
Defined.

(** ** Which tower fires *)

Section SortStable.

Context {A : Type} (key : A -> R).

Let cmp : A -> A -> R := fun a b => key a - key b.

(** [Array.prototype.sort] is stable: of the elements of the least key the
    first one comes first. *)
Lemma Array_sort_first_least before t after :
  Forall (fun t' => key t < key t') before ->
  Forall (fun t' => key t <= key t') after ->
  exists rest, Array_sort cmp (before ++ t :: after) = t :: rest.
Proof.
  intros Hb Ha. induction Hb as [|a before Hlt _ IH].
  - cbn [app]. unfold Array_sort. cbn [foldr].
    fold (Array_sort cmp after).
    destruct (Array_sort cmp after) as [|b sorted] eqn:Hs; [by eexists|].
    destruct (Array_sort_head key after b sorted Hs) as [Hin _].
    pose proof (proj1 (Forall_forall _ _) Ha b Hin) as Hle.
    cbn. destruct (decide (cmp t b <= 0)) as [|Hno]; [by eexists|].
    unfold cmp in Hno. lra.
  - destruct IH as [rest IH]. cbn [app]. unfold Array_sort in *.
    cbn [foldr]. rewrite IH. cbn.
    destruct (decide (cmp a t <= 0)) as [Hle|]; [|by eexists].
    unfold cmp in Hle. lra.
Qed.

End SortStable.

(** X19. In the PLAYING phase the burst of a tap leaves from the first, in
    the order of [towersRef], of the live towers nearest to the tap point: a
    tower that comes earlier must be strictly farther to be passed over, a
    tower that comes later strictly nearer to be preferred. *)
Theorem tap_fires_from_the_first_nearest_tower
    rnd cv e p st before t after :
  gameState st = PLAYING -> tapAt cv e p ->
  filter (fun t => tower_alive t = true) (towersRef st)
  = before ++ t :: after ->
  Forall (fun t' => distance p (tower_point t) < distance p (tower_point t'))
         before ->
  Forall (fun t' => distance p (tower_point t) <= distance p (tower_point t'))
         after ->
  handleCanvasClick rnd (Some cv) e st
  = Nat.iter 5 (burstBody rnd t (px p) (py p)) st.
Proof.
  intros Hp Htap Hf Hb Ha. unfold handleCanvasClick. rewrite Hp.
  set (client := match e with
                 | MouseEvent clientX clientY => Some (mkPoint clientX clientY)
                 | TouchEvent touches => touches !! 0%nat
                 end).
  assert (Hc : exists c, client = Some c /\
                 p = mkPoint (px c - rect_left (boundingClientRect cv))
                             (py c - rect_top (boundingClientRect cv))).
  { subst client. destruct e as [cx cy|[|t0 ts]]; cbn in Htap |- *;
      [by eexists|done|by eexists]. }
  destruct Hc as (c & -> & Hpt). cbn zeta. rewrite Hf.
  rewrite <- Hpt.
  destruct (Array_sort_first_least
              (fun t => distance p (tower_point t)) before t after Hb Ha)
    as [rest Hs].
  rewrite Hs. by rewrite Hpt.
Qed.

Lemma tap_fires_from_the_first_nearest_tower_witness :
  handleCanvasClick rndHalf (Some someCanvas) (MouseEvent 200 500) stTwoTowers
  = Nat.iter 5
      (burstBody rndHalf
         (mkTower (id_tower 0) 100 500 true (Some 40) (Some 40))
         (200 - 0) (500 - 0))
      stTwoTowers.
Proof.
  apply (tap_fires_from_the_first_nearest_tower rndHalf someCanvas
           (MouseEvent 200 500) (mkPoint (200 - 0) (500 - 0)) stTwoTowers
           [] (mkTower (id_tower 0) 100 500 true (Some 40) (Some 40))
           [mkTower (id_tower 1) 300 500 true (Some 40) (Some 40)]).
  - reflexivity.
  - reflexivity.
  - reflexivity.
  - constructor.
  - constructor; [|constructor]. unfold distance. cbn.
    apply sqrt_le_1_alt. lra.
Defined.

(** ** Between two games *)

Lemma sameGame_refl s : sameGame s s.
Proof. by repeat split. Qed.

Lemma sameGame_trans s1 s2 s3 :
  sameGame s1 s2 -> sameGame s2 s3 -> sameGame s1 s3.
Proof.
  unfold sameGame. intros (?&?&?&?&?&?&?&?) (?&?&?&?&?&?&?&?).
  repeat split; congruence.
Qed.

Lemma handle_over rnd ev st :
  gameState st <> PLAYING -> sameGame st (handle rnd st ev).
Proof.
  intros Hp. destruct ev as [canvas time|canvas e|container canvas]; cbn.
  - unfold frame.
    destruct (runLoopEffect_fields (gameState st) (loop rnd canvas time st).2)
      as (Hg & Hs & Hr & Hi & He & Hc & Ht & _ & Hsp & _).
    unfold sameGame. rewrite Hg, Hs, Hr, Hi, He, Hc, Ht, Hsp.
    unfold loop.
    rewrite (update_not_playing rnd _ (set_lastTime time st)) by exact Hp.
    destruct (draw_state rnd canvas (set_lastTime time st)) as [->| ->];
      by repeat split.
  - unfold handleCanvasClick.
    destruct (gameState st); try apply sameGame_refl. by destruct Hp.
  - unfold handleResize. destruct container, canvas; by repeat split.
Qed.

(** X20. Once the phase is not PLAYING the game is frozen until the next
    [initGame]: no sequence of frames, taps and resizes changes the phase,
    the score, a rocket, an interceptor, an explosion, a city, a tower or
    the spawn timer. *)
Theorem a_game_that_is_over_stays_as_it_is rnd evs st :
  gameState st <> PLAYING -> sameGame st (handleAll rnd evs st).
Proof.
  revert st. induction evs as [|ev evs IH]; intros st Hp.
  - apply sameGame_refl.
  - pose proof (handle_over rnd ev st Hp) as Hstep.
    apply (sameGame_trans _ _ _ Hstep). apply IH.
    destruct Hstep as (Hg & _). by rewrite Hg.
Qed.

Lemma a_game_that_is_over_stays_as_it_is_witness :
  sameGame stWon
    (handleAll rndHalf
       [ Frame (Some someCanvas) 16;
         Tap (Some someCanvas) (MouseEvent 100 500);
         Resize (Some (mkDimensions 400 300)) (Some someCanvas);
         Frame (Some someCanvas) 32 ]
       stWon).
Proof.
  apply (a_game_that_is_over_stays_as_it_is rndHalf _ stWon).
  discriminate.
Defined.

(** ** The board *)

Lemma Forall2_cityDecay_refl cs : Forall2 cityDecay cs cs.
Proof. apply Forall_Forall2_diag, Forall_forall. intros ? _. by left. Qed.

Lemma Forall2_towerDecay_refl ts : Forall2 towerDecay ts ts.
Proof. apply Forall_Forall2_diag, Forall_forall. intros ? _. by left. Qed.

Lemma update_decay rnd dt st :
  Forall2 cityDecay (citiesRef st) (citiesRef (update rnd dt st)) /\
  Forall2 towerDecay (towersRef st) (towersRef (update rnd dt st)).
Proof.
  destruct (decide (gameState st = PLAYING)) as [Hp|Hp].
  - destruct (update_installations rnd dt st Hp) as [-> ->].
    split; [apply foldl_killCity_decay|apply foldl_killTower_decay].
  - rewrite (update_not_playing rnd dt st Hp).
    split; [apply Forall2_cityDecay_refl|apply Forall2_towerDecay_refl].
Qed.

Lemma loop_decay rnd canvas time st :
  Forall2 cityDecay (citiesRef st) (citiesRef (loop rnd canvas time st).2) /\
  Forall2 towerDecay (towersRef st) (towersRef (loop rnd canvas time st).2).
Proof.
  unfold loop.
  pose proof (update_decay rnd (time - lastTimeRef st) (set_lastTime time st))
    as Hu.
  by destruct (draw_state rnd canvas
                 (update rnd (time - lastTimeRef st) (set_lastTime time st)))
    as [->| ->].
Qed.

(** X21. The installations of every state the component reaches are those
    [initGame] laid out, on a canvas of some size, each as it was laid out
    or struck, or there is none yet: frames, taps and resizes never add,
    drop, move or rename a city or a tower, never revive one and never
    touch the ammunition of a tower. *)
Theorem the_board_is_the_one_initGame_laid_out rnd st :
  reachable rnd st ->
  (citiesRef st = [] /\ towersRef st = []) \/
  exists w h, Forall2 cityDecay (boardCities w h) (citiesRef st) /\
              Forall2 towerDecay (boardTowers w h) (towersRef st).
Proof.
  induction 1 as [|now st _ _|canvas time st _ IH
                  |canvas e st _ IH|container canvas st _ IH].
  - by left.
  - right. exists (width (dimensionsRef st)), (height (dimensionsRef st)).
    unfold begin.
    destruct (runLoopEffect_fields (gameState st) (initGame now st))
      as (_ & _ & _ & _ & _ & -> & -> & _).
    split; [apply Forall2_cityDecay_refl|apply Forall2_towerDecay_refl].
  - destruct (loop_decay rnd canvas time st) as [Hc Ht]. unfold frame.
    destruct (runLoopEffect_fields (gameState st) (loop rnd canvas time st).2)
      as (_ & _ & _ & _ & _ & -> & -> & _).
    destruct IH as [[Hc0 Ht0]|(w & h & Hc0 & Ht0)].
    + left. rewrite Hc0 in Hc. rewrite Ht0 in Ht.
      apply Forall2_nil_inv_l in Hc. apply Forall2_nil_inv_l in Ht. done.
    + right. exists w, h. split.
      * eapply Forall2_trans; [apply cityDecay_trans|exact Hc0|exact Hc].
      * eapply Forall2_trans; [apply towerDecay_trans|exact Ht0|exact Ht].
  - destruct (handleCanvasClick_cases rnd canvas e st)
      as [->|(tower & x & y & ->)]; [exact IH|].
    destruct (burst_frame rnd tower x y 5 st)
      as (_ & _ & _ & _ & _ & Hc & Ht & _).
    by rewrite Hc, Ht.
  - unfold handleResize. by destruct container, canvas.
Qed.

Lemma the_board_is_the_one_initGame_laid_out_witness :
  (citiesRef (frame rndHalf (Some someCanvas) 5016
                    (begin 5000 initialState)) = [] /\
   towersRef (frame rndHalf (Some someCanvas) 5016
                    (begin 5000 initialState)) = []) \/
  exists w h,
    Forall2 cityDecay (boardCities w h)
      (citiesRef (frame rndHalf (Some someCanvas) 5016
                        (begin 5000 initialState))) /\
    Forall2 towerDecay (boardTowers w h)
      (towersRef (frame rndHalf (Some someCanvas) 5016
                        (begin 5000 initialState))).
Proof.
  apply (the_board_is_the_one_initGame_laid_out rndHalf).
  apply reach_frame, reach_begin, reach_mount.
Defined.

(** X22. On a canvas whose width is not 0 [initGame] lays out eleven
    targets for the rockets, six cities and five towers, no two of them at
    the same place: the coordinates by which a landing rocket looks up its
    city or tower name one installation. *)
Theorem a_new_board_has_eleven_distinct_targets now st :
  width (dimensionsRef st) <> 0 ->
  length (liveTargets (initGame now st)) = 11%nat /\
  NoDup (liveTargets (initGame now st)).
Proof.
  intros Hw. split; [reflexivity|].
  unfold liveTargets, initGame. cbn.
  rewrite !decide_True by reflexivity. unfold city_point, tower_point. cbn.
  set (w := width (dimensionsRef st)) in *.
  set (h := height (dimensionsRef st)) in *.
  repeat (apply NoDup_cons; split;
          [rewrite ?not_elem_of_cons; repeat split;
           try apply not_elem_of_nil;
           intros Heq; inversion Heq; first [lra | apply Hw; lra] |]).
  apply NoDup_nil_2.
Qed.

Lemma a_new_board_has_eleven_distinct_targets_witness :
  length (liveTargets (initGame 0 stWon)) = 11%nat /\
  NoDup (liveTargets (initGame 0 stWon)).
Proof.
  apply (a_new_board_has_eleven_distinct_targets 0 stWon).
  cbn. lra.
Defined.

(** ** A frame from the past *)

(** X23. Only long frames are clamped: a frame that reports a time before
    [lastTimeRef] ([dt < 0]) runs the PLAYING game backwards.  With the
    projectiles on their way and the spawn timer at 266 or less, the timer
    goes back by [dt], nothing lands or detonates, so that the cities and
    the towers stay and the game is not lost, every interceptor stays with
    its progress moved by [speed * (dt / 16.67)], which is not forward, and
    the rockets that are left are rockets of before, moved the same way. *)
Theorem a_negative_frame_runs_backwards rnd dt st :
  dt < 0 -> gameState st = PLAYING -> wf st -> tidy st ->
  spawnTimerRef st <= 266 ->
  let st' := update rnd dt st in
  spawnTimerRef st' = spawnTimerRef st + dt /\
  citiesRef st' = citiesRef st /\ towersRef st' = towersRef st /\
  gameState st' <> LOST /\
  interceptorsRef st' = advanceInterceptor dt <$> interceptorsRef st /\
  Forall2 (fun i i' => inter_progress i' <= inter_progress i)
          (interceptorsRef st) (interceptorsRef st') /\
  rocketsRef st' `sublist_of` (advanceRocket dt <$> rocketsRef st).
Proof.
  intros Hdt Hp ([Hsc Hls] & Hrs & His) (Htr & Hti & Hte) Htimer. cbn zeta.
  rewrite (update_playing rnd dt st Hp).
  assert (Hmin : Rmin dt 100 = dt) by (apply Rmin_left; lra).
  rewrite Hmin.
  assert (Hq : dt / 16.67 < 0) by lra.
  rewrite (spawnRockets_quiet rnd dt st).
  2:{ pose proof (Rmax_l 266 (1000 - loopScore st / 100 * 66)). lra. }
  set (s1 := set_spawnTimer (spawnTimerRef st + dt) st).
  assert (Hno : Forall (fun r => ~ impacted (advanceRocket dt r))
                       (rocketsRef s1)).
  { apply Forall_forall. intros r Hr. unfold impacted. cbn.
    pose proof (proj1 (Forall_forall _ _) Hrs r Hr) as Hs0. cbn in Hs0.
    pose proof (proj1 (Forall_forall _ _) Htr r Hr) as Hp0. cbn in Hp0.
    apply Rlt_not_ge. nra. }
  destruct (updateRockets_no_impact rnd dt s1 Hno)
    as (Hr2 & He2 & Hg2 & Hs2 & Hi2 & Hc2 & Ht2).
  destruct (updateRockets_spec rnd dt s1)
    as (_ & _ & _ & _ & _ & _ & _ & _ & Hsp2 & _).
  set (s2 := updateRockets rnd dt s1) in *.
  destruct (updateInterceptors_spec rnd dt s2)
    as (Hi3 & _ & Hg3 & Hs3 & Hr3 & Hc3 & Ht3 & _ & Hsp3 & _).
  set (s3 := updateInterceptors rnd dt s2) in *.
  destruct (updateExplosions_spec rnd dt s3)
    as (Hr4 & (chains & killed & _ & _ & _ & _ & Hg4)
        & (Hc4 & Ht4 & Hi4 & _ & Hsp4 & _)).
  assert (Hkeep : interceptorsRef s3
                  = advanceInterceptor dt <$> interceptorsRef st).
  { rewrite Hi3, Hi2. apply filter_Forall_all, Forall_forall.
    intros i Hi. apply list_elem_of_fmap in Hi as (i0 & -> & Hi).
    unfold arrived. cbn.
    pose proof (proj1 (Forall_forall _ _) His i0 Hi) as Hs0. cbn in Hs0.
    pose proof (proj1 (Forall_forall _ _) Hti i0 Hi) as Hp0. cbn in Hp0.
    apply Rlt_not_ge. nra. }
  repeat split.
  - by rewrite Hsp4, Hsp3, Hsp2.
  - by rewrite Hc4, Hc3, Hc2.
  - by rewrite Ht4, Ht3, Ht2.
  - rewrite Hg4, Hg3, Hg2. unfold phaseAfterKills.
    destruct (decide _); [discriminate|]. cbn. by rewrite Hp.
  - by rewrite Hi4.
  - rewrite Hi4, Hkeep. apply Forall2_fmap_r, Forall_Forall2_diag.
    apply Forall_forall. intros i Hi. cbn.
    pose proof (proj1 (Forall_forall _ _) His i Hi) as Hs0. cbn in Hs0.
    nra.
  - rewrite Hr4, Hr3, Hr2. apply sublist_filter.
Qed.

Lemma a_negative_frame_runs_backwards_witness :
  spawnTimerRef (update rndHalf (-5) stOneRocket)
  = spawnTimerRef stOneRocket + -5 /\
  gameState (update rndHalf (-5) stOneRocket) <> LOST /\
  rocketsRef (update rndHalf (-5) stOneRocket)
    `sublist_of` (advanceRocket (-5) <$> rocketsRef stOneRocket).
Proof.
  assert (Hdt : -5 < 0) by lra.
  assert (Hwf : wf stOneRocket).
  { unfold wf. cbn. split; [split; lra|]. split; repeat constructor; cbn; lra. }
  assert (Htidy : tidy stOneRocket).
  { unfold tidy. cbn. repeat split; repeat constructor; cbn; lra. }
  assert (Htimer : spawnTimerRef stOneRocket <= 266) by (cbn; lra).
  destruct (a_negative_frame_runs_backwards rndHalf (-5) stOneRocket
              Hdt eq_refl Hwf Htidy Htimer)
    as (H1 & _ & _ & H4 & _ & _ & H7).
  by repeat split.
Defined.

(** ** Explosions die out *)

Lemma nat_above x c : 0 < c -> exists n : nat, x <= INR n * c.
Proof.
  intros Hc. destruct (archimed (x / c)) as [Hup _].
  exists (Z.to_nat (Z.max 0 (up (x / c)))).
  rewrite INR_IZR_INZ, Z2Nat.id by lia.
  assert (Hz : IZR (up (x / c)) <= IZR (Z.max 0 (up (x / c))))
    by (apply IZR_le; lia).
  assert (Hx : x / c * c = x) by (field; lra).
  nra.
Qed.

Section DieOut.

Variable d : R.
Hypothesis d_pos : 0 < d.

Let shrink : R := 0.8 * (d / 16.67).
Let grow : R := 1.5 * (d / 16.67).

Lemma contracting_dies n :
  forall deltas e,
    exp_expanding e = false -> exp_radius e <= INR n * shrink ->
    (S n <= length deltas)%nat ->
    Forall (fun delta => d <= delta <= 100) deltas ->
    explosionAfter deltas e = None.
Proof.
  induction n as [|n IH]; intros deltas e He Hr Hlen Hds;
    (destruct deltas as [|delta deltas]; [cbn in Hlen; lia|]);
    apply Forall_cons in Hds as [[Hlo Hhi] Hds];
    cbn [explosionAfter]; unfold stepExplosion; rewrite He; cbn zeta;
    (destruct (decide _) as [|Hpos]; [done|]); cbn in Hpos.
  - exfalso. apply Hpos. cbn in Hr. unfold shrink in *. lra.
  - apply IH; [done| |cbn in Hlen; lia|done].
    cbn. rewrite S_INR in Hr. unfold shrink in *. lra.
Qed.

Lemma expanding_dies M K :
  M + 1.5 * (100 / 16.67) <= INR K * shrink ->
  forall m deltas e,
    exp_expanding e = true -> exp_radius e <= M -> exp_maxRadius e <= M ->
    exp_maxRadius e - exp_radius e <= INR m * grow ->
    (m + K + 2 <= length deltas)%nat ->
    Forall (fun delta => d <= delta <= 100) deltas ->
    explosionAfter deltas e = None.
Proof.
  intros HK. induction m as [|m IH]; intros deltas e He Hr Hmax Hgap Hlen Hds;
    (destruct deltas as [|delta deltas]; [cbn in Hlen; lia|]);
    apply Forall_cons in Hds as [[Hlo Hhi] Hds];
    cbn [explosionAfter]; unfold stepExplosion; rewrite He; cbn zeta;
    destruct (decide _) as [Hflip|Hgo]; cbn in *.
  - apply (contracting_dies K); [done|cbn; lra|lia|done].
  - exfalso. apply Hgo. unfold grow in *. lra.
  - apply (contracting_dies K); [done|cbn; lra|lia|done].
  - apply IH; [done|cbn; lra|done| |lia|done].
    cbn. destruct m; cbn in *; unfold grow in *; lra.
Qed.

Lemma explosion_dies e :
  exists n : nat, forall deltas,
    (n <= length deltas)%nat ->
    Forall (fun delta => d <= delta <= 100) deltas ->
    explosionAfter deltas e = None.
Proof.
  set (M := Rmax (exp_radius e) (exp_maxRadius e)).
  assert (Hs : 0 < shrink) by (unfold shrink; lra).
  assert (Hg : 0 < grow) by (unfold grow; lra).
  destruct (nat_above (M + 1.5 * (100 / 16.67)) shrink Hs) as [K HK].
  destruct (nat_above (exp_maxRadius e - exp_radius e) grow Hg) as [m Hm].
  pose proof (Rmax_l (exp_radius e) (exp_maxRadius e)).
  pose proof (Rmax_r (exp_radius e) (exp_maxRadius e)).
  exists (m + K + 2)%nat. intros deltas Hlen Hds.
  destruct (exp_expanding e) eqn:He.
  - by apply (expanding_dies M K HK m).
  - apply (contracting_dies K); [done|fold M in H; lra|lia|done].
Qed.

Lemma explosions_die E :
  exists n : nat, forall deltas,
    (n <= length deltas)%nat ->
    Forall (fun delta => d <= delta <= 100) deltas ->
    omap (explosionAfter deltas) E = [].
Proof.
  induction E as [|e E [n IH]].
  - by exists 0%nat.
  - destruct (explosion_dies e) as [k Hk].
    exists (Nat.max k n). intros deltas Hlen Hds. cbn.
    rewrite (Hk deltas) by (done || lia). apply IH; [lia|done].
Qed.

End DieOut.

Lemma omap_explosionAfter delta deltas (E : list Explosion) :
  omap (explosionAfter deltas) (omap (stepExplosion delta) E)
  = omap (explosionAfter (delta :: deltas)) E.
Proof.
  induction E as [|e E IH]; [done|]. cbn.
  destruct (stepExplosion delta e) as [e'|]; cbn; by rewrite IH.
Qed.

Lemma omap_explosionAfter_nil (E : list Explosion) : omap (explosionAfter []) E = E.
Proof. induction E as [|e E IH]; [done|]. cbn. f_equal. exact IH. Qed.

Lemma burnOut_spec rnd deltas :
  forall st,
    rocketsRef st = [] ->
    rocketsRef (burnOut rnd deltas st) = [] /\
    explosionsRef (burnOut rnd deltas st)
    = omap (explosionAfter deltas) (explosionsRef st) /\
    score (burnOut rnd deltas st) = score st.
Proof.
  induction deltas as [|delta deltas IH]; intros st Hr.
  - cbn. by rewrite omap_explosionAfter_nil.
  - change (burnOut rnd (delta :: deltas) st)
      with (burnOut rnd deltas (updateExplosions rnd delta st)).
    destruct (updateExplosions_spec rnd delta st)
      as (Hr1 & (chains & killed & _ & Hch & Hk & Hs & _) & _).
    pose proof (updateExplosions_no_rockets rnd delta st Hr) as He1.
    rewrite Hr in Hr1, Hk. cbn in Hr1, Hk.
    apply Permutation_nil_r in Hk. subst killed.
    apply Forall2_nil_inv_r in Hch. subst chains.
    destruct (IH (updateExplosions rnd delta st) Hr1) as (Hr2 & He2 & Hs2).
    split; [exact Hr2|]. split.
    + by rewrite He2, He1, omap_explosionAfter.
    + rewrite Hs2, Hs. cbn. lra.
Qed.

(** X24. Explosions die out: with no rocket in flight to chain on, the
    explosion loop of enough successive steps whose [delta] is at least
    some [d > 0] (and at most 100, the clamp of [update]) leaves no
    explosion, whatever their radii, their largest radii and their phases
    were; the score stays. *)
Theorem explosions_die_out rnd d st :
  0 < d -> rocketsRef st = [] ->
  exists n : nat, forall deltas,
    (n <= length deltas)%nat ->
    Forall (fun delta => d <= delta <= 100) deltas ->
    explosionsRef (burnOut rnd deltas st) = [] /\
    rocketsRef (burnOut rnd deltas st) = [] /\
    score (burnOut rnd deltas st) = score st.
Proof.
  intros Hd Hr.
  destruct (explosions_die d Hd (explosionsRef st)) as [n Hn].
  exists n. intros deltas Hlen Hds.
  destruct (burnOut_spec rnd deltas st Hr) as (Hr' & He' & Hs').
  split; [|by split]. rewrite He'. by apply Hn.
Qed.

Lemma explosions_die_out_witness :
  exists n : nat, forall deltas,
    (n <= length deltas)%nat ->
    Forall (fun delta => 16 <= delta <= 100) deltas ->
    explosionsRef (burnOut rndHalf deltas stGrow) = [] /\
    rocketsRef (burnOut rndHalf deltas stGrow) = [] /\
    score (burnOut rndHalf deltas stGrow) = score stGrow.
Proof.
  apply (explosions_die_out rndHalf 16 stGrow).
  - lra.
  - reflexivity.
Defined.
